(** * EU additive enrichment: cache and lookup layer

    A shallow embedding of [core/eu_additives.py]: the E-code normaliser,
    the registry client, the row selector, the Swedish translation
    adapter, the two-tier cache ([L1_CACHE] and the SQLite table
    [eu_additives]) and the public entry points [query_eu_additive] and
    [enrich_items_with_eu], followed by the properties of the design
    document that concern them. *)

From Stdlib Require Import ZArith Lia Ascii String List.
From stdpp Require Import base option list strings gmap fin_maps.

Import ListNotations.
Local Open Scope string_scope.
Local Open Scope Z_scope.

(** ** Python strings

    A Python [str] is modelled by a Rocq [string].  Characters are the
    ASCII code points; [str.upper], [str.lower], [str.strip] and the
    regular-expression classes [\s], [\d], [\w] are the ASCII
    restrictions of Python's tables, and a byte above 127 is a character
    that none of them classifies or changes. *)

Module PyStr.

Definition code (c : ascii) : N := N_of_ascii c.

(** [str.isspace] on ASCII, which is also the class [\s]:
    TAB, LF, VT, FF, CR, the separators FS, GS, RS, US, and the space. *)
Definition is_space (c : ascii) : bool :=
  let n := code c in
  ((9 <=? n) && (n <=? 13) || (28 <=? n) && (n <=? 32))%N.

Definition is_digit (c : ascii) : bool :=
  let n := code c in ((48 <=? n) && (n <=? 57))%N.

Definition is_upper (c : ascii) : bool :=
  let n := code c in ((65 <=? n) && (n <=? 90))%N.

Definition is_lower (c : ascii) : bool :=
  let n := code c in ((97 <=? n) && (n <=? 122))%N.

Definition is_alpha (c : ascii) : bool := is_upper c || is_lower c.

(** The class [\w]: letters, digits and the underscore. *)
Definition is_word (c : ascii) : bool :=
  is_alpha c || is_digit c || (code c =? 95)%N.

Definition is_hyphen (c : ascii) : bool := (code c =? 45)%N.

Definition upper_char (c : ascii) : ascii :=
  if is_lower c then ascii_of_N (code c - 32) else c.

Definition lower_char (c : ascii) : ascii :=
  if is_upper c then ascii_of_N (code c + 32) else c.

Fixpoint map_chars (f : ascii -> ascii) (s : string) : string :=
  match s with
  | EmptyString => EmptyString
  | String c r => String (f c) (map_chars f r)
  end.

Fixpoint filter_chars (p : ascii -> bool) (s : string) : string :=
  match s with
  | EmptyString => EmptyString
  | String c r => if p c then String c (filter_chars p r) else filter_chars p r
  end.

Fixpoint all_chars (p : ascii -> bool) (s : string) : bool :=
  match s with
  | EmptyString => true
  | String c r => p c && all_chars p r
  end.

Definition upper : string -> string := map_chars upper_char.
Definition lower : string -> string := map_chars lower_char.

Fixpoint lstrip (s : string) : string :=
  match s with
  | EmptyString => EmptyString
  | String c r => if is_space c then lstrip r else s
  end.

Fixpoint rstrip (s : string) : string :=
  match s with
  | EmptyString => EmptyString
  | String c r =>
      match rstrip r with
      | EmptyString => if is_space c then EmptyString else String c EmptyString
      | r' => String c r'
      end
  end.

(** [s.strip()] *)
Definition strip (s : string) : string := rstrip (lstrip s).

(** [s.startswith(p)] for a one-character [p]. *)
Definition starts_with_char (c : ascii) (s : string) : bool :=
  match s with
  | String d _ => (code d =? code c)%N
  | EmptyString => false
  end.

(** Truthiness of a string: [bool(s)]. *)
Definition nonempty (s : string) : bool :=
  match s with EmptyString => false | _ => true end.

(** [needle in s] *)
Fixpoint contains (needle s : string) : bool :=
  if String.prefix needle s then true
  else match s with
       | EmptyString => false
       | String _ r => contains needle r
       end.

End PyStr.

(** ** E-code utilities *)

Module Normalizer.
Import PyStr.

(** [re.sub] of the class [[\s-]+] by the empty string: every maximal
    run of whitespace and hyphens is deleted, which deletes exactly
    those characters. *)
Definition drop_space_hyphen : string -> string :=
  filter_chars (fun c => negb (is_space c || is_hyphen c)).

Definition normalize_e_code_storage (s : string) : string :=
  if negb (nonempty s) then EmptyString
  else
    let s := upper (strip s) in
    let s := drop_space_hyphen s in
    if negb (starts_with_char "E" s) then "E" ++ s else s.

(** *** The pattern [E\s*[- ]?\s*(\d{3}[A-Z]?)] under [re.IGNORECASE]

    Between the letter E and the digits the pattern admits whitespace
    with at most one hyphen in it (the space that [[- ]] may take is
    whitespace already).  The digits are neither, so the group starts at
    the first character after E that is not whitespace or the one
    hyphen: a match at a given position is unique up to the greedy
    optional letter, and the matcher below needs no backtracking. *)

Fixpoint skip_space (s : string) : string :=
  match s with
  | String c r => if is_space c then skip_space r else s
  | EmptyString => EmptyString
  end.

Definition skip_one_hyphen (s : string) : string :=
  match s with
  | String c r => if is_hyphen c then r else s
  | EmptyString => EmptyString
  end.

Definition is_E (c : ascii) : bool := (code c =? 69)%N || (code c =? 101)%N.

(** Group 1 at the head of [s]: three digits and, greedily, one letter. *)
Definition core_here (s : string) : option string :=
  match s with
  | String d1 (String d2 (String d3 r)) =>
      if is_digit d1 && is_digit d2 && is_digit d3 then
        match r with
        | String l _ =>
            if is_alpha l
            then Some (String d1 (String d2 (String d3 (String l EmptyString))))
            else Some (String d1 (String d2 (String d3 EmptyString)))
        | EmptyString => Some (String d1 (String d2 (String d3 EmptyString)))
        end
      else None
  | _ => None
  end.

(** A match of the whole pattern starting exactly at the head of [s]. *)
Definition core_match_at (s : string) : option string :=
  match s with
  | String c r =>
      if is_E c then core_here (skip_space (skip_one_hyphen (skip_space r)))
      else None
  | EmptyString => None
  end.

(** [re.search]: the leftmost position with a match; returns group 1. *)
Fixpoint core_search (s : string) : option string :=
  match core_match_at s with
  | Some g => Some g
  | None =>
      match s with
      | String _ r => core_search r
      | EmptyString => None
      end
  end.

(** [re.sub] of [\D] by the empty string: the digits are kept. *)
Definition digits_only : string -> string := filter_chars is_digit.

Definition spellings (core : string) : list string :=
  ["E " ++ core; "E" ++ core; "E-" ++ core].

Definition normalize_e_code_query_variants (s : string) : list string :=
  let s := upper (strip s) in
  match core_search s with
  | None =>
      let core := digits_only s in
      if nonempty core then spellings core else [s]
  | Some core => spellings core
  end.

(** *** The pattern [_ECODE_RE = (?i)\bE\s*[- ]?\s*\d{3}[a-z]?\b]

    [ecode_here] returns the matched text from the first digit on, when
    the text at the head of [s] is three digits, an optional letter and
    then a word boundary.  With the letter taken the boundary needs the
    next character not to be a word character; without it the boundary
    needs the character after the digits not to be one. *)
Definition boundary_before (s : string) : bool :=
  match s with
  | String c _ => negb (is_word c)
  | EmptyString => true
  end.

Definition ecode_here (s : string) : option string :=
  match s with
  | String d1 (String d2 (String d3 r)) =>
      if is_digit d1 && is_digit d2 && is_digit d3 then
        match r with
        | String l r' =>
            if is_alpha l && boundary_before r'
            then Some (String d1 (String d2 (String d3 (String l EmptyString))))
            else if boundary_before r
            then Some (String d1 (String d2 (String d3 EmptyString)))
            else None
        | EmptyString => Some (String d1 (String d2 (String d3 EmptyString)))
        end
      else None
  | _ => None
  end.

(** The length of the separator run that the pattern consumes between
    E and the digits, as a prefix of [s]. *)
Fixpoint take_space (s : string) : string :=
  match s with
  | String c r => if is_space c then String c (take_space r) else EmptyString
  | EmptyString => EmptyString
  end.

Definition take_one_hyphen (s : string) : string :=
  match s with
  | String c _ => if is_hyphen c then String c EmptyString else EmptyString
  | EmptyString => EmptyString
  end.

(** [m.group(0)] for a match starting exactly at the head of [s]; the
    leading [\b] is checked by the caller, which knows the previous
    character. *)
Definition ecode_match_at (s : string) : option string :=
  match s with
  | String c r =>
      if is_E c then
        let w1 := take_space r in
        let r1 := skip_space r in
        let h := take_one_hyphen r1 in
        let r2 := skip_one_hyphen r1 in
        let w2 := take_space r2 in
        let r3 := skip_space r2 in
        match ecode_here r3 with
        | Some tail => Some (String c (w1 ++ h ++ w2 ++ tail))
        | None => None
        end
      else None
  | EmptyString => None
  end.

(** [_ECODE_RE.search(text)]; [at_boundary] says whether the position
    before the head of [s] is the start of the text or a non-word
    character. *)
Fixpoint ecode_search_from (at_boundary : bool) (s : string) : option string :=
  match s with
  | EmptyString => None
  | String c r =>
      match (if at_boundary then ecode_match_at s else None) with
      | Some g => Some g
      | None => ecode_search_from (negb (is_word c)) r
      end
  end.

Definition ecode_search (text : string) : option string :=
  ecode_search_from true text.

Definition extract_e_code_from_text (text : string) : string :=
  if negb (nonempty text) then EmptyString
  else match ecode_search text with
       | Some g => normalize_e_code_storage g
       | None => EmptyString
       end.

End Normalizer.

Import PyStr Normalizer.

(** ** Python values

    The values that travel in rows, records and items.  A number is
    observed by the code only through its truthiness and its [str()],
    so it carries both.  [str()] of a list or a dict is Python's
    [repr], which the embedding does not re-implement: it is a
    parameter of the runtime (see [World]). *)

Module Py.
Import PyStr.

#[warnings="-register-all"]
Inductive pyval :=
| PNone
| PStr (s : string)
| PBool (b : bool)
| PNum (nonzero : bool) (repr : string)
| PList (l : list pyval)
| PDict (d : gmap string pyval).

(** A Python [dict] with [str] keys: an upstream row, a cached record,
    a classified item. *)
Abbreviation pydict := (gmap string pyval).

(** [bool(v)] *)
Definition truthy (v : pyval) : bool :=
  match v with
  | PNone => false
  | PStr s => nonempty s
  | PBool b => b
  | PNum nz _ => nz
  | PList l => match l with [] => false | _ => true end
  | PDict d => negb (bool_decide (d = ∅))
  end.

(** [bool(d)] for a dict held directly. *)
Definition dict_truthy (d : pydict) : bool := negb (bool_decide (d = ∅)).

(** [a or b] *)
Definition py_or (a b : pyval) : pyval := if truthy a then a else b.

(** [d.get(k)] and [d.get(k, dflt)] *)
Definition get (d : pydict) (k : string) : pyval := default PNone (d !! k).
Definition get_or (d : pydict) (k : string) (dflt : pyval) : pyval :=
  default dflt (d !! k).

(** [v not in (None, '')] *)
Definition not_blank (v : pyval) : bool :=
  match v with
  | PNone => false
  | PStr s => nonempty s
  | _ => true
  end.

(** [v == "lit"] for a string literal. *)
Definition eq_str (v : pyval) (lit : string) : bool :=
  match v with
  | PStr s => bool_decide (s = lit)
  | _ => false
  end.

(** Exceptions: every one the code can meet derives from [Exception],
    so a bare [except Exception] catches all of them; the name is kept
    for the reader. *)
Inductive exn := Exception (name : string).

Inductive result (A : Type) :=
| Ok (a : A)
| Raise (e : exn).
Arguments Ok {A} a.
Arguments Raise {A} e.

(** [v.strip()], an [AttributeError] unless [v] is a [str]. *)
Definition strip_method (v : pyval) : result string :=
  match v with
  | PStr s => Ok (strip s)
  | _ => Raise (Exception "AttributeError")
  end.

End Py.

Import Py.

(** ** Dates

    A [datetime] is naive (no offset) or aware; both count microseconds
    from 1970-01-01T00:00:00.  Subtracting an aware value from a naive
    one is a [TypeError] in Python. *)

Module Dates.
Import PyStr.

Inductive datetime :=
| Naive (us : Z)
| Aware (us_utc : Z).

Definition us_per_second : Z := 1000000.
Definition us_per_day : Z := 86400 * us_per_second.

(** [timedelta(days=d)] in microseconds. *)
Definition timedelta_days (d : Z) : Z := d * us_per_day.

(** Days from 1970-01-01 to a civil date of the proleptic Gregorian
    calendar. *)
Definition days_from_civil (y m d : Z) : Z :=
  let y' := if m <=? 2 then y - 1 else y in
  let era := y' / 400 in
  let yoe := y' - era * 400 in
  let doy := (153 * (if m >? 2 then m - 3 else m + 9) + 2) / 5 + d - 1 in
  let doe := yoe * 365 + yoe / 4 - yoe / 100 + doy in
  era * 146097 + doe - 719468.

Definition civil_from_days (z : Z) : Z * Z * Z :=
  let z := z + 719468 in
  let era := z / 146097 in
  let doe := z - era * 146097 in
  let yoe := (doe - doe / 1460 + doe / 36524 - doe / 146096) / 365 in
  let doy := doe - (365 * yoe + yoe / 4 - yoe / 100) in
  let mp := (5 * doy + 2) / 153 in
  let d := doy - (153 * mp + 2) / 5 + 1 in
  let m := if mp <? 10 then mp + 3 else mp - 9 in
  ((yoe + era * 400 + (if m <=? 2 then 1 else 0)), m, d).

Definition digit_value (c : ascii) : Z := Z.of_N (code c) - 48.

Fixpoint decimal_value (acc : Z) (s : string) : Z :=
  match s with
  | EmptyString => acc
  | String c r => decimal_value (10 * acc + digit_value c) r
  end.

(** The [n] characters of [s] from position [i], read as a number. *)
Definition number_at (s : string) (i n : nat) : option Z :=
  let t := substring i n s in
  if (String.length t =? n)%nat && all_chars is_digit t
  then Some (decimal_value 0 t) else None.

Definition char_at (s : string) (i : nat) (c : ascii) : bool :=
  match String.get i s with
  | Some d => (code d =? code c)%N
  | None => false
  end.

Definition days_in_month (y m : Z) : Z :=
  days_from_civil (if m =? 12 then y + 1 else y) (if m =? 12 then 1 else m + 1) 1
  - days_from_civil y m 1.

(** [datetime.fromisoformat] on the two layouts
    [YYYY-MM-DDTHH:MM:SS] (what [_utcnow] writes) and
    [YYYY-MM-DDTHH:MM:SS+HH:MM] (the same with a UTC offset).  Python
    accepts more layouts; this fragment serves the worked examples, the
    development itself takes the parser as a parameter. *)
Definition fromisoformat_seconds (s : string) : option datetime :=
  match number_at s 0 4, number_at s 5 2, number_at s 8 2,
        number_at s 11 2, number_at s 14 2, number_at s 17 2 with
  | Some y, Some mo, Some d, Some h, Some mi, Some se =>
      if char_at s 4 "-" && char_at s 7 "-" && char_at s 10 "T"
         && char_at s 13 ":" && char_at s 16 ":"
         && (1 <=? y) && (1 <=? mo) && (mo <=? 12)
         && (1 <=? d) && (d <=? days_in_month y mo)
         && (h <? 24) && (mi <? 60) && (se <? 60)
      then
        let local := (days_from_civil y mo d * 86400 + h * 3600 + mi * 60 + se)
                     * us_per_second in
        if (String.length s =? 19)%nat then Some (Naive local)
        else
          match number_at s 20 2, number_at s 23 2 with
          | Some oh, Some om =>
              if (String.length s =? 25)%nat && char_at s 19 "+"
                 && char_at s 22 ":" && (oh <? 24) && (om <? 60)
              then Some (Aware (local - (oh * 3600 + om * 60) * us_per_second))
              else None
          | _, _ => None
          end
      else None
  | _, _, _, _, _, _ => None
  end.

Definition digit_char (n : Z) : ascii := ascii_of_N (Z.to_N (48 + n mod 10)).

Definition two_digits (n : Z) : string :=
  String (digit_char (n / 10)) (String (digit_char n) EmptyString).

Definition four_digits (n : Z) : string :=
  String (digit_char (n / 1000)) (String (digit_char (n / 100))
    (String (digit_char (n / 10)) (String (digit_char n) EmptyString))).

(** [dt.isoformat(timespec="seconds")] of a naive value. *)
Definition isoformat_seconds (us : Z) : string :=
  let secs := us / us_per_second in
  let '(y, m, d) := civil_from_days (secs / 86400) in
  let t := secs mod 86400 in
  four_digits y ++ "-" ++ two_digits m ++ "-" ++ two_digits d ++ "T"
  ++ two_digits (t / 3600) ++ ":" ++ two_digits (t / 60 mod 60) ++ ":"
  ++ two_digits (t mod 60).

End Dates.

Import Dates.

(** ** The world outside the module

    Everything [eu_additives.py] reaches but does not define: the
    interpreter's [repr], the clock, the date parser and printer, the
    HTTP endpoint, the disk, the text-generation chain and the JSON
    coercion of [core/json_utils.py].  An observation of the outside is
    indexed by the number of observations made before it, so that the
    clock advances and the registry may answer the same request
    differently at different times. *)

Record request := {
  req_url : string;
  req_params : gmap string string;
  req_headers : gmap string string;
  req_timeout : Z;
}.

Record response := {
  status_code : Z;
  content : string;               (* resp.content, the raw body *)
  json_body : result pyval;       (* resp.json() *)
  text : string;                  (* resp.text *)
}.

Record World := {
  py_repr : pyval -> string;                       (* str() of a list or dict *)
  utcnow : nat -> Z;                               (* datetime.utcnow(), in microseconds *)
  fromisoformat : string -> option datetime;       (* None: ValueError *)
  isoformat : Z -> string;                         (* isoformat(timespec="seconds") *)
  requests_get : nat -> request -> result response;
  write_bytes : nat -> string -> string -> result unit;
  csv_DictReader : string -> result (list pydict); (* list(csv.DictReader(StringIO(text))) *)
  HDR_API_KEY : string;
  QRY_API_KEY : string;
  GOOGLE_API_KEY : string;
  ChatGoogleGenerativeAI : nat -> result unit;     (* constructing the model client *)
  chain_invoke : nat -> string -> string -> result string;
  parse_json_strict : string -> result pyval;
}.

(** ** Program state *)

(** One row of the table [eu_additives], without its primary key
    [e_code].  A column is NULL ([None]) or a text.  [payload_json]
    holds the value that its JSON text denotes: [json.dumps] followed by
    [json.loads] is the identity on the rows the registry delivers. *)
Record db_row := {
  official_name_en : option string;
  function_en : option string;
  policy_item_id : option string;
  payload_json : option pyval;
  name_sv : option string;
  function_sv : option string;
  updated_at : option string;
}.

(** The effects whose order matters to the cache design. *)
Inductive event :=
| EvHttpGet (format : string) (params : gmap string string)
| EvDbUpsert (eu : pydict)
| EvL1Put (key : string) (value : pydict)
| EvSleep.

Record state := {
  L1_CACHE : gmap string pydict;       (* the process-wide in-memory cache *)
  eu_additives : gmap string db_row;   (* the SQLite table, by primary key *)
  objects : gmap nat pydict;           (* item dictionaries, by object identity *)
  files : gmap string string;          (* debug files under DATA_DIR *)
  ticks : nat;                         (* observations of the world so far *)
  trace : list event;                  (* oldest first *)
}.

Definition set_L1_CACHE (f : gmap string pydict -> gmap string pydict) (s : state) : state :=
  {| L1_CACHE := f (L1_CACHE s); eu_additives := eu_additives s; objects := objects s;
     files := files s; ticks := ticks s; trace := trace s |}.

Definition set_eu_additives (f : gmap string db_row -> gmap string db_row) (s : state) : state :=
  {| L1_CACHE := L1_CACHE s; eu_additives := f (eu_additives s); objects := objects s;
     files := files s; ticks := ticks s; trace := trace s |}.

Definition set_objects (f : gmap nat pydict -> gmap nat pydict) (s : state) : state :=
  {| L1_CACHE := L1_CACHE s; eu_additives := eu_additives s; objects := f (objects s);
     files := files s; ticks := ticks s; trace := trace s |}.

Definition set_files (f : gmap string string -> gmap string string) (s : state) : state :=
  {| L1_CACHE := L1_CACHE s; eu_additives := eu_additives s; objects := objects s;
     files := f (files s); ticks := ticks s; trace := trace s |}.

Definition set_ticks (f : nat -> nat) (s : state) : state :=
  {| L1_CACHE := L1_CACHE s; eu_additives := eu_additives s; objects := objects s;
     files := files s; ticks := f (ticks s); trace := trace s |}.

Definition set_trace (f : list event -> list event) (s : state) : state :=
  {| L1_CACHE := L1_CACHE s; eu_additives := eu_additives s; objects := objects s;
     files := files s; ticks := ticks s; trace := f (trace s) |}.

(** ** The monad of the embedding: state, and exceptions that keep the
    state reached when they were raised. *)

Definition M (A : Type) : Type := state -> result A * state.

#[global] Instance M_ret : MRet M := fun A a s => (Ok a, s).

#[global] Instance M_bind : MBind M := fun A B f m s =>
  match m s with
  | (Ok a, s') => f a s'
  | (Raise e, s') => (Raise e, s')
  end.

Definition raise {A} (e : exn) : M A := fun s => (Raise e, s).

(** [try: body / except Exception: handler] *)
Definition try_except {A} (body handler : M A) : M A := fun s =>
  match body s with
  | (Ok a, s') => (Ok a, s')
  | (Raise _, s') => handler s'
  end.

#[global] Instance result_ret : MRet result := fun A a => Ok a.

#[global] Instance result_bind : MBind result := fun A B f r =>
  match r with
  | Ok a => f a
  | Raise e => Raise e
  end.

Definition lift_result {A} (r : result A) : M A := fun s => (r, s).

Definition get_state : M state := fun s => (Ok s, s).
Definition modify (f : state -> state) : M unit := fun s => (Ok tt, f s).
Definition emit (e : event) : M unit := modify (set_trace (fun t => (t ++ [e])%list)).

(** The index of the next observation of the world. *)
Definition observe : M nat := fun s => (Ok (ticks s), set_ticks S s).

Section Embedding.

Variable w : World.

(** [str(v)] *)
Definition py_str (v : pyval) : string :=
  match v with
  | PNone => "None"
  | PStr s => s
  | PBool b => if b then "True" else "False"
  | PNum _ repr => repr
  | PList _ | PDict _ => py_repr w v
  end.

(** *** Constants *)

Definition BASE_URL : string :=
  "https://api.datalake.sante.service.ec.europa.eu/food-additives/food_additives_details".
Definition API_VERSION : string := "v1.0".
Definition TTL_DAYS : Z := 180.

Definition DEFAULT_HEADERS : gmap string string :=
  <["User-Agent" := "FoodAdditivesClient/1.0 (+your-app)"]>
  (<["Accept" := "*/*"]>
  (<["Content-Type" := "application/json"]> ∅)).

(** *** DB helpers *)

Definition datetime_utcnow : M Z := n ← observe; mret (utcnow w n).

Definition _utcnow : M string := now ← datetime_utcnow; mret (isoformat w now).

(** [datetime.utcnow() - datetime.fromisoformat(ts) > timedelta(days=days)]
    for a truthy [ts]; the clock has been read, [now] is its value. *)
Definition older_than (now : Z) (ts : pyval) (days : Z) : result bool :=
  match ts with
  | PStr s =>
      match fromisoformat w s with
      | Some (Naive t) => Ok (now - t >? timedelta_days days)
      | Some (Aware _) => Raise (Exception "TypeError")
      | None => Raise (Exception "ValueError")
      end
  | _ => Raise (Exception "TypeError")
  end.

Definition _is_expired (ts : pyval) (days : Z) : M bool :=
  if negb (truthy ts) then mret true
  else
    try_except
      (now ← datetime_utcnow; lift_result (older_than now ts days))
      (mret true).

(** [init_db] creates the table when it is missing; the table of the
    model is always there, so it does nothing. *)
Definition init_db : M unit := mret tt.

Definition text_or_empty (c : option string) : pyval := PStr (default EmptyString c).

(** [_row_to_dict] on the tuple that [fetchone] returns: [None], or the
    key and the other seven columns. *)
Definition _row_to_dict (row : option (string * db_row)) : option pydict :=
  match row with
  | None => None
  | Some (e_code, r) =>
      Some (list_to_map
        [ ("eu_e_code", PStr e_code);
          ("eu_official_name", text_or_empty (official_name_en r));
          ("eu_function", text_or_empty (function_en r));
          ("eu_official_name_en", text_or_empty (official_name_en r));
          ("eu_function_en", text_or_empty (function_en r));
          ("eu_official_name_sv", text_or_empty (name_sv r));
          ("eu_function_sv", text_or_empty (function_sv r));
          ("eu_policy_item_id", text_or_empty (policy_item_id r));
          ("eu_raw", default (PDict ∅) (payload_json r));
          ("updated_at", text_or_empty (updated_at r)) ])
  end.

Definition db_get_by_e_code (e_code_storage : string) : M (option pydict) :=
  init_db;;
  s ← get_state;
  mret (_row_to_dict (pair e_code_storage <$> eu_additives s !! e_code_storage)).

(** A Python value bound to a TEXT column: [None] is NULL, a string is
    itself, a number is stored as its text; a list or a dict cannot be
    bound. *)
Definition sql_text (v : pyval) : result (option string) :=
  match v with
  | PNone => Ok None
  | PStr s => Ok (Some s)
  | PBool b => Ok (Some (if b then "1" else "0"))
  | PNum _ repr => Ok (Some repr)
  | PList _ | PDict _ => Raise (Exception "sqlite3.ProgrammingError")
  end.

(** [INSERT ... ON CONFLICT(e_code) DO UPDATE SET] every other column:
    the row under the key is replaced whole.  A row whose key is NULL
    can never be selected by key and is not represented. *)
Definition db_upsert (eu : pydict) : M unit :=
  init_db;;
  now ← _utcnow;                 (* the default of the last [get], evaluated always *)
  e_code ← lift_result (sql_text (get_or eu "eu_e_code" (PStr EmptyString)));
  name_en ← lift_result (sql_text (get_or eu "eu_official_name_en" (PStr EmptyString)));
  func_en ← lift_result (sql_text (get_or eu "eu_function_en" (PStr EmptyString)));
  pol_id ← lift_result (sql_text (get_or eu "eu_policy_item_id" (PStr EmptyString)));
  let payload := get_or eu "eu_raw" (PDict ∅) in
  name_sv' ← lift_result (sql_text (get_or eu "eu_official_name_sv" (PStr EmptyString)));
  func_sv ← lift_result (sql_text (get_or eu "eu_function_sv" (PStr EmptyString)));
  upd ← lift_result (sql_text (get_or eu "updated_at" (PStr now)));
  emit (EvDbUpsert eu);;
  match e_code with
  | Some key =>
      modify (set_eu_additives (insert key
        {| official_name_en := name_en; function_en := func_en;
           policy_item_id := pol_id; payload_json := Some payload;
           name_sv := name_sv'; function_sv := func_sv; updated_at := upd |}))
  | None => mret tt
  end.

(** *** EU API calls (JSON first, CSV fallback) *)

(** The request that [requests.get] receives. *)
Definition build_request (format : string) (params : gmap string string)
    (timeout : Z) : request :=
  let merged := params ∪ <["format" := format]> (<["api-version" := API_VERSION]> ∅) in
  let merged :=
    if nonempty (QRY_API_KEY w)
    then <["subscription-key" := QRY_API_KEY w]> merged else merged in
  let headers :=
    if nonempty (HDR_API_KEY w)
    then <["Ocp-Apim-Subscription-Key" := HDR_API_KEY w]> DEFAULT_HEADERS
    else DEFAULT_HEADERS in
  {| req_url := BASE_URL; req_params := merged;
     req_headers := headers; req_timeout := timeout |}.

Definition http_get_format (format file : string)
    (params : gmap string string) (timeout : Z) : M response :=
  emit (EvHttpGet format params);;
  n ← observe;
  resp ← lift_result (requests_get w n (build_request format params timeout));
  k ← observe;
  lift_result (write_bytes w k file (content resp));;
  modify (set_files (insert file (content resp)));;
  mret resp.

Definition _http_get : gmap string string -> Z -> M response :=
  http_get_format "json" "food_additives_details_raw.json".

Definition _http_get_csv : gmap string string -> Z -> M response :=
  http_get_format "csv" "food_additives_details_raw.csv".

(** [[r for r in l if isinstance(r, dict)]] *)
Definition dict_elements (l : list pyval) : list pydict :=
  omap (fun v => match v with PDict d => Some d | _ => None end) l.

(** The first of the envelope keys that is present and holds a list. *)
Fixpoint first_list_under (keys : list string) (data : pydict) : option (list pyval) :=
  match keys with
  | [] => None
  | key :: rest =>
      match data !! key with
      | Some (PList l) => Some l
      | _ => first_list_under rest data
      end
  end.

Definition _extract_rows_from_json (data : pyval) : list pydict :=
  match data with
  | PNone => []
  | PList l => dict_elements l
  | PDict d =>
      match first_list_under ["value"; "items"; "data"; "results"] d with
      | Some l => dict_elements l
      | None => [d]
      end
  | _ => []
  end.

Definition _api_get_rows_json (params : gmap string string) (timeout : Z)
    : M (list pydict) :=
  try_except
    (resp ← _http_get params timeout;
     if negb (status_code resp =? 200) then mret []
     else
       data ← lift_result (json_body resp);
       mret (_extract_rows_from_json data))
    (mret []).

Definition _api_get_rows_csv (params : gmap string string) (timeout : Z)
    : M (list pydict) :=
  try_except
    (resp ← _http_get_csv params timeout;
     if negb (status_code resp =? 200) then mret []
     else lift_result (csv_DictReader w (text resp)))
    (mret []).

(** *** Row selection *)

Definition ecode_keys : list string :=
  ["additive_e_code"; "e_code"; "E_number"; "e_number"; "code"].

(** The inner loop of [_prefer_substance_match]: [str] of the first
    alias whose value is not blank, else the empty string. *)
Fixpoint first_code (keys : list string) (r : pydict) : string :=
  match keys with
  | [] => EmptyString
  | k :: rest =>
      let v := get r k in
      if not_blank v then py_str v else first_code rest r
  end.

Definition row_e_norm (r : pydict) : string :=
  normalize_e_code_storage (first_code ecode_keys r).

Definition row_type (r : pydict) : string :=
  py_str (py_or (py_or (get_or r "additive_type" (PStr EmptyString))
                       (get_or r "type" (PStr EmptyString)))
                (PStr EmptyString)).

Definition is_substance (t : string) : bool :=
  bool_decide (lower t = "substancefad").

Definition _prefer_substance_match (rows : list pydict) (e_code_norm : string)
    : option pydict :=
  let enriched := map (fun r => (r, row_e_norm r, row_type r)) rows in
  match List.find (fun '(r, e_norm, t) =>
          nonempty e_norm && bool_decide (e_norm = e_code_norm) && is_substance t)
          enriched with
  | Some (r, _, _) => Some r
  | None =>
  match List.find (fun '(r, e_norm, _) =>
          nonempty e_norm && bool_decide (e_norm = e_code_norm)) enriched with
  | Some (r, _, _) => Some r
  | None =>
  match List.find (fun '(r, _, t) => is_substance t) enriched with
  | Some (r, _, _) => Some r
  | None => head rows
  end end end.

(** [pick(d, *keys)] *)
Fixpoint pick (d : pydict) (keys : list string) : string :=
  match keys with
  | [] => EmptyString
  | k :: rest =>
      match d !! k with
      | Some v => if not_blank v then py_str v else pick d rest
      | None => pick d rest
      end
  end.

(** [bool(chosen_row)] for an optional row. *)
Definition row_truthy (r : option pydict) : bool :=
  match r with
  | Some d => dict_truthy d
  | None => false
  end.

Definition fetch_rows (params : gmap string string) (timeout : Z) : M (list pydict) :=
  rows ← _api_get_rows_json params timeout;
  match rows with
  | [] => _api_get_rows_csv params timeout
  | _ => mret rows
  end.

(** The loop over the query variants; [chosen_row] is the variable of
    that name, which keeps its last value when a variant yields no row. *)
Fixpoint try_variants (variants : list string) (timeout : Z)
    (chosen_row : option pydict) : M (option pydict) :=
  match variants with
  | [] => mret chosen_row
  | variant :: rest =>
      rows ← fetch_rows {[ "additive_e_code" := variant ]} timeout;
      match rows with
      | [] => try_variants rest timeout chosen_row
      | _ =>
          let chosen_row := _prefer_substance_match rows (normalize_e_code_storage variant) in
          if row_truthy chosen_row then mret chosen_row
          else try_variants rest timeout chosen_row
      end
  end.

Definition choose_by_name (rows : list pydict) : option pydict :=
  let subs := filter (fun r =>
      is_substance (py_str (get_or r "additive_type" (PStr EmptyString))) = true) rows in
  match subs with
  | r :: _ => Some r
  | [] => head rows
  end.

Definition option_nonempty (o : option string) : bool :=
  match o with
  | Some s => nonempty s
  | None => false
  end.

(** An optional dictionary that passes [if eu:] or [if chosen_row:]. *)
Definition if_truthy (o : option pydict) : option pydict :=
  match o with
  | Some d => if dict_truthy d then Some d else None
  | None => None
  end.

(** The dictionary that [_query_api_and_normalize] returns for the
    chosen row; [now] is the result of [_utcnow()]. *)
Definition build_record (row : pydict) (now : string) : pydict :=
  let eu_e_raw := pick row ["additive_e_code"; "e_code"; "E_number"; "e_number"; "code"] in
  let eu_name_en := pick row ["additive_name"; "name"; "Name"] in
  let eu_func_en := pick row ["functional_class"; "function"; "category"] in
  let pol_id := pick row ["policy_item_id"; "policy_id"; "id"] in
  let fip_url := pick row ["fip_url"; "url"] in
  list_to_map
    [ ("eu_e_code", PStr (normalize_e_code_storage eu_e_raw));
      ("eu_official_name_en", PStr eu_name_en);
      ("eu_function_en", PStr eu_func_en);
      ("eu_policy_item_id", PStr pol_id);
      ("eu_raw", PDict row);
      ("eu_fip_url", PStr fip_url);
      ("updated_at", PStr now) ].

Definition _query_api_and_normalize (e_code name : option string) (timeout : Z)
    : M (option pydict) :=
  chosen_row ←
    (if option_nonempty e_code then
       try_variants (normalize_e_code_query_variants (default EmptyString e_code))
                    timeout None
     else if option_nonempty name then
       rows ← fetch_rows {[ "additive_name" := default EmptyString name ]} timeout;
       match rows with
       | [] => mret None
       | _ => mret (choose_by_name rows)
       end
     else mret None);
  match if_truthy chosen_row with
  | Some row =>
      now ← _utcnow;
      mret (Some (build_record row now))
  | None => mret None
  end.

(** *** Swedish enrichment *)

Definition _get_llm : M bool :=
  if negb (nonempty (GOOGLE_API_KEY w)) then mret false
  else
    try_except
      (n ← observe; lift_result (ChatGoogleGenerativeAI w n);; mret true)
      (mret false).

(** The test of [_is_placeholder_sv] on the stripped, lower-cased text. *)
Definition placeholder_text (s : string) : bool :=
  bool_decide (s = EmptyString) || bool_decide (s = "namn")
  || bool_decide (s = "funktion")
  || contains "<" s || contains ">" s
  || contains "svensk" s || contains "svenska" s.

Definition _is_placeholder_sv (v : pyval) : result bool :=
  match strip_method (py_or v (PStr EmptyString)) with
  | Ok s => Ok (placeholder_text (lower s))
  | Raise e => Raise e
  end.

(** [(data.get(key) or '').strip()], where [data] is what the coercion
    returned: an [AttributeError] unless it is a dict and the value a
    string or falsy. *)
Definition stripped_field (data : pyval) (key : string) : result string :=
  match data with
  | PDict d => strip_method (py_or (get d key) (PStr EmptyString))
  | _ => Raise (Exception "AttributeError")
  end.

Record translation := { tr_name_sv : string; tr_function_sv : string }.

Definition no_translation : translation :=
  {| tr_name_sv := EmptyString; tr_function_sv := EmptyString |}.

Definition _translate_to_sv (name_en function_en : string) : M translation :=
  llm ← _get_llm;
  if negb llm || (negb (nonempty name_en) && negb (nonempty function_en))
  then mret no_translation
  else
    n ← observe;
    raw ← lift_result (chain_invoke w n name_en function_en);
    match parse_json_strict w raw with
    | Raise _ => mret no_translation
    | Ok data =>
        name_sv ← lift_result (stripped_field data "name_sv");
        function_sv ← lift_result (stripped_field data "function_sv");
        p_name ← lift_result (_is_placeholder_sv (PStr name_sv));
        let name_sv := if p_name : bool then EmptyString else name_sv in
        p_func ← lift_result (_is_placeholder_sv (PStr function_sv));
        let function_sv := if p_func : bool then EmptyString else function_sv in
        mret {| tr_name_sv := name_sv; tr_function_sv := function_sv |}
    end.

(** The override tables, in the order of the source. *)
Definition SWEDISH_NAME_OVERRIDES : list (string * string) :=
  [ ("E903", "Karnaubavax");
    ("E414", "Gummi arabicum (akaciagummi)");
    ("E300", "Askorbinsyra");
    ("E967", "Xylitol (björksocker)") ].

Definition FUNCTION_SV_MAP : list (string * string) :=
  [ ("Antioxidant", "Antioxidationsmedel");
    ("Glazing agent", "Ytbehandlingsmedel");
    ("Glazing agents", "Ytbehandlingsmedel");
    ("Colour", "Färgämne");
    ("Color", "Färgämne");
    ("Sweetener", "Sötningsmedel");
    ("Stabiliser", "Stabiliseringsmedel");
    ("Stabilizer", "Stabiliseringsmedel");
    ("Thickener", "Förtjockningsmedel");
    ("Emulsifier", "Emulgeringsmedel");
    ("Preservative", "Konserveringsmedel");
    ("Raising agent", "Jäsmedel");
    ("Acidity regulator", "Surhetsreglerande medel");
    ("Anti-caking agent", "Klumpförebyggande medel");
    ("Flavour enhancer", "Smakförstärkare");
    ("Flavouring", "Aromämne") ].

Definition FUNCTION_OVERRIDES_BY_ECODE_SV : list (string * string) :=
  [ ("E903", "Ytbehandlingsmedel");
    ("E967", "Sötningsmedel");
    ("E300", "Antioxidationsmedel");
    ("E414", "Stabiliserings-/Förtjockningsmedel") ].

Fixpoint assoc (k : string) (table : list (string * string)) : option string :=
  match table with
  | [] => None
  | (k', v) :: rest => if bool_decide (k = k') then Some v else assoc k rest
  end.

(** [table[ecode] if ecode in table]: a list or a dict is unhashable,
    any other value that is not a string is simply not a key. *)
Definition table_lookup (ecode : pyval) (table : list (string * string))
    : result (option string) :=
  match ecode with
  | PStr s => Ok (assoc s table)
  | PList _ | PDict _ => Raise (Exception "TypeError")
  | _ => Ok None
  end.

(** [v.lower()] *)
Definition lower_method (v : pyval) : result string :=
  match v with
  | PStr s => Ok (lower s)
  | _ => Raise (Exception "AttributeError")
  end.

(** The first entry of [FUNCTION_SV_MAP] whose lower-cased key occurs in
    the lower-cased English function. *)
Definition function_sv_of (func_en_lower : string) : option string :=
  snd <$> List.find (fun '(k, _) => contains (lower k) func_en_lower) FUNCTION_SV_MAP.

Definition empty_str : pyval := PStr EmptyString.

(** [if _is_placeholder_sv(eu.get(key, '')): eu[key] = ''] *)
Definition clear_placeholder (key : string) (eu : pydict) : result pydict :=
  p ← _is_placeholder_sv (get_or eu key empty_str);
  Ok (if p : bool then <[key := empty_str]> eu else eu).

(** [if not eu.get(key) and guard: eu[key] = candidate], for a candidate
    that may be missing; it is looked for only when the test passes. *)
Definition fill_gap (key : string) (guard : bool)
    (candidate : result (option string)) (eu : pydict) : result pydict :=
  if negb (truthy (get eu key)) && guard then
    o ← candidate;
    Ok match o with
       | Some v => <[key := PStr v]> eu
       | None => eu
       end
  else Ok eu.

(** [_sv_fallbacks] updates its argument in place; the model returns the
    updated dictionary.  One step for each [if] of the source. *)
Definition _sv_fallbacks (eu : pydict) : result pydict :=
  let ecode := get_or eu "eu_e_code" empty_str in
  let func_en := py_or (get_or eu "eu_function_en" empty_str) empty_str in
  (* name: clear a placeholder, then try the override table *)
  eu ← clear_placeholder "eu_official_name_sv" eu;
  eu ← fill_gap "eu_official_name_sv" true
         (table_lookup ecode SWEDISH_NAME_OVERRIDES) eu;
  (* function: clear a placeholder, map EN to SV, then the override by code *)
  eu ← clear_placeholder "eu_function_sv" eu;
  eu ← fill_gap "eu_function_sv" (truthy func_en)
         (l ← lower_method func_en; Ok (function_sv_of l)) eu;
  fill_gap "eu_function_sv" true
    (table_lookup ecode FUNCTION_OVERRIDES_BY_ECODE_SV) eu.

(** *** Public API *)

(** [time.sleep(0.2)] *)
Definition sleep : M unit := emit EvSleep.

(** [L1_CACHE[key] = value] *)
Definition l1_put (key : string) (value : pydict) : M unit :=
  emit (EvL1Put key value);;
  modify (set_L1_CACHE (insert key value)).

(** A field that holds a [str], read as the string; the records that
    reach this point have strings in these fields. *)
Definition str_field (eu : pydict) (k : string) : string :=
  match get_or eu k empty_str with
  | PStr s => s
  | v => py_str v
  end.

(** The block shared by the two branches of [query_eu_additive]: the
    Swedish fields, the fallbacks and the English aliases. *)
Definition add_sv_and_aliases (eu : pydict) (translate_sv : bool) : M pydict :=
  eu ← (if translate_sv then
          sv ← _translate_to_sv (str_field eu "eu_official_name_en")
                                (str_field eu "eu_function_en");
          mret (<["eu_function_sv" := PStr (tr_function_sv sv)]>
                (<["eu_official_name_sv" := PStr (tr_name_sv sv)]> eu))
        else
          mret (<["eu_function_sv" := empty_str]>
                (<["eu_official_name_sv" := empty_str]> eu)));
  eu ← lift_result (_sv_fallbacks eu);
  let eu := <["eu_official_name" := get_or eu "eu_official_name_en" empty_str]> eu in
  let eu := <["eu_function" := get_or eu "eu_function_en" empty_str]> eu in
  mret eu.

(** The last stage of the branch by code: the registry, then both
    cache tiers. *)
Definition live_by_code (e_store : string) (timeout : Z) (translate_sv : bool)
    : M (option pydict) :=
  eu ← _query_api_and_normalize (Some e_store) None timeout;
  match if_truthy eu with
  | Some eu =>
      eu ← add_sv_and_aliases eu translate_sv;
      db_upsert eu;;
      l1_put e_store eu;;
      sleep;;
      mret (Some eu)
  | None => mret None
  end.

(** [r and not _is_expired(r.get("updated_at"))] *)
Definition is_fresh (r : option pydict) : M bool :=
  match r with
  | Some d =>
      if dict_truthy d then
        expired ← _is_expired (get d "updated_at") TTL_DAYS;
        mret (negb expired)
      else mret false
  | None => mret false
  end.

Definition query_eu_additive (e_code name : option string) (timeout : Z)
    (translate_sv : bool) : M (option pydict) :=
  init_db;;
  if option_nonempty e_code then
    let e_store := normalize_e_code_storage (default EmptyString e_code) in
    (* L1 cache *)
    s ← get_state;
    let hit := L1_CACHE s !! e_store in
    fresh ← is_fresh hit;
    if fresh : bool then mret hit
    else
      (* SQLite *)
      row ← db_get_by_e_code e_store;
      fresh ← is_fresh row;
      match row with
      | Some r =>
          if fresh : bool then l1_put e_store r;; mret (Some r)
          else live_by_code e_store timeout translate_sv
      | None => live_by_code e_store timeout translate_sv
      end
  else if option_nonempty name then
    eu ← _query_api_and_normalize None name timeout;
    match if_truthy eu with
    | Some eu =>
        eu ← add_sv_and_aliases eu translate_sv;
        let e_store := py_or (get eu "eu_e_code") empty_str in
        (if truthy e_store then
           db_upsert eu;;
           match e_store with
           | PStr key => l1_put key eu
           | _ => raise (Exception "TypeError")   (* the code is a string *)
           end
         else mret tt);;
        sleep;;
        mret (Some eu)
    | None => mret None
    end
  else mret None.

(** The dictionary behind an item of the list.  Every item names an
    object; an id without one reads as an empty dictionary. *)
Definition object_dict (s : state) (it : nat) : pydict := default ∅ (objects s !! it).

(** [it[k] = v] *)
Definition set_item (it : nat) (k : string) (v : pyval) : M unit :=
  modify (fun s => set_objects (insert it (<[k := v]> (object_dict s it))) s).

(** [(it.get(k) or '').strip()] *)
Definition stripped_item_field (d : pydict) (k : string) : result string :=
  strip_method (py_or (get d k) empty_str).

(** The keys copied from the record to the item, in the order of the
    assignments. *)
Definition mirrored_keys : list string :=
  [ "eu_e_code"; "eu_official_name"; "eu_function"; "eu_policy_item_id";
    "eu_official_name_en"; "eu_function_en"; "eu_official_name_sv";
    "eu_function_sv" ].

Fixpoint copy_fields (it : nat) (eu : pydict) (keys : list string) : M unit :=
  match keys with
  | [] => mret tt
  | k :: rest => set_item it k (get_or eu k empty_str);; copy_fields it eu rest
  end.

(** The body of the loop of [enrich_items_with_eu] for one item. *)
Definition enrich_one (it : nat) (translate_sv : bool) : M unit :=
  s ← get_state;
  let d := object_dict s it in
  if eq_str (get d "source") "PDF" then mret tt
  else
    name ← lift_result (stripped_item_field d "ingredient");
    e_code ← lift_result (stripped_item_field d "e_code");
    let e_code := if nonempty e_code then e_code else extract_e_code_from_text name in
    eu ← query_eu_additive
           (if nonempty e_code then Some e_code else None)
           (if nonempty e_code then None else Some name)
           45 translate_sv;
    match if_truthy eu with
    | Some eu =>
        set_item it "eu_enriched" (PBool true);;
        set_item it "eu_source" (PStr "EU_API");;
        copy_fields it eu mirrored_keys;;
        if truthy (get eu "eu_fip_url")
        then set_item it "eu_fip_url" (get eu "eu_fip_url")
        else mret tt
    | None =>
        set_item it "eu_enriched" (PBool false);;
        set_item it "eu_source" (PStr "None")
    end.

(** The loop; [out] is the list built so far. *)
Fixpoint enrich_loop (items : list nat) (translate_sv : bool) (out : list nat)
    : M (list nat) :=
  match items with
  | [] => mret out
  | it :: rest =>
      enrich_one it translate_sv;;
      enrich_loop rest translate_sv (out ++ [it])%list
  end.

Definition enrich_items_with_eu (items : list nat) (translate_sv : bool)
    : M (list nat) :=
  enrich_loop items translate_sv [].

Fixpoint bulk_refresh_loop (codes : list string) (translate_sv : bool)
    (timeout : Z) (ok : Z) : M Z :=
  match codes with
  | [] => mret ok
  | raw :: rest =>
      let e_store := normalize_e_code_storage raw in
      (* the call does not pass [timeout] on: the default applies *)
      eu ← query_eu_additive (Some e_store) None 45 translate_sv;
      bulk_refresh_loop rest translate_sv timeout
        (if row_truthy eu then ok + 1 else ok)
  end.

Definition bulk_refresh_eu_codes (codes : list string) (translate_sv : bool)
    (timeout : Z) : M Z :=
  init_db;;
  bulk_refresh_loop codes translate_sv timeout 0.

(** *** Debug and probe helpers *)

(** The dictionary that [eu_api_probe] returns: the code asked for, one
    entry per attempt (the variant and the number of rows it gave) and
    the flag [ok]. *)
Record probe_report := {
  probe_ecode : string;
  probe_attempts : list (string * nat);
  probe_ok : bool;
}.

(** The loop of [eu_api_probe]; [attempts] is the list built so far. *)
Fixpoint probe_loop (variants : list string) (timeout : Z)
    (attempts : list (string * nat)) : M (list (string * nat) * bool) :=
  match variants with
  | [] => mret (attempts, false)
  | variant :: rest =>
      rows ← fetch_rows {[ "additive_e_code" := variant ]} timeout;
      let attempts := (attempts ++ [(variant, length rows)])%list in
      match rows with
      | [] => probe_loop rest timeout attempts
      | _ => mret (attempts, true)
      end
  end.

Definition eu_api_probe (e_code : string) (timeout : Z) : M probe_report :=
  '(attempts, ok) ← probe_loop (normalize_e_code_query_variants e_code) timeout [];
  mret {| probe_ecode := e_code; probe_attempts := attempts; probe_ok := ok |}.


End Embedding.

(** ** Grouping items for the report ([core/utils.py]) *)

Module Utils.

(** The category under which [group_by_category] files an item:
    [it.get("category") or "None"], replaced by ["None"] when it is not
    one of the groups.  A list or a dict cannot be looked up in a
    dictionary. *)
Definition category_of (groups : gmap string (list pydict)) (it : pydict)
    : result string :=
  match py_or (get it "category") (PStr "None") with
  | PStr cat => Ok (if bool_decide (is_Some (groups !! cat)) then cat else "None")
  | PList _ | PDict _ => Raise (Exception "TypeError")
  | _ => Ok "None"
  end.

(** [{cat: [] for cat in categories}] followed by [groups["None"] = []]. *)
Definition empty_groups (categories : list string) : gmap string (list pydict) :=
  <["None" := []]> (list_to_map ((fun cat => (cat, [])) <$> categories)).

(** The loop over the items. *)
Fixpoint group_loop (items : list pydict) (groups : gmap string (list pydict))
    : result (gmap string (list pydict)) :=
  match items with
  | [] => Ok groups
  | it :: rest =>
      cat ← category_of groups it;
      group_loop rest (<[cat := (default [] (groups !! cat) ++ [it])%list]> groups)
  end.

Definition group_by_category (items : list pydict) (categories : list string)
    : result (gmap string (list pydict)) :=
  group_loop items (empty_groups categories).

End Utils.

(** ** Worked examples: a registry, a clock and a few states *)

Module Examples.

Definition row_E250 : pydict :=
  list_to_map
    [ ("additive_e_code", PStr "E 250"); ("additive_name", PStr "Sodium nitrite");
      ("functional_class", PStr "Preservative"); ("additive_type", PStr "substanceFAD");
      ("policy_item_id", PNum true "1234");
      ("fip_url", PStr "https://ec.europa.eu/food/food-feed-portal/additive/E250") ].

(** A row of the registry that names a substance and carries no code. *)
Definition row_nameless : pydict :=
  list_to_map [ ("additive_name", PStr "Guar flour") ].

Definition ok_response (rows : list pydict) : response :=
  {| status_code := 200; content := "[...]";
     json_body := Ok (PList (PDict <$> rows)); text := "[...]" |}.

Definition not_found : response :=
  {| status_code := 404; content := EmptyString;
     json_body := Raise (Exception "JSONDecodeError"); text := EmptyString |}.

(** The registry answers the spelling [E 250] and the name [guar flour]. *)
Definition registry (req : request) : result response :=
  if bool_decide (req_params req !! "additive_e_code" = Some "E 250")
  then Ok (ok_response [row_E250])
  else if bool_decide (req_params req !! "additive_name" = Some "guar flour")
  then Ok (ok_response [row_nameless])
  else Ok not_found.

(** 2026-11-03T00:00:00, in microseconds. *)
Definition t0 : Z := 1793664000 * us_per_second.

(** A world with the registry up and no translation key; the clock
    gains a second at every reading. *)
Definition world_up : World :=
  {| py_repr := fun _ => "{...}";
     utcnow := fun n => t0 + Z.of_nat n * us_per_second;
     fromisoformat := fromisoformat_seconds;
     isoformat := isoformat_seconds;
     requests_get := fun _ req => registry req;
     write_bytes := fun _ _ _ => Ok tt;
     csv_DictReader := fun _ => Ok [];
     HDR_API_KEY := EmptyString;
     QRY_API_KEY := EmptyString;
     GOOGLE_API_KEY := EmptyString;
     ChatGoogleGenerativeAI := fun _ => Raise (Exception "ValueError");
     chain_invoke := fun _ _ _ => Raise (Exception "ConnectionError");
     parse_json_strict := fun _ => Raise (Exception "ValueError") |}.

(** The same world with the network down. *)
Definition world_down : World :=
  {| py_repr := py_repr world_up;
     utcnow := utcnow world_up;
     fromisoformat := fromisoformat_seconds;
     isoformat := isoformat_seconds;
     requests_get := fun _ _ => Raise (Exception "ConnectionError");
     write_bytes := fun _ _ _ => Ok tt;
     csv_DictReader := fun _ => Ok [];
     HDR_API_KEY := EmptyString;
     QRY_API_KEY := EmptyString;
     GOOGLE_API_KEY := EmptyString;
     ChatGoogleGenerativeAI := fun _ => Raise (Exception "ValueError");
     chain_invoke := fun _ _ _ => Raise (Exception "ConnectionError");
     parse_json_strict := fun _ => Raise (Exception "ValueError") |}.

Definition empty_state : state :=
  {| L1_CACHE := ∅; eu_additives := ∅; objects := ∅; files := ∅;
     ticks := 0; trace := [] |}.

(** A durable row for E250 last refreshed on 2020-01-01. *)
Definition old_row : db_row :=
  {| official_name_en := Some "Sodium nitrite"; function_en := Some "Preservative";
     policy_item_id := Some "1234"; payload_json := Some (PDict row_E250);
     name_sv := None; function_sv := Some "Konserveringsmedel";
     updated_at := Some "2020-01-01T00:00:00" |}.

Definition stale_state : state :=
  {| L1_CACHE := ∅; eu_additives := {[ "E250" := old_row ]}; objects := ∅;
     files := ∅; ticks := 0; trace := [] |}.

Definition pdf_item : pydict :=
  list_to_map [ ("ingredient", PStr "salt"); ("source", PStr "PDF");
                ("risk", PStr "low") ].

Definition other_item : pydict :=
  list_to_map [ ("ingredient", PStr "sodium nitrite (E250)");
                ("source", PStr "NotInPDF") ].

Definition item_state : state :=
  {| L1_CACHE := ∅; eu_additives := ∅;
     objects := {[ 1%nat := other_item; 2%nat := pdf_item ]};
     files := ∅; ticks := 0; trace := [] |}.

End Examples.

Import Examples.

(** ** The vocabulary of the properties *)

Section Vocabulary.

Variable w : World.

(** *** Patterns

    Regular expressions over character classes, with the usual meaning:
    [matches r s] says that the whole of [s] is in the language of [r].
    Which of several matches [re] reports is a matter of priority, not
    of language; [core_match_at] settles it for the one pattern that
    needs it. *)

Inductive regex :=
| Class (p : ascii -> bool)
| Seq (r1 r2 : regex)
| Opt (r : regex)
| Star (r : regex).

Inductive matches : regex -> string -> Prop :=
| matches_class p c : p c = true -> matches (Class p) (String c EmptyString)
| matches_seq r1 r2 s1 s2 :
    matches r1 s1 -> matches r2 s2 -> matches (Seq r1 r2) (s1 ++ s2)
| matches_opt_none r : matches (Opt r) EmptyString
| matches_opt_some r s : matches r s -> matches (Opt r) s
| matches_star_nil r : matches (Star r) EmptyString
| matches_star_cons r s1 s2 :
    matches r s1 -> matches (Star r) s2 -> matches (Star r) (s1 ++ s2).




(** *** Storage keys *)

(** The characters of a storage key: no whitespace, no hyphen, no
    lower-case letter. *)
Definition key_char (c : ascii) : bool :=
  negb (is_space c || is_hyphen c) && negb (is_lower c).


(** *** Rows *)





Definition code_is_b (wanted : string) (r : pydict) : bool :=
  nonempty (row_e_norm w r) && bool_decide (row_e_norm w r = wanted).

(** *** Staleness *)

(** What the parser makes of the timestamp; a value that is not a
    string cannot be parsed. *)
Definition parsed (ts : pyval) : option datetime :=
  match ts with
  | PStr s => fromisoformat w s
  | _ => None
  end.

(** The instant that a parsed timestamp denotes. *)
Definition instant (d : datetime) : Z :=
  match d with
  | Naive us => us
  | Aware us => us
  end.

(** The verdict of [_is_expired] as a function of the clock reading. *)
Definition expired_at (now : Z) (ts : pyval) : bool :=
  if negb (truthy ts) then true
  else match parsed ts with
       | Some (Naive t) => now - t >? timedelta_days TTL_DAYS
       | _ => true
       end.

(** The verdict of [r and not _is_expired(r.get("updated_at"))] as a
    function of the clock reading. *)
Definition fresh_at (now : Z) (r : option pydict) : bool :=
  match r with
  | Some d => dict_truthy d && negb (expired_at now (get d "updated_at"))
  | None => false
  end.

(** The record is stale at every clock reading from the [n]-th on. *)
Definition stale_from (n : nat) (r : pydict) : Prop :=
  forall m, (n <= m)%nat -> expired_at (utcnow w m) (get r "updated_at") = true.

(** *** Fetches *)

(** One fetch: the request is announced in the trace and the world is
    observed; the caches and the items are not touched. *)
Definition fetch_effect (format : string) (params : gmap string string) (s s' : state) : Prop :=
  L1_CACHE s' = L1_CACHE s /\ eu_additives s' = eu_additives s
  /\ objects s' = objects s
  /\ trace s' = (trace s ++ [EvHttpGet format params])%list
  /\ (ticks s <= ticks s')%nat.

(** The answer of the world to the request that a fetch sends. *)
Definition answer (format : string) (params : gmap string string) (timeout : Z)
    (s : state) : result response :=
  requests_get w (ticks s) (build_request w format params timeout).

(** *** Frames: what an operation leaves alone

    A frame is a preorder on states.  An operation respects a frame
    when every run of it, returning or raising, ends in a state related
    to the one it started in. *)

Class Frame (R : state -> state -> Prop) : Prop := {
  frame_refl : forall s, R s s;
  frame_trans : forall s1 s2 s3, R s1 s2 -> R s2 s3 -> R s1 s3;
}.

Definition respects (R : state -> state -> Prop) {A} (m : M A) : Prop :=
  forall s, R s (snd (m s)).

(** The caches, the items and the trace are as before; the world may
    have been observed. *)
Definition quiet (s s' : state) : Prop :=
  L1_CACHE s' = L1_CACHE s /\ eu_additives s' = eu_additives s
  /\ objects s' = objects s /\ trace s' = trace s /\ (ticks s <= ticks s')%nat.

Definition is_http (e : event) : Prop :=
  match e with EvHttpGet _ _ => True | _ => False end.

(** The caches and the items are as before; the trace has grown by
    requests to the registry and by nothing else. *)
Definition fetching (s s' : state) : Prop :=
  L1_CACHE s' = L1_CACHE s /\ eu_additives s' = eu_additives s
  /\ objects s' = objects s /\ (ticks s <= ticks s')%nat
  /\ exists evs, trace s' = (trace s ++ evs)%list /\ Forall is_http evs.

(** The item dictionaries are as before. *)
Definition same_objects (s s' : state) : Prop := objects s' = objects s.

(** Every item dictionary but the one of [it] is as before. *)
Definition same_other_objects (it : nat) (s s' : state) : Prop :=
  forall j, j <> it -> objects s' !! j = objects s !! j.

Definition pdf_sourced (d : pydict) : Prop := get d "source" = PStr "PDF".

(** The dictionary [d] of source PDF stays what it is under [it]. *)
Definition keeps_item (it : nat) (d : pydict) (s s' : state) : Prop :=
  objects s !! it = Some d -> objects s' !! it = Some d.

(** *** Records, rows and traces of a lookup *)

(** The record that [_query_api_and_normalize] builds, by its fields. *)
Definition fetched_record (code name_en func_en pol_id : string) (raw : pydict)
    (url now : string) : pydict :=
  list_to_map
    [ ("eu_e_code", PStr code); ("eu_official_name_en", PStr name_en);
      ("eu_function_en", PStr func_en); ("eu_policy_item_id", PStr pol_id);
      ("eu_raw", PDict raw); ("eu_fip_url", PStr url); ("updated_at", PStr now) ].

(** The record that a live lookup returns and caches: the fetched one
    with the two Swedish fields and the two English aliases. *)
Definition cached_record (code name_en func_en pol_id : string) (raw : pydict)
    (url now name_sv func_sv : string) : pydict :=
  list_to_map
    [ ("eu_e_code", PStr code); ("eu_official_name_en", PStr name_en);
      ("eu_function_en", PStr func_en); ("eu_policy_item_id", PStr pol_id);
      ("eu_raw", PDict raw); ("eu_fip_url", PStr url); ("updated_at", PStr now);
      ("eu_official_name_sv", PStr name_sv); ("eu_function_sv", PStr func_sv);
      ("eu_official_name", PStr name_en); ("eu_function", PStr func_en) ].

(** The row that [db_upsert] writes for such a record. *)
Definition durable_row (name_en func_en pol_id : string) (raw : pydict)
    (now name_sv' func_sv : string) : db_row :=
  {| official_name_en := Some name_en; function_en := Some func_en;
     policy_item_id := Some pol_id; payload_json := Some (PDict raw);
     name_sv := Some name_sv'; function_sv := Some func_sv;
     updated_at := Some now |}.

Definition is_http_b (e : event) : bool :=
  match e with EvHttpGet _ _ => true | _ => false end.

(** The number of requests to the registry in a trace. *)
Definition http_calls (t : list event) : nat := length (List.filter is_http_b t).

(** [eu'] is [eu] but for the two Swedish fields, which hold strings
    where they differ. *)
Definition sv_ext (eu eu' : pydict) : Prop :=
  forall k, eu' !! k = eu !! k
            \/ ((k = "eu_official_name_sv" \/ k = "eu_function_sv")
                /\ exists v, eu' !! k = Some (PStr v)).

(** The code, the cached record and the durable row that a live lookup
    derives from the chosen row [row]; [now] is the time of the fetch,
    [name_sv'] and [func_sv] are the Swedish fields. *)
Definition record_code (row : pydict) : string :=
  normalize_e_code_storage
    (pick w row ["additive_e_code"; "e_code"; "E_number"; "e_number"; "code"]).

Definition live_record (row : pydict) (now name_sv' func_sv : string) : pydict :=
  cached_record (record_code row)
    (pick w row ["additive_name"; "name"; "Name"])
    (pick w row ["functional_class"; "function"; "category"])
    (pick w row ["policy_item_id"; "policy_id"; "id"])
    row (pick w row ["fip_url"; "url"]) now name_sv' func_sv.

Definition live_row (row : pydict) (now name_sv' func_sv : string) : db_row :=
  durable_row
    (pick w row ["additive_name"; "name"; "Name"])
    (pick w row ["functional_class"; "function"; "category"])
    (pick w row ["policy_item_id"; "policy_id"; "id"])
    row now name_sv' func_sv.

(** The outcome of a live lookup that wrote both tiers, relative to the
    state it started in: the requests, then the upsert, then the mirror
    into L1 under [key], then the pause. *)
Definition written_through (s s' : state) (key : string) (eu : pydict) : Prop :=
  exists row now name_sv' func_sv fetches,
    eu = live_record row now name_sv' func_sv
    /\ Forall is_http fetches
    /\ trace s' = (trace s ++ fetches ++ [EvDbUpsert eu; EvL1Put key eu; EvSleep])%list
    /\ L1_CACHE s' = <[key := eu]> (L1_CACHE s)
    /\ eu_additives s' =
         <[record_code row := live_row row now name_sv' func_sv]> (eu_additives s)
    /\ objects s' = objects s.

(** The outcome of a live lookup that wrote neither tier. *)
Definition returned_unwritten (s s' : state) (eu : pydict) : Prop :=
  exists row now name_sv' func_sv fetches,
    eu = live_record row now name_sv' func_sv
    /\ Forall is_http fetches
    /\ trace s' = (trace s ++ fetches ++ [EvSleep])%list
    /\ L1_CACHE s' = L1_CACHE s
    /\ eu_additives s' = eu_additives s
    /\ objects s' = objects s.

End Vocabulary.

(** ** The claims that fail, as they are written, and the results of the
    worked examples *)


(** The claim that C3 makes, as it is written: stale exactly when the
    timestamp is absent, unparseable, or more than 180 days old. *)
Definition stale_iff_claim : Prop :=
  forall (w : World) (ts : pyval) (s : state),
    fst (_is_expired w ts TTL_DAYS s) = Ok true <->
      truthy ts = false
      \/ parsed w ts = None
      \/ (exists d, parsed w ts = Some d
                    /\ utcnow w (ticks s) - instant d > 180 * us_per_day).

(** The claim that C1 makes, as it is written: every lookup that asked
    the registry and returns a record has upserted it and then mirrored
    it into L1 under some key, before returning. *)
Definition write_through_claim : Prop :=
  forall (w : World) (e_code name : option string) (timeout : Z) (translate_sv : bool)
         (s s' : state) (eu : pydict),
    query_eu_additive w e_code name timeout translate_sv s = (Ok (Some eu), s') ->
    (http_calls (trace s) < http_calls (trace s'))%nat ->
    exists before key,
      trace s' = (before ++ [EvDbUpsert eu; EvL1Put key eu; EvSleep])%list
      /\ L1_CACHE s' !! key = Some eu.

(** What the lookups of the worked examples return and leave behind. *)
Definition record_E250 : pydict :=
  cached_record "E250" "Sodium nitrite" "Preservative" "1234" row_E250
    "https://ec.europa.eu/food/food-feed-portal/additive/E250"
    "2026-11-03T00:00:02" EmptyString "Konserveringsmedel".

Definition after_E250 : state :=
  {| L1_CACHE := {[ "E250" := record_E250 ]};
     eu_additives := {[ "E250" :=
       durable_row "Sodium nitrite" "Preservative" "1234" row_E250
         "2026-11-03T00:00:02" EmptyString "Konserveringsmedel" ]};
     objects := ∅;
     files := {[ "food_additives_details_raw.json" := "[...]" ]};
     ticks := 4;
     trace := [ EvHttpGet "json" {[ "additive_e_code" := "E 250" ]};
                EvDbUpsert record_E250; EvL1Put "E250" record_E250; EvSleep ] |}.

Definition record_guar : pydict :=
  cached_record EmptyString "Guar flour" EmptyString EmptyString row_nameless
    EmptyString "2026-11-03T00:00:02" EmptyString EmptyString.

Definition after_guar : state :=
  {| L1_CACHE := ∅; eu_additives := ∅; objects := ∅;
     files := {[ "food_additives_details_raw.json" := "[...]" ]};
     ticks := 3;
     trace := [ EvHttpGet "json" {[ "additive_name" := "guar flour" ]}; EvSleep ] |}.

(** ** The vocabulary of the further properties *)




(** The envelope keys under which the registry may deliver its rows. *)
Definition envelope_keys : list string := ["value"; "items"; "data"; "results"].

(** Every run of [m], returning or raising, sends at most [n] requests
    to the registry. *)
Definition within (n : nat) {A} (m : M A) : Prop :=
  forall s, (http_calls (trace (snd (m s))) <= http_calls (trace s) + n)%nat.

(** An attempt of the probe that gave no rows. *)
Definition no_rows_attempt (variant : string) : string * nat := (variant, 0%nat).

(** A Swedish text that may be shown: empty, or not a placeholder. *)
Definition clean_text (s : string) : Prop :=
  s = EmptyString \/ placeholder_text (lower (strip s)) = false.

(** The record holds such a text under [k]. *)
Definition clean_at (eu : pydict) (k : string) : Prop :=
  exists s, eu !! k = Some (PStr s) /\ clean_text s.

(** The field [k] of the record is a string, or is missing. *)
Definition text_field (eu : pydict) (k : string) : Prop :=
  exists s, get_or eu k empty_str = PStr s.

(** The field [k] has no Swedish text yet: it is missing, empty or a
    placeholder. *)
Definition gap_at (eu : pydict) (k : string) : Prop :=
  exists s, get_or eu k empty_str = PStr s
            /\ placeholder_text (lower (strip s)) = true.

(** The fields that [enrich_items_with_eu] may write into an item. *)
Definition enrichment_keys : list string :=
  ["eu_enriched"; "eu_source"; "eu_fip_url"] ++ mirrored_keys.

(** The field [key] of every item dictionary is as before. *)
Definition keeps_field (key : string) (s s' : state) : Prop :=
  forall it, object_dict s' it !! key = object_dict s it !! key.

(** The two marks that the orchestrator leaves on an item: enriched from
    the registry, or not enriched. *)
Definition marked (d : pydict) : Prop :=
  (d !! "eu_enriched" = Some (PBool true) /\ d !! "eu_source" = Some (PStr "EU_API"))
  \/ (d !! "eu_enriched" = Some (PBool false) /\ d !! "eu_source" = Some (PStr "None")).


(** [group_by_category] files the item [it] under the category [c]. *)
Definition files_under (groups : gmap string (list pydict)) (c : string) (it : pydict)
    : bool :=
  match Utils.category_of groups it with
  | Ok c' => bool_decide (c' = c)
  | Raise _ => false
  end.

(** * Properties *)

(** ** Characters and strings *)

Section StringFacts.

Ltac by_cases_on_char c :=
  destruct c as [[] [] [] [] [] [] [] []]; vm_compute; try reflexivity; try discriminate; auto.

Lemma upper_char_not_lower c : is_lower (upper_char c) = false.
Proof. by_cases_on_char c. Qed.


Lemma upper_char_space c : is_space (upper_char c) = is_space c.
Proof. by_cases_on_char c. Qed.

Lemma upper_char_hyphen c : is_hyphen (upper_char c) = is_hyphen c.
Proof. by_cases_on_char c. Qed.



Lemma all_chars_filter p s : all_chars p (filter_chars p s) = true.
Proof.
  induction s as [|c r IH]; simpl; [reflexivity|].
  destruct (p c) eqn:E; simpl; [rewrite E|]; auto.
Qed.

Lemma all_chars_filter_other p q s :
  all_chars q s = true -> all_chars q (filter_chars p s) = true.
Proof.
  induction s as [|c r IH]; simpl; [reflexivity|].
  intros [Hc Hr]%andb_prop. destruct (p c); simpl; [rewrite Hc|]; auto.
Qed.



Lemma all_chars_map p f s :
  (forall c, p (f c) = true) -> all_chars p (map_chars f s) = true.
Proof. intros H. induction s as [|c r IH]; simpl; [reflexivity|]. rewrite H; auto. Qed.













End StringFacts.

(** ** The code normaliser *)

Section NormalizerFacts.




Lemma upper_not_lower s : all_chars (fun c => negb (is_lower c)) (upper s) = true.
Proof. apply all_chars_map. intros c. rewrite upper_char_not_lower. reflexivity. Qed.

Lemma cleaned_key_chars s :
  all_chars key_char (drop_space_hyphen (upper (strip s))) = true.
Proof.
  unfold drop_space_hyphen.
  pose proof (all_chars_filter (fun c => negb (is_space c || is_hyphen c)) (upper (strip s))) as H1.
  pose proof (all_chars_filter_other (fun c => negb (is_space c || is_hyphen c))
                _ _ (upper_not_lower (strip s))) as H2.
  revert H1 H2. generalize (filter_chars (fun c => negb (is_space c || is_hyphen c)) (upper (strip s))).
  intros t. induction t as [|c r IH]; simpl; [reflexivity|].
  intros [A1 A2]%andb_prop [B1 B2]%andb_prop.
  unfold key_char at 1. rewrite A1, B1. simpl. auto.
Qed.

(** What the normaliser returns on a non-empty input, in one equation. *)
Lemma normalize_nonempty s :
  s <> EmptyString ->
  normalize_e_code_storage s =
    let t := drop_space_hyphen (upper (strip s)) in
    if starts_with_char "E" t then t else String "E" t.
Proof.
  intros Hs. unfold normalize_e_code_storage.
  destruct s; [congruence|]. simpl nonempty. simpl negb.
  cbv zeta. destruct (starts_with_char "E" _); reflexivity.
Qed.


Lemma normalize_is_key s :
  s <> EmptyString ->
  all_chars key_char (normalize_e_code_storage s) = true
  /\ starts_with_char "E" (normalize_e_code_storage s) = true.
Proof.
  intros Hs. rewrite (normalize_nonempty _ Hs). cbv zeta.
  pose proof (cleaned_key_chars s) as Hc.
  destruct (starts_with_char "E" _) eqn:E.
  - split; [exact Hc | exact E].
  - split; [simpl; rewrite Hc; reflexivity | reflexivity].
Qed.

Lemma normalize_not_empty s :
  s <> EmptyString -> normalize_e_code_storage s <> EmptyString.
Proof.
  intros Hs. destruct (normalize_is_key s Hs) as [_ H].
  destruct (normalize_e_code_storage s); [discriminate | congruence].
Qed.






(** *** The matcher and the pattern *)


Lemma app_cons (x : ascii) (a b : string) : String x a ++ b = String x (a ++ b).
Proof. reflexivity. Qed.


Lemma app_empty_r (a : string) : a ++ EmptyString = a.
Proof.
  induction a as [|x a IH]; [reflexivity|].
  rewrite app_cons. f_equal. exact IH.
Qed.

Lemma matches_class_inv p s :
  matches (Class p) s -> exists c, s = String c EmptyString /\ p c = true.
Proof. inversion 1; eauto. Qed.













Lemma matches_opt_class_inv p s :
  matches (Opt (Class p)) s ->
  s = EmptyString \/ exists c, s = String c EmptyString /\ p c = true.
Proof.
  inversion 1 as [| | | r0 s0 Hm | | ]; subst; [left; reflexivity|].
  right. apply matches_class_inv, Hm.
Qed.







(** *** The pattern does not look at the case, and stripping only
    shortens the text *)











End NormalizerFacts.

(** ** The row selector *)

Section RowSelector.

Variable w : World.



Lemma find_enriched {B} (g : pydict -> B) (f : B -> bool) (rows : list pydict) :
  List.find f (map g rows) = g <$> List.find (fun r => f (g r)) rows.
Proof.
  induction rows as [|r rows IH]; simpl; [reflexivity|].
  destruct (f (g r)); [reflexivity | exact IH].
Qed.




(** The selector as three searches over the rows themselves. *)
Lemma prefer_substance_match_unfold rows wanted :
  _prefer_substance_match w rows wanted =
    match List.find (fun r => code_is_b w wanted r && is_substance (row_type w r)) rows with
    | Some r => Some r
    | None =>
        match List.find (code_is_b w wanted) rows with
        | Some r => Some r
        | None =>
            match List.find (fun r => is_substance (row_type w r)) rows with
            | Some r => Some r
            | None => head rows
            end
        end
    end.
Proof.
  unfold _prefer_substance_match. cbv zeta.
  rewrite !find_enriched. unfold code_is_b.
  destruct (List.find _ rows); [reflexivity|]. simpl.
  destruct (List.find _ rows); [reflexivity|]. simpl.
  destruct (List.find _ rows); reflexivity.
Qed.


End RowSelector.

(** ** The staleness predicate *)

Section Staleness.

Variable w : World.

Lemma is_expired_run ts s :
  exists s', _is_expired w ts TTL_DAYS s = (Ok (expired_at w (utcnow w (ticks s)) ts), s')
             /\ L1_CACHE s' = L1_CACHE s /\ eu_additives s' = eu_additives s
             /\ objects s' = objects s /\ trace s' = trace s
             /\ (ticks s <= ticks s')%nat.
Proof.
  unfold _is_expired, expired_at.
  destruct (truthy ts) eqn:T; simpl.
  - unfold try_except, datetime_utcnow, observe, mbind, M_bind, mret, M_ret, lift_result.
    simpl. unfold older_than, parsed.
    destruct ts; simpl; try (eexists; split; [reflexivity|simpl; repeat split; lia]).
    destruct (fromisoformat w s0) as [[t|t]|];
      eexists; (split; [reflexivity|simpl; repeat split; lia]).
  - exists s. repeat split; reflexivity || lia.
Qed.

(** C3, amended.  [_is_expired] always answers, and it answers stale
    exactly when the timestamp is absent (None or empty), cannot be
    parsed, is parsed with a UTC offset, or lies more than 180 days
    before the clock reading.  In particular a parsed timestamp without
    offset that is 180 days and one second old is stale, and one that is
    179 days old is fresh. *)
Theorem is_expired_exactly (ts : pyval) (s : state) :
  let now := utcnow w (ticks s) in
  exists b,
    fst (_is_expired w ts TTL_DAYS s) = Ok b
    /\ (b = true <->
          truthy ts = false
          \/ parsed w ts = None
          \/ (exists t, parsed w ts = Some (Aware t))
          \/ (exists t, parsed w ts = Some (Naive t) /\ now - t > 180 * us_per_day))
    /\ (forall t, truthy ts = true -> parsed w ts = Some (Naive t) ->
                  now - t = 180 * us_per_day + us_per_second -> b = true)
    /\ (forall t, truthy ts = true -> parsed w ts = Some (Naive t) ->
                  now - t = 179 * us_per_day -> b = false).
Proof.
  intros now. destruct (is_expired_run ts s) as (s' & Hrun & _).
  exists (expired_at w now ts). rewrite Hrun. split; [reflexivity|].
  unfold expired_at, timedelta_days, TTL_DAYS.
  split; [|split].
  - destruct (truthy ts) eqn:T; simpl.
    + destruct (parsed w ts) as [[t|t]|] eqn:P.
      * rewrite Z.gtb_gt. split.
        -- intros H. right; right; right. exists t. split; [reflexivity|lia].
        -- intros [H|[H|[[t' H]|[t' [H1 H2]]]]]; try discriminate.
           inversion H1; subst. lia.
      * split; [|reflexivity]. intros _. right; right; left. eauto.
      * split; [|reflexivity]. intros _. right; left. reflexivity.
    + split; [|reflexivity]. intros _. left. reflexivity.
  - intros t T P Hage. rewrite T, P. simpl. apply Z.gtb_gt.
    rewrite Hage. unfold us_per_day, us_per_second. lia.
  - intros t T P Hage. rewrite T, P. simpl.
    destruct (Z.gtb_spec (now - t) (180 * us_per_day)) as [H|H]; [|reflexivity].
    rewrite Hage in H. unfold us_per_day, us_per_second in H. lia.
Qed.

End Staleness.

(** C3, counterexample.  On 2026-11-03 a timestamp of the day before
    that carries the offset +00:00 is present, is parsed, is one day old,
    and is reported stale: the subtraction of an aware value from the
    naive clock reading fails and the handler answers stale. *)
Lemma stale_iff_counterexample :
  let ts := PStr "2026-11-02T00:00:00+00:00" in
  ~ stale_iff_claim
  /\ fst (_is_expired world_up ts TTL_DAYS empty_state) = Ok true
  /\ truthy ts = true
  /\ parsed world_up ts = Some (Aware (t0 - us_per_day))
  /\ utcnow world_up (ticks empty_state) - (t0 - us_per_day) = us_per_day.
Proof.
  intros ts.
  assert (R : fst (_is_expired world_up ts TTL_DAYS empty_state) = Ok true)
    by (vm_compute; reflexivity).
  assert (P : parsed world_up ts = Some (Aware (t0 - us_per_day)))
    by (vm_compute; reflexivity).
  split; [|repeat split; assumption || reflexivity].
  intros H. apply (H world_up ts empty_state) in R.
  destruct R as [R|[R|[d [R1 R2]]]].
  - discriminate R.
  - rewrite P in R. discriminate R.
  - rewrite P in R1. inversion R1; subst d. vm_compute in R2. discriminate R2.
Qed.

(** A timestamp written by [_utcnow] 180 days and a second before the
    first clock reading of [world_up], and one written 179 days before. *)
Lemma is_expired_exactly_witness :
  fst (_is_expired world_up (PStr "2026-05-06T23:59:59") TTL_DAYS empty_state) = Ok true
  /\ fst (_is_expired world_up (PStr "2026-05-08T00:00:00") TTL_DAYS empty_state) = Ok false.
Proof.
  split.
  - destruct (is_expired_exactly world_up (PStr "2026-05-06T23:59:59") empty_state)
      as (b & Hb & _ & Hold & _).
    rewrite Hb. f_equal.
    apply (Hold (t0 - 180 * us_per_day - us_per_second)); vm_compute; reflexivity.
  - destruct (is_expired_exactly world_up (PStr "2026-05-08T00:00:00") empty_state)
      as (b & Hb & _ & _ & Hyoung).
    rewrite Hb. f_equal.
    apply (Hyoung (t0 - 179 * us_per_day)); vm_compute; reflexivity.
Defined.

(** ** The registry client *)

Section RegistryClient.

Variable w : World.

Lemma http_get_format_run format file params timeout s :
  exists r s', http_get_format w format file params timeout s = (r, s')
    /\ fetch_effect format params s s'
    /\ match requests_get w (ticks s) (build_request w format params timeout) with
       | Raise e => r = Raise e
       | Ok resp => r = Ok resp \/ exists e, r = Raise e
       end.
Proof.
  unfold http_get_format, emit, modify, observe, lift_result, mbind, M_bind, mret, M_ret,
    fetch_effect.
  simpl.
  destruct (requests_get w (ticks s) _) as [resp|e]; simpl.
  - destruct (write_bytes w _ _ _) as [[]|e]; simpl;
      eexists; eexists; (split; [reflexivity|]); simpl;
      (split; [repeat split; lia|]); eauto.
  - eexists; eexists; (split; [reflexivity|]); simpl.
    split; [repeat split; lia|reflexivity].
Qed.

Lemma api_get_rows_json_run params timeout s :
  exists rows s', _api_get_rows_json w params timeout s = (Ok rows, s')
    /\ fetch_effect "json" params s s'
    /\ match requests_get w (ticks s) (build_request w "json" params timeout) with
       | Raise _ => rows = []
       | Ok resp =>
           rows = [] \/
           (status_code resp = 200 /\
            exists data, json_body resp = Ok data /\ rows = _extract_rows_from_json data)
       end.
Proof.
  unfold _api_get_rows_json, _http_get, try_except.
  destruct (http_get_format_run "json" "food_additives_details_raw.json" params timeout s)
    as (r & s1 & Hrun & Heff & Hr).
  unfold mbind at 1. unfold M_bind. rewrite Hrun.
  destruct (requests_get w (ticks s) _) as [resp|e].
  - destruct Hr as [->|[e ->]].
    + destruct (Z.eqb_spec (status_code resp) 200) as [E|E]; simpl.
      * unfold lift_result, mbind, M_bind, mret, M_ret.
        destruct (json_body resp) as [data|e] eqn:J;
          eexists; eexists; (split; [reflexivity|]); (split; [exact Heff|]); eauto.
      * eexists; eexists. split; [reflexivity|]. split; [exact Heff|]. left; reflexivity.
    + eexists; eexists. split; [reflexivity|]. split; [exact Heff|]. left; reflexivity.
  - subst r. eexists; eexists. split; [reflexivity|]. split; [exact Heff|]. reflexivity.
Qed.

Lemma api_get_rows_csv_run params timeout s :
  exists rows s', _api_get_rows_csv w params timeout s = (Ok rows, s')
    /\ fetch_effect "csv" params s s'
    /\ match requests_get w (ticks s) (build_request w "csv" params timeout) with
       | Raise _ => rows = []
       | Ok resp =>
           rows = [] \/
           (status_code resp = 200 /\ csv_DictReader w (text resp) = Ok rows)
       end.
Proof.
  unfold _api_get_rows_csv, _http_get_csv, try_except.
  destruct (http_get_format_run "csv" "food_additives_details_raw.csv" params timeout s)
    as (r & s1 & Hrun & Heff & Hr).
  unfold mbind at 1. unfold M_bind. rewrite Hrun.
  destruct (requests_get w (ticks s) _) as [resp|e].
  - destruct Hr as [->|[e ->]].
    + destruct (Z.eqb_spec (status_code resp) 200) as [E|E]; simpl.
      * unfold lift_result.
        destruct (csv_DictReader w (text resp)) as [rows|e] eqn:J;
          eexists; eexists; (split; [reflexivity|]); (split; [exact Heff|]); eauto.
      * eexists; eexists. split; [reflexivity|]. split; [exact Heff|]. left; reflexivity.
    + eexists; eexists. split; [reflexivity|]. split; [exact Heff|]. left; reflexivity.
  - subst r. eexists; eexists. split; [reflexivity|]. split; [exact Heff|]. reflexivity.
Qed.

(** C6. Whatever the parameters, the world and the state, the JSON
    fetch and the CSV fetch return a row sequence, never an exception;
    the sequence is empty when the transport fails, when the status is
    not 200, and when the body cannot be decoded. *)
Theorem api_get_rows_never_raise (params : gmap string string) (timeout : Z) (s : state) :
  (exists rows, fst (_api_get_rows_json w params timeout s) = Ok rows
     /\ (forall e, answer w "json" params timeout s = Raise e -> rows = [])
     /\ (forall resp, answer w "json" params timeout s = Ok resp ->
                      status_code resp <> 200 -> rows = [])
     /\ (forall resp e, answer w "json" params timeout s = Ok resp ->
                        json_body resp = Raise e -> rows = []))
  /\ (exists rows, fst (_api_get_rows_csv w params timeout s) = Ok rows
     /\ (forall e, answer w "csv" params timeout s = Raise e -> rows = [])
     /\ (forall resp, answer w "csv" params timeout s = Ok resp ->
                      status_code resp <> 200 -> rows = [])
     /\ (forall resp e, answer w "csv" params timeout s = Ok resp ->
                        csv_DictReader w (text resp) = Raise e -> rows = [])).
Proof.
  unfold answer. split.
  - destruct (api_get_rows_json_run params timeout s) as (rows & s' & Hrun & _ & H).
    exists rows. rewrite Hrun. split; [reflexivity|].
    destruct (requests_get w (ticks s) _) as [resp|e].
    + split; [discriminate|]. split.
      * intros resp' [= <-] Hst. destruct H as [H|[H _]]; [exact H|contradiction].
      * intros resp' e [= <-] Hj.
        destruct H as [H|[_ (data & Hd & _)]]; [exact H|congruence].
    + split; [intros; exact H|]. split; discriminate.
  - destruct (api_get_rows_csv_run params timeout s) as (rows & s' & Hrun & _ & H).
    exists rows. rewrite Hrun. split; [reflexivity|].
    destruct (requests_get w (ticks s) _) as [resp|e].
    + split; [discriminate|]. split.
      * intros resp' [= <-] Hst. destruct H as [H|[H _]]; [exact H|contradiction].
      * intros resp' e [= <-] Hj.
        destruct H as [H|[_ Hd]]; [exact H|congruence].
    + split; [intros; exact H|]. split; discriminate.
Qed.

End RegistryClient.

(** ** Frames and their rules *)

#[global] Instance quiet_frame : Frame quiet.
Proof.
  split.
  - intros s. unfold quiet. repeat split; reflexivity || lia.
  - intros s1 s2 s3 (A1 & A2 & A3 & A4 & A5) (B1 & B2 & B3 & B4 & B5).
    unfold quiet. repeat split; try congruence; lia.
Qed.

#[global] Instance fetching_frame : Frame fetching.
Proof.
  split.
  - intros s. unfold fetching. repeat split; try reflexivity; try lia.
    exists []. rewrite app_nil_r. split; [reflexivity|constructor].
  - intros s1 s2 s3 (A1 & A2 & A3 & A4 & e1 & A5 & A6) (B1 & B2 & B3 & B4 & e2 & B5 & B6).
    unfold fetching. repeat split; try congruence; try lia.
    exists (e1 ++ e2)%list. split.
    + rewrite B5, A5, app_assoc. reflexivity.
    + apply Forall_app. split; assumption.
Qed.

#[global] Instance same_objects_frame : Frame same_objects.
Proof. split; unfold same_objects; congruence. Qed.

Lemma quiet_fetching s s' : quiet s s' -> fetching s s'.
Proof.
  intros (A1 & A2 & A3 & A4 & A5). unfold fetching. repeat split; try assumption.
  exists []. rewrite app_nil_r. split; [assumption|constructor].
Qed.

Lemma fetching_same_objects s s' : fetching s s' -> same_objects s s'.
Proof. intros (_ & _ & H & _). exact H. Qed.

Lemma quiet_same_objects s s' : quiet s s' -> same_objects s s'.
Proof. intros (_ & _ & H & _). exact H. Qed.

Section FrameRules.

Context (R : state -> state -> Prop) `{!Frame R}.

Lemma respects_ret {A} (a : A) : respects R (mret a).
Proof. intros s. apply frame_refl. Qed.

Lemma respects_raise {A} e : respects R (@raise A e).
Proof. intros s. apply frame_refl. Qed.

Lemma respects_lift {A} (r : result A) : respects R (lift_result r).
Proof. intros s. apply frame_refl. Qed.

Lemma respects_get_state : respects R get_state.
Proof. intros s. apply frame_refl. Qed.

Lemma respects_bind {A B} (m : M A) (f : A -> M B) :
  respects R m -> (forall a, respects R (f a)) -> respects R (m ≫= f).
Proof.
  intros Hm Hf s. unfold mbind, M_bind. specialize (Hm s).
  destruct (m s) as [[a|e] s1]; simpl in *.
  - eapply frame_trans; [exact Hm | apply Hf].
  - exact Hm.
Qed.

Lemma respects_try {A} (body handler : M A) :
  respects R body -> respects R handler -> respects R (try_except body handler).
Proof.
  intros Hb Hh s. unfold try_except. specialize (Hb s).
  destruct (body s) as [[a|e] s1]; simpl in *.
  - exact Hb.
  - eapply frame_trans; [exact Hb | apply Hh].
Qed.

Lemma respects_modify (f : state -> state) :
  (forall s, R s (f s)) -> respects R (modify f).
Proof. intros H s. apply H. Qed.

Lemma respects_observe : (forall s, R s (set_ticks S s)) -> respects R observe.
Proof. intros H s. apply H. Qed.

Lemma respects_weaken (R' : state -> state -> Prop) {A} (m : M A) :
  (forall s s', R' s s' -> R s s') -> respects R' m -> respects R m.
Proof. intros H Hm s. apply H, Hm. Qed.

End FrameRules.

(** A run, read as a pair. *)
Lemma run_eta {A} (m : M A) s : m s = (fst (m s), snd (m s)).
Proof. destruct (m s); reflexivity. Qed.

Lemma respects_run {A} R (m : M A) s r s' :
  respects R m -> m s = (r, s') -> R s s'.
Proof. intros H E. specialize (H s). rewrite E in H. exact H. Qed.

(** A bind that returns has run both of its parts. *)
Lemma bind_ok_inv {A B} (m : M A) (f : A -> M B) s b s' :
  (m ≫= f) s = (Ok b, s') ->
  exists a s1, m s = (Ok a, s1) /\ f a s1 = (Ok b, s').
Proof.
  unfold mbind, M_bind. destruct (m s) as [[a|e] s1]; [eauto|discriminate].
Qed.

Lemma bind_run {A B} (m : M A) (f : A -> M B) s a s1 :
  m s = (Ok a, s1) -> (m ≫= f) s = f a s1.
Proof. unfold mbind, M_bind. intros ->. reflexivity. Qed.

Create HintDb frames.

Ltac frame_prim :=
  intros ?;
  first
    [ solve [unfold quiet; simpl; repeat split; lia]
    | solve [apply quiet_fetching; unfold quiet; simpl; repeat split; lia]
    | solve [unfold same_objects; reflexivity]
    | solve [unfold fetching; simpl; repeat split; try lia;
             eexists [_]; split; [reflexivity | repeat constructor]] ].

Ltac frame :=
  repeat first
    [ match goal with |- Frame _ => exact _ end
    | apply respects_ret
    | apply respects_raise
    | apply respects_lift
    | apply respects_get_state
    | solve [auto with frames]
    | solve [eapply respects_weaken; [apply quiet_fetching|]; auto with frames]
    | solve [eapply respects_weaken; [apply fetching_same_objects|]; auto with frames]
    | solve [eapply respects_weaken; [apply quiet_same_objects|]; auto with frames]
    | apply respects_bind; [.. | intros ?]
    | apply respects_try
    | apply respects_observe; frame_prim
    | apply respects_modify; frame_prim
    | match goal with
      | |- respects _ (if ?b then _ else _) => destruct b
      | |- respects _ (match ?x with _ => _ end) => destruct x
      end ].

Section OperationFrames.

Variable w : World.

Lemma datetime_utcnow_quiet : respects quiet (datetime_utcnow w).
Proof. unfold datetime_utcnow. frame. Qed.
Hint Resolve datetime_utcnow_quiet : frames.

Lemma utcnow_quiet : respects quiet (_utcnow w).
Proof. unfold _utcnow. frame. Qed.
Hint Resolve utcnow_quiet : frames.

Lemma is_expired_quiet ts days : respects quiet (_is_expired w ts days).
Proof. unfold _is_expired. frame. Qed.
Hint Resolve is_expired_quiet : frames.

Lemma is_fresh_quiet r : respects quiet (is_fresh w r).
Proof. unfold is_fresh. frame. Qed.
Hint Resolve is_fresh_quiet : frames.

Lemma db_get_quiet k : respects quiet (db_get_by_e_code k).
Proof. unfold db_get_by_e_code, init_db. frame. Qed.
Hint Resolve db_get_quiet : frames.

Lemma get_llm_quiet : respects quiet (_get_llm w).
Proof. unfold _get_llm. frame. Qed.
Hint Resolve get_llm_quiet : frames.

Lemma translate_quiet name_en function_en :
  respects quiet (_translate_to_sv w name_en function_en).
Proof. unfold _translate_to_sv. frame. Qed.
Hint Resolve translate_quiet : frames.

Lemma add_sv_quiet eu translate_sv : respects quiet (add_sv_and_aliases w eu translate_sv).
Proof. unfold add_sv_and_aliases. frame. Qed.
Hint Resolve add_sv_quiet : frames.

Lemma http_get_fetching format file params timeout :
  respects fetching (http_get_format w format file params timeout).
Proof. unfold http_get_format, emit. frame. Qed.
Hint Resolve http_get_fetching : frames.

Lemma api_json_fetching params timeout : respects fetching (_api_get_rows_json w params timeout).
Proof. unfold _api_get_rows_json, _http_get. frame. Qed.
Hint Resolve api_json_fetching : frames.

Lemma api_csv_fetching params timeout : respects fetching (_api_get_rows_csv w params timeout).
Proof. unfold _api_get_rows_csv, _http_get_csv. frame. Qed.
Hint Resolve api_csv_fetching : frames.

Lemma fetch_rows_fetching params timeout : respects fetching (fetch_rows w params timeout).
Proof. unfold fetch_rows. frame. Qed.
Hint Resolve fetch_rows_fetching : frames.

Lemma try_variants_fetching variants timeout chosen :
  respects fetching (try_variants w variants timeout chosen).
Proof.
  revert chosen. induction variants as [|v rest IH]; intros chosen; simpl.
  - frame.
  - apply respects_bind; [exact _ | frame |]. intros rows.
    destruct rows; [apply IH|]. destruct (row_truthy _); [frame | apply IH].
Qed.
Hint Resolve try_variants_fetching : frames.

Lemma query_api_fetching e_code name timeout :
  respects fetching (_query_api_and_normalize w e_code name timeout).
Proof. unfold _query_api_and_normalize. frame. Qed.
Hint Resolve query_api_fetching : frames.

Lemma db_upsert_same_objects eu : respects same_objects (db_upsert w eu).
Proof. unfold db_upsert, init_db, emit. frame. Qed.
Hint Resolve db_upsert_same_objects : frames.

Lemma l1_put_same_objects k v : respects same_objects (l1_put k v).
Proof. unfold l1_put, emit. frame. Qed.
Hint Resolve l1_put_same_objects : frames.

Lemma sleep_same_objects : respects same_objects sleep.
Proof. unfold sleep, emit. frame. Qed.
Hint Resolve sleep_same_objects : frames.

Lemma live_by_code_same_objects k timeout translate_sv :
  respects same_objects (live_by_code w k timeout translate_sv).
Proof. unfold live_by_code. frame. Qed.
Hint Resolve live_by_code_same_objects : frames.

(** A lookup never touches an item dictionary. *)
Lemma query_same_objects e_code name timeout translate_sv :
  respects same_objects (query_eu_additive w e_code name timeout translate_sv).
Proof. unfold query_eu_additive, init_db. frame. Qed.

End OperationFrames.

(** ** The enrichment orchestrator *)

Section Orchestrator.

Variable w : World.

#[local] Instance same_other_objects_frame it : Frame (same_other_objects it).
Proof.
  split; unfold same_other_objects.
  - reflexivity.
  - intros s1 s2 s3 H1 H2 j Hj. rewrite (H2 j Hj). apply H1, Hj.
Qed.

Lemma same_objects_other it s s' : same_objects s s' -> same_other_objects it s s'.
Proof. unfold same_objects, same_other_objects. intros -> j _. reflexivity. Qed.

Lemma set_item_other it k v : respects (same_other_objects it) (set_item it k v).
Proof.
  intros s j Hj. unfold set_item, modify. simpl.
  rewrite lookup_insert_ne; [reflexivity | congruence].
Qed.

Lemma copy_fields_other it eu keys : respects (same_other_objects it) (copy_fields it eu keys).
Proof.
  induction keys as [|k rest IH]; simpl.
  - apply respects_ret; exact _.
  - apply respects_bind; [exact _ | apply set_item_other | intros _; exact IH].
Qed.

Lemma enrich_one_other it translate_sv :
  respects (same_other_objects it) (enrich_one w it translate_sv).
Proof.
  unfold enrich_one.
  apply respects_bind; [exact _ | apply respects_get_state; exact _ |]. intros s0.
  destruct (eq_str _ _); [apply respects_ret; exact _|].
  apply respects_bind; [exact _ | apply respects_lift; exact _ |]. intros name.
  apply respects_bind; [exact _ | apply respects_lift; exact _ |]. intros e_code.
  apply respects_bind; [exact _ | |].
  - eapply respects_weaken; [apply same_objects_other | apply query_same_objects].
  - intros eu. destruct (if_truthy eu).
    + repeat (apply respects_bind; [exact _ | first [apply set_item_other | apply copy_fields_other] | intros _]).
      destruct (truthy _); [apply set_item_other | apply respects_ret; exact _].
    + apply respects_bind; [exact _ | apply set_item_other | intros _; apply set_item_other].
Qed.

(** An item of source PDF is skipped by the loop body. *)
Lemma enrich_one_pdf it translate_sv s d :
  objects s !! it = Some d -> pdf_sourced d ->
  enrich_one w it translate_sv s = (Ok tt, s).
Proof.
  intros Hd Hp. unfold enrich_one, mbind, M_bind, get_state, object_dict.
  rewrite Hd. simpl. rewrite Hp. reflexivity.
Qed.

#[local] Instance keeps_item_frame it d : Frame (keeps_item it d).
Proof. split; unfold keeps_item; auto. Qed.

Lemma enrich_one_keeps it d it' translate_sv :
  pdf_sourced d -> respects (keeps_item it d) (enrich_one w it' translate_sv).
Proof.
  intros Hp s Hd. destruct (decide (it' = it)) as [->|Hne].
  - rewrite (enrich_one_pdf it translate_sv s d Hd Hp). exact Hd.
  - rewrite (enrich_one_other it' translate_sv s it); [exact Hd | congruence].
Qed.

Lemma enrich_loop_keeps it d items translate_sv out :
  pdf_sourced d -> respects (keeps_item it d) (enrich_loop w items translate_sv out).
Proof.
  intros Hp. revert out. induction items as [|x rest IH]; intros out; simpl.
  - apply respects_ret; exact _.
  - apply respects_bind; [exact _ | apply enrich_one_keeps, Hp | intros _; apply IH].
Qed.

Lemma enrich_loop_returns items translate_sv out s r s' :
  enrich_loop w items translate_sv out s = (Ok r, s') -> r = (out ++ items)%list.
Proof.
  revert out s. induction items as [|x rest IH]; intros out s; simpl.
  - intros [= <- <-]. rewrite app_nil_r. reflexivity.
  - intros H. apply bind_ok_inv in H as ([] & s1 & _ & H).
    apply IH in H. rewrite H, <- app_assoc. reflexivity.
Qed.

Lemma enrich_loop_all_pdf items translate_sv out s :
  Forall (fun x => exists d, objects s !! x = Some d /\ pdf_sourced d) items ->
  enrich_loop w items translate_sv out s = (Ok (out ++ items)%list, s).
Proof.
  intros H. revert out. induction H as [|x rest (d & Hd & Hp) _ IH]; intros out; simpl.
  - rewrite app_nil_r. reflexivity.
  - rewrite (bind_run _ _ _ _ _ (enrich_one_pdf x translate_sv s d Hd Hp)).
    rewrite IH, <- app_assoc. reflexivity.
Qed.

(** C7. An item whose source is PDF comes out of [enrich_items_with_eu]
    as it went in: whatever else the list holds (the same object twice
    included) and however the run ends, its dictionary is equal to the
    one before, field for field; a run that returns returns the items it
    was given, in their order; and a list of PDF items alone always
    returns, with nothing changed at all. *)
Theorem enrich_items_pdf_unchanged (items : list nat) (translate_sv : bool)
    (s : state) (it : nat) (d : pydict) :
  In it items ->
  objects s !! it = Some d ->
  get d "source" = PStr "PDF" ->
  let run := enrich_items_with_eu w items translate_sv s in
  objects (snd run) !! it = Some d
  /\ (forall out, fst run = Ok out -> out = items)
  /\ (Forall (fun x => exists d', objects s !! x = Some d' /\ pdf_sourced d') items ->
      run = (Ok items, s)).
Proof.
  intros _ Hd Hp run. subst run. unfold enrich_items_with_eu.
  split; [|split].
  - apply (enrich_loop_keeps it d items translate_sv [] Hp s Hd).
  - intros out Hout.
    destruct (enrich_loop w items translate_sv [] s) as [r s'] eqn:E.
    simpl in Hout. subst r. apply enrich_loop_returns in E. exact E.
  - intros Hall. apply (enrich_loop_all_pdf items translate_sv [] s Hall).
Qed.

End Orchestrator.

(** The PDF item between two occurrences of an item that the registry
    knows: the run returns the three items and the PDF item is as it was,
    while the other one has gained its enrichment fields. *)
Lemma enrich_items_pdf_unchanged_witness :
  let run := enrich_items_with_eu world_up [1; 2; 1]%nat true item_state in
  objects (snd run) !! 2%nat = Some pdf_item
  /\ fst run = Ok [1; 2; 1]%nat
  /\ objects (snd run) !! 1%nat ≫= (fun d => d !! "eu_e_code") = Some (PStr "E250").
Proof.
  intros run.
  destruct (enrich_items_pdf_unchanged world_up [1; 2; 1]%nat true item_state 2%nat pdf_item)
    as (H1 & _ & _).
  - right; left; reflexivity.
  - reflexivity.
  - reflexivity.
  - split; [exact H1|]. split; vm_compute; reflexivity.
Defined.

(** ** The lookup pipeline *)

Section SwedishFallbacks.

Variable w : World.

Lemma sv_ext_refl eu : sv_ext eu eu.
Proof. intros k. left. reflexivity. Qed.

Lemma sv_ext_trans eu1 eu2 eu3 : sv_ext eu1 eu2 -> sv_ext eu2 eu3 -> sv_ext eu1 eu3.
Proof.
  intros H1 H2 k. destruct (H2 k) as [E2|R2]; [|right; exact R2].
  destruct (H1 k) as [E1|[K [v E1]]].
  - left. congruence.
  - right. split; [exact K|]. exists v. congruence.
Qed.

Lemma sv_ext_insert key v eu :
  key = "eu_official_name_sv" \/ key = "eu_function_sv" ->
  sv_ext eu (<[key := PStr v]> eu).
Proof.
  intros K k. destruct (decide (key = k)) as [<-|Hne].
  - right. split; [exact K|]. exists v. apply lookup_insert_eq.
  - left. apply lookup_insert_ne, Hne.
Qed.

Lemma result_bind_ok {A B} (r : result A) (f : A -> result B) b :
  r ≫= f = Ok b -> exists a, r = Ok a /\ f a = Ok b.
Proof. destruct r as [a|e]; [eauto|discriminate]. Qed.

Lemma clear_placeholder_ext key eu eu' :
  key = "eu_official_name_sv" \/ key = "eu_function_sv" ->
  clear_placeholder key eu = Ok eu' -> sv_ext eu eu'.
Proof.
  intros K H. unfold clear_placeholder in H.
  apply result_bind_ok in H as (p & _ & [= <-]).
  destruct p; [apply sv_ext_insert, K | apply sv_ext_refl].
Qed.

Lemma fill_gap_ext key guard candidate eu eu' :
  key = "eu_official_name_sv" \/ key = "eu_function_sv" ->
  fill_gap key guard candidate eu = Ok eu' -> sv_ext eu eu'.
Proof.
  intros K H. unfold fill_gap in H.
  destruct (negb (truthy (get eu key)) && guard).
  - apply result_bind_ok in H as ([v|] & _ & [= <-]);
      [apply sv_ext_insert, K | apply sv_ext_refl].
  - injection H as <-. apply sv_ext_refl.
Qed.

Lemma sv_fallbacks_ext eu eu' : _sv_fallbacks eu = Ok eu' -> sv_ext eu eu'.
Proof.
  unfold _sv_fallbacks. cbv zeta. intros H.
  apply result_bind_ok in H as (eu1 & H1 & H).
  apply result_bind_ok in H as (eu2 & H2 & H).
  apply result_bind_ok in H as (eu3 & H3 & H).
  apply result_bind_ok in H as (eu4 & H4 & H5).
  apply clear_placeholder_ext in H1; [|auto].
  apply fill_gap_ext in H2; [|auto].
  apply clear_placeholder_ext in H3; [|auto].
  apply fill_gap_ext in H4; [|auto].
  apply fill_gap_ext in H5; [|auto].
  eauto using sv_ext_trans.
Qed.

(** From the fetched record to the cached one. *)
Lemma add_sv_and_aliases_shape code name_en func_en pol_id raw url now translate_sv s eu s' :
  add_sv_and_aliases w (fetched_record code name_en func_en pol_id raw url now)
    translate_sv s = (Ok eu, s') ->
  exists name_sv func_sv,
    eu = cached_record code name_en func_en pol_id raw url now name_sv func_sv.
Proof.
  unfold add_sv_and_aliases. intros H.
  apply bind_ok_inv in H as (eu1 & s1 & H1 & H).
  apply bind_ok_inv in H as (eu2 & s2 & H2 & H).
  unfold mret, M_ret in H. injection H as <- _.
  unfold lift_result in H2. injection H2 as H2 _.
  apply sv_fallbacks_ext in H2.
  assert (exists a0 b0, eu1 = <["eu_function_sv" := PStr b0]>
            (<["eu_official_name_sv" := PStr a0]>
               (fetched_record code name_en func_en pol_id raw url now))) as (a0 & b0 & ->).
  { destruct translate_sv.
    - apply bind_ok_inv in H1 as (sv & s0 & _ & H1).
      unfold mret, M_ret in H1. injection H1 as <- _. eauto.
    - unfold mret, M_ret in H1. injection H1 as <- _. unfold empty_str. eauto. }
  set (base := fetched_record code name_en func_en pol_id raw url now) in *.
  set (eu1 := <["eu_function_sv" := PStr b0]> (<["eu_official_name_sv" := PStr a0]> base)) in *.
  assert (exists a, eu2 !! "eu_official_name_sv" = Some (PStr a)) as [a Ha].
  { destruct (H2 "eu_official_name_sv") as [E|[_ E]]; [|exact E].
    exists a0. rewrite E. reflexivity. }
  assert (exists b, eu2 !! "eu_function_sv" = Some (PStr b)) as [b Hb].
  { destruct (H2 "eu_function_sv") as [E|[_ E]]; [|exact E].
    exists b0. rewrite E. reflexivity. }
  assert (Hrest : forall k, k <> "eu_official_name_sv" -> k <> "eu_function_sv" ->
                            eu2 !! k = base !! k).
  { intros k K1 K2. destruct (H2 k) as [E|[[K|K] _]]; [|congruence..].
    rewrite E. unfold eu1. rewrite !lookup_insert_ne by congruence. reflexivity. }
  assert (E2 : eu2 = <["eu_function_sv" := PStr b]> (<["eu_official_name_sv" := PStr a]> base)).
  { apply map_eq. intros k.
    destruct (decide (k = "eu_function_sv")) as [->|K2];
      [rewrite lookup_insert_eq; exact Hb|].
    rewrite lookup_insert_ne by congruence.
    destruct (decide (k = "eu_official_name_sv")) as [->|K1];
      [rewrite lookup_insert_eq; exact Ha|].
    rewrite lookup_insert_ne by congruence. apply Hrest; assumption. }
  exists a, b. rewrite E2. reflexivity.
Qed.

End SwedishFallbacks.

Section LookupFacts.

Variable w : World.

Lemma build_record_fields row now :
  build_record w row now =
    fetched_record
      (normalize_e_code_storage
         (pick w row ["additive_e_code"; "e_code"; "E_number"; "e_number"; "code"]))
      (pick w row ["additive_name"; "name"; "Name"])
      (pick w row ["functional_class"; "function"; "category"])
      (pick w row ["policy_item_id"; "policy_id"; "id"])
      row
      (pick w row ["fip_url"; "url"])
      now.
Proof. reflexivity. Qed.

Lemma if_truthy_some o d : if_truthy o = Some d -> o = Some d.
Proof.
  destruct o as [d'|]; simpl; [|discriminate].
  destruct (dict_truthy d'); [congruence|discriminate].
Qed.

(** A record that comes back from the registry call was built from a
    row, and the call has done nothing but fetch. *)
Lemma query_api_some e_code name timeout s eu s' :
  _query_api_and_normalize w e_code name timeout s = (Ok (Some eu), s') ->
  fetching s s' /\ exists row now, eu = build_record w row now.
Proof.
  intros H. split; [eapply respects_run; [apply query_api_fetching | exact H]|].
  unfold _query_api_and_normalize in H.
  apply bind_ok_inv in H as (chosen & s1 & _ & H).
  destruct (if_truthy chosen) as [row|]; [|discriminate].
  apply bind_ok_inv in H as (now & s2 & _ & H).
  unfold mret, M_ret in H. injection H as <- _. eauto.
Qed.

(** What [db_upsert] does with a cached record. *)
Lemma db_upsert_cached code name_en func_en pol_id raw url now name_sv' func_sv s :
  let eu := cached_record code name_en func_en pol_id raw url now name_sv' func_sv in
  db_upsert w eu s =
    (Ok tt,
     set_eu_additives (insert code (durable_row name_en func_en pol_id raw now name_sv' func_sv))
       (set_trace (fun t => (t ++ [EvDbUpsert eu])%list) (set_ticks S s))).
Proof. reflexivity. Qed.

(** Reading the row back gives the record without its URL. *)
Lemma row_to_dict_durable code name_en func_en pol_id raw url now name_sv' func_sv :
  _row_to_dict (Some (code, durable_row name_en func_en pol_id raw now name_sv' func_sv))
  = Some (delete "eu_fip_url"
            (cached_record code name_en func_en pol_id raw url now name_sv' func_sv)).
Proof. reflexivity. Qed.

Lemma db_upsert_live row now name_sv' func_sv s :
  db_upsert w (live_record w row now name_sv' func_sv) s =
    (Ok tt,
     set_eu_additives (insert (record_code w row) (live_row w row now name_sv' func_sv))
       (set_trace (fun t => (t ++ [EvDbUpsert (live_record w row now name_sv' func_sv)])%list)
          (set_ticks S s))).
Proof.
  unfold live_record, live_row.
  exact (db_upsert_cached (record_code w row)
    (pick w row ["additive_name"; "name"; "Name"])
    (pick w row ["functional_class"; "function"; "category"])
    (pick w row ["policy_item_id"; "policy_id"; "id"])
    row (pick w row ["fip_url"; "url"]) now name_sv' func_sv s).
Qed.

Lemma add_sv_and_aliases_live row now translate_sv s eu s' :
  add_sv_and_aliases w (build_record w row now) translate_sv s = (Ok eu, s') ->
  exists name_sv' func_sv, eu = live_record w row now name_sv' func_sv.
Proof.
  rewrite build_record_fields. intros H.
  apply add_sv_and_aliases_shape in H as (a & b & ->).
  exists a, b. reflexivity.
Qed.

Lemma live_by_code_some k timeout translate_sv s eu s' :
  live_by_code w k timeout translate_sv s = (Ok (Some eu), s') ->
  written_through w s s' k eu.
Proof.
  unfold live_by_code. intros H.
  apply bind_ok_inv in H as (r & s1 & H1 & H).
  destruct (if_truthy r) as [eu0|] eqn:T; [|discriminate].
  apply if_truthy_some in T. subst r.
  apply query_api_some in H1 as (F1 & row & now & ->).
  apply bind_ok_inv in H as (eu1 & s2 & H2 & H).
  pose proof (respects_run _ _ _ _ _ (add_sv_quiet w _ _) H2) as Q2.
  apply add_sv_and_aliases_live in H2 as (a & b & ->).
  rewrite (bind_run _ _ _ _ _ (db_upsert_live row now a b s2)) in H.
  unfold l1_put, sleep, emit, modify, mbind, M_bind, mret, M_ret in H.
  injection H as <- <-.
  destruct F1 as (A1 & A2 & A3 & _ & fetches & A4 & A5).
  destruct Q2 as (B1 & B2 & B3 & B4 & _).
  exists row, now, a, b, fetches. split; [reflexivity|]. split; [exact A5|].
  simpl. rewrite B4, A4, B1, A1, B2, A2, B3, A3.
  rewrite <- !app_assoc. repeat split; reflexivity.
Qed.

Lemma http_calls_app a b : http_calls (a ++ b) = (http_calls a + http_calls b)%nat.
Proof. unfold http_calls. rewrite List.filter_app, length_app. reflexivity. Qed.

(** The branch by name, from the registry call on. *)
Lemma by_name_some name timeout translate_sv s eu s' :
  option_nonempty name = true ->
  query_eu_additive w None name timeout translate_sv s = (Ok (Some eu), s') ->
  exists code, eu !! "eu_e_code" = Some (PStr code)
    /\ if nonempty code then written_through w s s' code eu
       else returned_unwritten w s s' eu.
Proof.
  intros Hn H. unfold query_eu_additive in H. simpl option_nonempty in H.
  rewrite Hn in H. unfold init_db in H.
  apply bind_ok_inv in H as ([] & s0 & [= <-] & H).
  apply bind_ok_inv in H as (r & s1 & H1 & H).
  destruct (if_truthy r) as [eu0|] eqn:T; [|discriminate].
  apply if_truthy_some in T. subst r.
  apply query_api_some in H1 as (F1 & row & now & ->).
  apply bind_ok_inv in H as (eu1 & s2 & H2 & H).
  pose proof (respects_run _ _ _ _ _ (add_sv_quiet w _ _) H2) as Q2.
  apply add_sv_and_aliases_live in H2 as (a & b & ->).
  destruct F1 as (A1 & A2 & A3 & _ & fetches & A4 & A5).
  destruct Q2 as (B1 & B2 & B3 & B4 & _).
  assert (G : get (live_record w row now a b) "eu_e_code" = PStr (record_code w row))
    by reflexivity.
  rewrite G in H. unfold py_or, empty_str in H. simpl truthy in H.
  destruct (nonempty (record_code w row)) eqn:Ne.
  - simpl truthy in H. rewrite Ne in H.
    apply bind_ok_inv in H as ([] & s3 & H3 & H).
    apply bind_ok_inv in H3 as ([] & s4 & H4 & H3).
    rewrite db_upsert_live in H4. injection H4 as <-.
    unfold l1_put, emit, modify, mbind, M_bind, mret, M_ret in H3.
    injection H3 as <-.
    unfold sleep, emit, modify, mbind, M_bind, mret, M_ret in H.
    injection H as <- <-.
    exists (record_code w row). split; [reflexivity|]. rewrite Ne.
    exists row, now, a, b, fetches. split; [reflexivity|]. split; [exact A5|].
    simpl. rewrite B4, A4, B1, A1, B2, A2, B3, A3.
    rewrite <- !app_assoc. repeat split; reflexivity.
  - simpl in H. unfold sleep, emit, modify, mbind, M_bind, mret, M_ret in H.
    injection H as <- <-.
    exists (record_code w row). split; [reflexivity|]. rewrite Ne.
    exists row, now, a, b, fetches. split; [reflexivity|]. split; [exact A5|].
    simpl. rewrite B4, A4, B1, A1, B2, A2, B3, A3.
    rewrite <- !app_assoc. repeat split; reflexivity.
Qed.

(** The branch by code: the record comes from L1, or from the durable
    tier (and is then put into L1), or from the registry. *)
Lemma by_code_some e name timeout translate_sv s eu s' :
  nonempty e = true ->
  query_eu_additive w (Some e) name timeout translate_sv s = (Ok (Some eu), s') ->
  let k := normalize_e_code_storage e in
  trace s' = trace s
  \/ trace s' = (trace s ++ [EvL1Put k eu])%list
  \/ written_through w s s' k eu.
Proof.
  intros He H k. unfold query_eu_additive in H. simpl option_nonempty in H.
  rewrite He in H. unfold init_db in H. simpl default in H. fold k in H.
  apply bind_ok_inv in H as ([] & s0 & [= <-] & H).
  apply bind_ok_inv in H as (s0 & s1 & [= <- <-] & H).
  apply bind_ok_inv in H as (fresh & s1 & H1 & H).
  pose proof (respects_run _ _ _ _ _ (is_fresh_quiet w _) H1) as Q1.
  destruct fresh.
  { unfold mret, M_ret in H. injection H as _ <-. left. apply Q1. }
  apply bind_ok_inv in H as (row & s2 & H2 & H).
  pose proof (respects_run _ _ _ _ _ (db_get_quiet _) H2) as Q2.
  apply bind_ok_inv in H as (fresh & s3 & H3 & H).
  pose proof (respects_run _ _ _ _ _ (is_fresh_quiet w _) H3) as Q3.
  pose proof (frame_trans _ _ _ Q1 (frame_trans _ _ _ Q2 Q3)) as Q.
  destruct Q as (C1 & C2 & C3 & C4 & _).
  assert (Live : live_by_code w k timeout translate_sv s3 = (Ok (Some eu), s') ->
                 written_through w s s' k eu).
  { intros HL. apply live_by_code_some in HL.
    destruct HL as (row' & now & a & b & fetches & E1 & E2 & E3 & E4 & E5 & E6).
    exists row', now, a, b, fetches.
    rewrite <- C1, <- C2, <- C3, <- C4. repeat split; assumption. }
  destruct row as [r|]; [destruct fresh|].
  - unfold l1_put, emit, modify, mbind, M_bind, mret, M_ret in H.
    injection H as <- <-. right; left. simpl. rewrite C4. reflexivity.
  - right; right. apply Live, H.
  - right; right. apply Live, H.
Qed.

(** C1, amended.  A lookup that asked the registry and returns a record
    has, when it was driven by a code, first upserted the record into
    the durable tier (under the code of the record) and then put the
    very same record into L1 under the normalised code it was asked
    for, and only then paused and returned.  Driven by a name it has
    done the same under the code of the record when that code is not
    empty; when the row carries no code it has written neither tier and
    returns the record all the same. *)
Theorem lookup_writes_through (e_code name : option string) (timeout : Z)
    (translate_sv : bool) (s s' : state) (eu : pydict) :
  query_eu_additive w e_code name timeout translate_sv s = (Ok (Some eu), s') ->
  (http_calls (trace s) < http_calls (trace s'))%nat ->
  if option_nonempty e_code
  then written_through w s s' (normalize_e_code_storage (default EmptyString e_code)) eu
  else exists code, eu !! "eu_e_code" = Some (PStr code)
         /\ if nonempty code then written_through w s s' code eu
            else returned_unwritten w s s' eu.
Proof.
  intros H Hcalls. destruct e_code as [e|]; simpl option_nonempty.
  - destruct (nonempty e) eqn:He.
    + apply by_code_some in H; [|exact He]. simpl default.
      destruct H as [T|[T|T]]; [| |exact T]; exfalso; rewrite T in Hcalls.
      * lia.
      * rewrite http_calls_app in Hcalls. unfold http_calls in Hcalls.
        simpl in Hcalls. lia.
    + destruct (option_nonempty name) eqn:Hn.
      * assert (H' : query_eu_additive w None name timeout translate_sv s
                     = (Ok (Some eu), s')).
        { revert H. unfold query_eu_additive. simpl option_nonempty.
          rewrite He. auto. }
        apply by_name_some in H'; assumption.
      * unfold query_eu_additive in H. simpl option_nonempty in H.
        rewrite He, Hn in H. discriminate H.
  - destruct (option_nonempty name) eqn:Hn.
    + apply by_name_some in H; assumption.
    + unfold query_eu_additive in H. simpl option_nonempty in H.
      rewrite Hn in H. discriminate H.
Qed.

(** C10.  A record that a lookup by code has fetched from the registry
    carries the field eu_fip_url, filled from the row; L1 holds the
    record with it, and reading the durable tier under the code of the
    record gives the same record without the field: the two tiers
    answer with different sets of fields. *)
Theorem fip_url_only_in_l1 (e : string) (name : option string) (timeout : Z)
    (translate_sv : bool) (s s' : state) (eu : pydict) :
  nonempty e = true ->
  query_eu_additive w (Some e) name timeout translate_sv s = (Ok (Some eu), s') ->
  (http_calls (trace s) < http_calls (trace s'))%nat ->
  exists row code,
    eu !! "eu_raw" = Some (PDict row)
    /\ eu !! "eu_e_code" = Some (PStr code)
    /\ eu !! "eu_fip_url" = Some (PStr (pick w row ["fip_url"; "url"]))
    /\ L1_CACHE s' !! normalize_e_code_storage e = Some eu
    /\ db_get_by_e_code code s' = (Ok (Some (delete "eu_fip_url" eu)), s')
    /\ delete "eu_fip_url" eu !! "eu_fip_url" = None.
Proof.
  intros He H Hcalls.
  apply by_code_some in H; [|exact He].
  destruct H as [T|[T|T]].
  - exfalso. rewrite T in Hcalls. lia.
  - exfalso. rewrite T, http_calls_app in Hcalls. unfold http_calls in Hcalls.
    simpl in Hcalls. lia.
  - destruct T as (row & now & a & b & fetches & -> & _ & _ & HL1 & Hdb & _).
    exists row, (record_code w row).
    split; [reflexivity|]. split; [reflexivity|]. split; [reflexivity|].
    split; [rewrite HL1; apply lookup_insert_eq|].
    split; [|apply lookup_delete_eq].
    unfold db_get_by_e_code, init_db, get_state, mbind, M_bind, mret, M_ret.
    rewrite Hdb, lookup_insert_eq. reflexivity.
Qed.

End LookupFacts.

Lemma run_E250 :
  query_eu_additive world_up (Some "e-250") None 45 true empty_state
  = (Ok (Some record_E250), after_E250).
Proof. vm_cast_no_check (eq_refl (Ok (Some record_E250), after_E250)). Qed.

Lemma run_guar :
  query_eu_additive world_up None (Some "guar flour") 45 true empty_state
  = (Ok (Some record_guar), after_guar).
Proof. vm_cast_no_check (eq_refl (Ok (Some record_guar), after_guar)). Qed.

(** C1, counterexample.  The registry answers the name guar flour with
    a row that has no code.  The lookup by that name returns a record
    (its code is the empty string), and its whole trace is the request
    and the pause: nothing was upserted, nothing was put into L1. *)
Lemma write_through_counterexample :
  ~ write_through_claim
  /\ query_eu_additive world_up None (Some "guar flour") 45 true empty_state
     = (Ok (Some record_guar), after_guar)
  /\ record_guar !! "eu_e_code" = Some (PStr EmptyString)
  /\ trace after_guar = [EvHttpGet "json" {[ "additive_name" := "guar flour" ]}; EvSleep]
  /\ L1_CACHE after_guar = ∅
  /\ eu_additives after_guar = ∅.
Proof.
  split; [|split; [exact run_guar | repeat split]].
  intros H.
  destruct (H world_up None (Some "guar flour") 45 true empty_state after_guar
              record_guar run_guar) as (before & key & _ & HL).
  - vm_compute. lia.
  - simpl L1_CACHE in HL. rewrite lookup_empty in HL. discriminate HL.
Qed.

(** A lookup by code in the same world: the registry answers the
    spelling with a space, and both tiers are written. *)
Lemma lookup_writes_through_witness :
  query_eu_additive world_up (Some "e-250") None 45 true empty_state
  = (Ok (Some record_E250), after_E250)
  /\ written_through world_up empty_state after_E250 "E250" record_E250.
Proof.
  split; [exact run_E250|].
  apply (lookup_writes_through world_up (Some "e-250") None 45 true
           empty_state after_E250 record_E250 run_E250).
  vm_compute. lia.
Defined.

Lemma fip_url_only_in_l1_witness :
  record_E250 !! "eu_fip_url"
  = Some (PStr "https://ec.europa.eu/food/food-feed-portal/additive/E250")
  /\ L1_CACHE after_E250 !! "E250" = Some record_E250
  /\ db_get_by_e_code "E250" after_E250
     = (Ok (Some (delete "eu_fip_url" record_E250)), after_E250)
  /\ delete "eu_fip_url" record_E250 !! "eu_fip_url" = None.
Proof.
  destruct (fip_url_only_in_l1 world_up "e-250" None 45 true empty_state after_E250
              record_E250)
    as (row & code & H1 & H2 & H3 & H4 & H5 & H6).
  - reflexivity.
  - exact run_E250.
  - vm_compute. lia.
  - assert (C : record_E250 !! "eu_e_code" = Some (PStr "E250")) by reflexivity.
    assert (R : record_E250 !! "eu_raw" = Some (PDict row_E250)) by reflexivity.
    rewrite C in H2. injection H2 as <-.
    rewrite R in H1. injection H1 as <-.
    split; [reflexivity|]. split; [exact H4|]. split; [exact H5 | exact H6].
Defined.

(** ** A stale record and a registry that has nothing *)

Section StaleAndDown.

Variable w : World.

Lemma is_fresh_run r s :
  exists s1, is_fresh w r s = (Ok (fresh_at w (utcnow w (ticks s)) r), s1) /\ quiet s s1.
Proof.
  destruct r as [d|]; simpl.
  - destruct (dict_truthy d); simpl.
    + destruct (is_expired_run w (get d "updated_at") s) as (s1 & E & Q).
      exists s1. split; [|exact Q].
      unfold mbind, M_bind. rewrite E. reflexivity.
    + exists s. split; [reflexivity | apply frame_refl].
  - exists s. split; [reflexivity | apply frame_refl].
Qed.

Lemma stale_not_fresh n r m :
  (forall d, r = Some d -> stale_from w n d) -> (n <= m)%nat ->
  fresh_at w (utcnow w m) r = false.
Proof.
  intros H Hm. destruct r as [d|]; [|reflexivity]. simpl.
  rewrite (H d eq_refl m Hm). apply andb_false_r.
Qed.

Section NoRows.

Variable timeout : Z.

Hypothesis no_rows : forall variant s,
  fst (fetch_rows w {[ "additive_e_code" := variant ]} timeout s) = Ok [].

Lemma try_variants_no_rows variants chosen s :
  exists s', try_variants w variants timeout chosen s = (Ok chosen, s') /\ fetching s s'.
Proof.
  revert s. induction variants as [|v rest IH]; intros s; simpl.
  - exists s. split; [reflexivity | apply frame_refl].
  - pose proof (no_rows v s) as E.
    pose proof (fetch_rows_fetching w {[ "additive_e_code" := v ]} timeout s) as F.
    destruct (fetch_rows w {[ "additive_e_code" := v ]} timeout s) as [r s1] eqn:R.
    simpl in E, F. subst r.
    destruct (IH s1) as (s' & E' & F').
    exists s'. split.
    + unfold mbind, M_bind. rewrite R. exact E'.
    + eapply frame_trans; eassumption.
Qed.

Lemma live_by_code_no_rows k translate_sv s :
  nonempty k = true ->
  exists s', live_by_code w k timeout translate_sv s = (Ok None, s') /\ fetching s s'.
Proof.
  intros Hk. unfold live_by_code, _query_api_and_normalize. simpl option_nonempty.
  rewrite Hk.
  destruct (try_variants_no_rows
              (normalize_e_code_query_variants (default EmptyString (Some k))) None s)
    as (s' & E & F).
  exists s'. split; [|exact F].
  unfold mbind, M_bind. rewrite E. reflexivity.
Qed.

(** C2. A lookup by a non-empty code whose cached record, in L1 and in
    the durable tier, is stale (or missing), and for which every
    spelling fetched from the registry yields no rows, returns none: the
    stale row is not returned.  It is not removed either: both tiers
    are as they were. *)
Theorem stale_and_no_rows_is_not_found (e_code : string) (name : option string)
    (translate_sv : bool) (s : state) :
  let k := normalize_e_code_storage e_code in
  e_code <> EmptyString ->
  (forall hit, L1_CACHE s !! k = Some hit -> stale_from w (ticks s) hit) ->
  (forall row, _row_to_dict (pair k <$> eu_additives s !! k) = Some row ->
               stale_from w (ticks s) row) ->
  exists s',
    query_eu_additive w (Some e_code) name timeout translate_sv s = (Ok None, s')
    /\ L1_CACHE s' = L1_CACHE s
    /\ eu_additives s' = eu_additives s.
Proof.
  intros k He Hl1 Hdb.
  assert (Hne : nonempty e_code = true) by (destruct e_code; [congruence|reflexivity]).
  assert (Hk : nonempty k = true).
  { pose proof (normalize_not_empty e_code He) as N. fold k in N.
    destruct k; [congruence|reflexivity]. }
  unfold query_eu_additive. simpl option_nonempty. rewrite Hne.
  simpl default. fold k.
  destruct (is_fresh_run (L1_CACHE s !! k) s) as (s1 & E1 & Q1).
  rewrite (stale_not_fresh (ticks s) _ _ Hl1 (le_n _)) in E1.
  pose proof Q1 as (A1 & A2 & _ & _ & A5).
  set (row := _row_to_dict (pair k <$> eu_additives s !! k)) in *.
  assert (E2 : db_get_by_e_code k s1 = (Ok row, s1)).
  { unfold db_get_by_e_code, init_db, get_state, mbind, M_bind, mret, M_ret.
    rewrite A2. reflexivity. }
  destruct (is_fresh_run row s1) as (s2 & E3 & Q2).
  rewrite (stale_not_fresh (ticks s) _ _ Hdb A5) in E3.
  destruct (live_by_code_no_rows k translate_sv s2 Hk) as (s' & E4 & F).
  pose proof Q2 as (B1 & B2 & _).
  destruct F as (C1 & C2 & _).
  exists s'. split; [|split; congruence].
  unfold init_db, get_state.
  unfold mbind at 1. unfold M_bind, mret, M_ret.
  unfold mbind at 1. unfold M_bind.
  unfold mbind at 1. unfold M_bind. rewrite E1.
  unfold mbind at 1. unfold M_bind. rewrite E2.
  unfold mbind at 1. unfold M_bind. rewrite E3.
  destruct row; exact E4.
Qed.

End NoRows.

End StaleAndDown.

(** In the worked world a timestamp of 2020-01-01 is stale at every
    clock reading. *)
Lemma old_timestamp_stale m :
  expired_at world_down (utcnow world_down m) (PStr "2020-01-01T00:00:00") = true.
Proof.
  assert (P : parsed world_down (PStr "2020-01-01T00:00:00")
              = Some (Naive 1577836800000000)) by (vm_compute; reflexivity).
  unfold expired_at. rewrite P. simpl truthy. simpl negb. cbv iota.
  apply Z.gtb_gt.
  change (utcnow world_down m) with (t0 + Z.of_nat m * us_per_second).
  unfold timedelta_days, TTL_DAYS, us_per_day, t0, us_per_second. lia.
Qed.

Lemma world_down_no_rows timeout variant s :
  fst (fetch_rows world_down {[ "additive_e_code" := variant ]} timeout s) = Ok [].
Proof. reflexivity. Qed.

(** The durable row for E250 is of 2020, L1 is empty and the network is
    down: the lookup reports not found and the old row stays. *)
Lemma stale_and_no_rows_is_not_found_witness :
  exists s',
    query_eu_additive world_down (Some "e 250") None 45 true stale_state = (Ok None, s')
    /\ L1_CACHE s' = ∅
    /\ eu_additives s' !! "E250" = Some old_row.
Proof.
  destruct (stale_and_no_rows_is_not_found world_down 45
              (world_down_no_rows 45) "e 250" None true stale_state)
    as (s' & E & L & D).
  - discriminate.
  - intros hit H. vm_compute in H. discriminate H.
  - intros row H.
    assert (R : row !! "updated_at" = Some (PStr "2020-01-01T00:00:00")).
    { match type of H with
      | ?lhs = _ =>
          assert (R0 : lhs ≫= (fun r : pydict => r !! "updated_at")
                       = Some (PStr "2020-01-01T00:00:00"))
            by (vm_compute; reflexivity)
      end.
      rewrite H in R0. exact R0. }
    intros m _. unfold get. rewrite R. apply old_timestamp_stale.
  - exists s'. split; [exact E|]. split; [exact L|]. rewrite D. reflexivity.
Defined.

(** ** Further worked examples *)


(** With the network down both fetches return the empty sequence. *)
Lemma api_get_rows_never_raise_witness :
  fst (_api_get_rows_json world_down {[ "additive_e_code" := "E 250" ]} 45 empty_state) = Ok []
  /\ fst (_api_get_rows_csv world_down {[ "additive_e_code" := "E 250" ]} 45 empty_state) = Ok [].
Proof.
  destruct (api_get_rows_never_raise world_down {[ "additive_e_code" := "E 250" ]} 45 empty_state)
    as ((rows & H & Hraise & _) & (rows' & H' & Hraise' & _)).
  rewrite H, H'. split; f_equal.
  - apply (Hraise (Exception "ConnectionError")). reflexivity.
  - apply (Hraise' (Exception "ConnectionError")). reflexivity.
Defined.

(** * Further properties of the code *)

(** ** More on the code normaliser *)

Section NormalizerMore.










End NormalizerMore.

Section VariantsAndExtraction.













End VariantsAndExtraction.

Section Extraction.












End Extraction.

(** ** More on staleness and on the durable tier *)

Section DurableTier.

Variable w : World.



(** What a returning [db_upsert] has done. *)
Lemma db_upsert_ok eu s s' :
  db_upsert w eu s = (Ok tt, s') ->
  exists key name func pol nsv fsv upd,
    sql_text (get_or eu "eu_e_code" (PStr EmptyString)) = Ok key
    /\ sql_text (get_or eu "eu_official_name_en" (PStr EmptyString)) = Ok name
    /\ sql_text (get_or eu "eu_function_en" (PStr EmptyString)) = Ok func
    /\ sql_text (get_or eu "eu_policy_item_id" (PStr EmptyString)) = Ok pol
    /\ sql_text (get_or eu "eu_official_name_sv" (PStr EmptyString)) = Ok nsv
    /\ sql_text (get_or eu "eu_function_sv" (PStr EmptyString)) = Ok fsv
    /\ sql_text (get_or eu "updated_at" (PStr (isoformat w (utcnow w (ticks s))))) = Ok upd
    /\ L1_CACHE s' = L1_CACHE s /\ objects s' = objects s
    /\ trace s' = (trace s ++ [EvDbUpsert eu])%list
    /\ eu_additives s' =
         match key with
         | Some k =>
             <[k := {| official_name_en := name; function_en := func;
                       policy_item_id := pol;
                       payload_json := Some (get_or eu "eu_raw" (PDict ∅));
                       name_sv := nsv; function_sv := fsv; updated_at := upd |}]>
               (eu_additives s)
         | None => eu_additives s
         end.
Proof.
  unfold db_upsert, init_db. intros H.
  apply bind_ok_inv in H as ([] & s0 & [= <-] & H).
  apply bind_ok_inv in H as (now & s1 & H0 & H).
  assert (now = isoformat w (utcnow w (ticks s)) /\ s1 = set_ticks S s) as [-> ->].
  { revert H0. unfold _utcnow, datetime_utcnow, observe, mbind, M_bind, mret, M_ret.
    intros [= <- <-]. auto. }
  apply bind_ok_inv in H as (key & sa & Hk & H). injection Hk as Hk <-.
  apply bind_ok_inv in H as (name & sa & Hn & H). injection Hn as Hn <-.
  apply bind_ok_inv in H as (func & sa & Hf & H). injection Hf as Hf <-.
  apply bind_ok_inv in H as (pol & sa & Hp & H). injection Hp as Hp <-.
  cbv zeta in H.
  apply bind_ok_inv in H as (nsv & sa & Hns & H). injection Hns as Hns <-.
  apply bind_ok_inv in H as (fsv & sa & Hfs & H). injection Hfs as Hfs <-.
  apply bind_ok_inv in H as (upd & sa & Hu & H). injection Hu as Hu <-.
  apply bind_ok_inv in H as ([] & sa & He & H).
  unfold emit, modify in He. injection He as <-.
  exists key, name, func, pol, nsv, fsv, upd.
  repeat (split; [assumption|]).
  destruct key as [k|].
  - unfold modify in H. injection H as <-. repeat split; reflexivity.
  - unfold mret, M_ret in H. injection H as <-. repeat split; reflexivity.
Qed.

Lemma sql_text_str eu key dflt v col :
  eu !! key = Some (PStr v) -> sql_text (get_or eu key dflt) = Ok col -> col = Some v.
Proof. unfold get_or. intros ->. simpl. congruence. Qed.



(** X7. [db_upsert] writes one row and nothing else: the rows under all
    other codes are as before, the table has gained at most the code of
    the record, and L1 is not touched. *)
Theorem upsert_touches_one_row (eu : pydict) (k : string) (s s' : state) :
  db_upsert w eu s = (Ok tt, s') ->
  eu !! "eu_e_code" = Some (PStr k) ->
  (forall j, j <> k -> eu_additives s' !! j = eu_additives s !! j)
  /\ dom (eu_additives s') = {[ k ]} ∪ dom (eu_additives s)
  /\ L1_CACHE s' = L1_CACHE s.
Proof.
  intros H Hk.
  apply db_upsert_ok in H
    as (key & name & func & pol & nsv & fsv & upd
        & Ek & _ & _ & _ & _ & _ & _ & HL & _ & _ & Hdb).
  rewrite (sql_text_str _ _ _ _ _ Hk Ek) in Hdb. rewrite Hdb.
  split; [|split; [apply dom_insert_L | exact HL]].
  intros j Hj. apply lookup_insert_ne. congruence.
Qed.

(** X8. The last writer wins: after two upserts under one code, the
    second of a record that carries its own updated_at, the table is
    what the second upsert alone would have made of it.  Upserting the
    same record twice is upserting it once. *)
Theorem upsert_last_writer_wins (eu1 eu2 : pydict) (k : string) (s s1 s2 s2' : state) :
  eu1 !! "eu_e_code" = Some (PStr k) ->
  eu2 !! "eu_e_code" = Some (PStr k) ->
  is_Some (eu2 !! "updated_at") ->
  db_upsert w eu1 s = (Ok tt, s1) ->
  db_upsert w eu2 s1 = (Ok tt, s2) ->
  db_upsert w eu2 s = (Ok tt, s2') ->
  eu_additives s2 = eu_additives s2'.
Proof.
  intros K1 K2 [u Hu] H1 H2 H2'.
  apply db_upsert_ok in H1
    as (key1 & ? & ? & ? & ? & ? & ? & Ek1 & _ & _ & _ & _ & _ & _ & _ & _ & _ & D1).
  apply db_upsert_ok in H2
    as (key2 & n2 & f2 & p2 & ns2 & fs2 & u2
        & Ek2 & En & Ef & Ep & Ens & Efs & Eu & _ & _ & _ & D2).
  apply db_upsert_ok in H2'
    as (key2' & n2' & f2' & p2' & ns2' & fs2' & u2'
        & Ek2' & En' & Ef' & Ep' & Ens' & Efs' & Eu' & _ & _ & _ & D2').
  rewrite (sql_text_str _ _ _ _ _ K1 Ek1) in D1.
  rewrite (sql_text_str _ _ _ _ _ K2 Ek2) in D2.
  rewrite (sql_text_str _ _ _ _ _ K2 Ek2') in D2'.
  assert (u2 = u2') as ->.
  { revert Eu Eu'. unfold get_or. rewrite Hu. simpl. congruence. }
  assert (n2 = n2') as -> by congruence.
  assert (f2 = f2') as -> by congruence.
  assert (p2 = p2') as -> by congruence.
  assert (ns2 = ns2') as -> by congruence.
  assert (fs2 = fs2') as -> by congruence.
  rewrite D2, D1, D2'. apply insert_insert_eq.
Qed.


End DurableTier.



Lemma upsert_touches_one_row_witness :
  let s' := snd (db_upsert world_up record_E250 stale_state) in
  eu_additives s' !! "E100" = eu_additives stale_state !! "E100"
  /\ L1_CACHE s' = L1_CACHE stale_state.
Proof.
  intros s'.
  destruct (upsert_touches_one_row world_up record_E250 "E250" stale_state s')
    as (Hother & _ & HL).
  - reflexivity.
  - reflexivity.
  - split; [apply Hother; discriminate | exact HL].
Defined.

(** Upserting the record of the worked example twice is upserting it
    once. *)
Lemma upsert_last_writer_wins_witness :
  let s1 := snd (db_upsert world_up record_E250 stale_state) in
  let s2 := snd (db_upsert world_up record_E250 s1) in
  eu_additives s2 = eu_additives s1.
Proof.
  intros s1 s2.
  apply (upsert_last_writer_wins world_up record_E250 record_E250 "E250"
           stale_state s1 s2 s1).
  - reflexivity.
  - reflexivity.
  - eexists. reflexivity.
  - reflexivity.
  - reflexivity.
  - reflexivity.
Defined.


(** ** More on the row selector and on the registry client *)

Section SelectorAndClient.

Variable w : World.

(** X10. The selector invents nothing and gives up only on an empty
    sequence: the row it returns is one of the rows it was given, and it
    returns none exactly when there are no rows. *)
Theorem selector_returns_a_row (rows : list pydict) (wanted : string) :
  (forall r, _prefer_substance_match w rows wanted = Some r -> In r rows)
  /\ (_prefer_substance_match w rows wanted = None <-> rows = []).
Proof.
  rewrite prefer_substance_match_unfold.
  set (f1 := fun r => code_is_b w wanted r && is_substance (row_type w r)).
  set (f3 := fun r => is_substance (row_type w r)).
  split.
  - intros r.
    destruct (List.find f1 rows) as [r1|] eqn:F1.
    { intros [= <-]. apply List.find_some in F1. apply F1. }
    destruct (List.find (code_is_b w wanted) rows) as [r2|] eqn:F2.
    { intros [= <-]. apply List.find_some in F2. apply F2. }
    destruct (List.find f3 rows) as [r3|] eqn:F3.
    { intros [= <-]. apply List.find_some in F3. apply F3. }
    destruct rows as [|r0 rest]; [discriminate|]. intros [= <-]. left. reflexivity.
  - split; [|intros ->; reflexivity].
    destruct (List.find f1 rows); [discriminate|].
    destruct (List.find (code_is_b w wanted) rows); [discriminate|].
    destruct (List.find f3 rows); [discriminate|].
    destruct rows; [reflexivity|discriminate].
Qed.

Lemma dict_elements_dicts (rows : list pydict) : dict_elements (PDict <$> rows) = rows.
Proof.
  unfold dict_elements. induction rows as [|r rows IH]; [reflexivity|].
  simpl. f_equal. exact IH.
Qed.

(** X11. The rows of the registry come out as they went in, whatever
    the shape of the payload: a list of row dictionaries is recovered
    unchanged when it arrives bare and when it arrives under one of the
    keys value, items, data and results; a dictionary without any of
    these is one row; and elements that are not dictionaries are
    dropped. *)
Theorem extract_rows_shapes (rows : list pydict) (key : string) (junk : pyval) :
  _extract_rows_from_json (PList (PDict <$> rows)) = rows
  /\ (In key envelope_keys ->
      _extract_rows_from_json (PDict {[ key := PList (PDict <$> rows) ]}) = rows)
  /\ (forall d, Forall (fun k => d !! k = None) envelope_keys ->
                _extract_rows_from_json (PDict d) = [d])
  /\ ((forall d, junk <> PDict d) ->
      _extract_rows_from_json (PList (junk :: (PDict <$> rows))) = rows).
Proof.
  split; [apply dict_elements_dicts|]. split; [|split].
  - intros K. unfold envelope_keys in K. simpl in K.
    destruct K as [<-|[<-|[<-|[<-|[]]]]]; simpl;
      repeat (rewrite lookup_singleton_eq || (rewrite lookup_singleton_ne by discriminate));
      apply dict_elements_dicts.
  - intros d H. unfold envelope_keys in H.
    inversion H as [|? ? H1 H']; subst. inversion H' as [|? ? H2 H'']; subst.
    inversion H'' as [|? ? H3 H''']; subst. inversion H''' as [|? ? H4 _]; subst.
    simpl. rewrite H1, H2, H3, H4. reflexivity.
  - intros J. simpl. unfold dict_elements. simpl.
    destruct junk; try apply dict_elements_dicts. exfalso. eapply J. reflexivity.
Qed.

(** One call of [fetch_rows]: the JSON request and, only when it gave
    no rows, the CSV request with the same parameters. *)
Lemma fetch_rows_run params timeout s :
  exists rows s',
    fetch_rows w params timeout s = (Ok rows, s')
    /\ L1_CACHE s' = L1_CACHE s /\ eu_additives s' = eu_additives s
    /\ objects s' = objects s
    /\ ((rows <> [] /\ trace s' = (trace s ++ [EvHttpGet "json" params])%list)
        \/ trace s' = (trace s ++ [EvHttpGet "json" params; EvHttpGet "csv" params])%list).
Proof.
  unfold fetch_rows.
  destruct (api_get_rows_json_run w params timeout s)
    as (rows & s1 & E1 & (A1 & A2 & A3 & A4 & _) & _).
  rewrite (bind_run _ _ _ _ _ E1).
  destruct rows as [|r rows].
  - destruct (api_get_rows_csv_run w params timeout s1)
      as (rows' & s2 & E2 & (B1 & B2 & B3 & B4 & _) & _).
    exists rows', s2. split; [exact E2|].
    split; [congruence|]. split; [congruence|]. split; [congruence|].
    right. rewrite B4, A4, <- app_assoc. reflexivity.
  - exists (r :: rows), s1. split; [reflexivity|].
    split; [exact A1|]. split; [exact A2|]. split; [exact A3|].
    left. split; [discriminate | exact A4].
Qed.

(** X12. [fetch_rows] never raises and touches neither cache tier nor
    any item.  It asks for JSON first, and the rows it returns after
    that one request are the rows of a JSON answer of status 200; it
    asks for CSV, with the same parameters, only after JSON has given
    no rows, and what it then returns is empty or the rows of a CSV
    answer of status 200. *)
Theorem fetch_rows_json_then_csv (params : gmap string string) (timeout : Z) (s : state) :
  exists rows s',
    fetch_rows w params timeout s = (Ok rows, s')
    /\ L1_CACHE s' = L1_CACHE s /\ eu_additives s' = eu_additives s
    /\ objects s' = objects s
    /\ ((rows <> []
         /\ trace s' = (trace s ++ [EvHttpGet "json" params])%list
         /\ exists resp data,
              answer w "json" params timeout s = Ok resp
              /\ status_code resp = 200 /\ json_body resp = Ok data
              /\ rows = _extract_rows_from_json data)
        \/ (trace s' = (trace s ++ [EvHttpGet "json" params; EvHttpGet "csv" params])%list
            /\ (rows = []
                \/ exists s1 resp,
                     fetch_effect "json" params s s1
                     /\ answer w "csv" params timeout s1 = Ok resp
                     /\ status_code resp = 200
                     /\ csv_DictReader w (text resp) = Ok rows))).
Proof.
  unfold fetch_rows, answer.
  destruct (api_get_rows_json_run w params timeout s)
    as (rows & s1 & E1 & F1 & J).
  pose proof F1 as (A1 & A2 & A3 & A4 & _).
  rewrite (bind_run _ _ _ _ _ E1).
  destruct rows as [|r rows].
  - destruct (api_get_rows_csv_run w params timeout s1)
      as (rows' & s2 & E2 & (B1 & B2 & B3 & B4 & _) & C).
    exists rows', s2. split; [exact E2|].
    split; [congruence|]. split; [congruence|]. split; [congruence|].
    right. split; [rewrite B4, A4, <- app_assoc; reflexivity|].
    destruct (requests_get w (ticks s1) _) as [resp|e] eqn:Rq; [|left; exact C].
    destruct C as [C|[C1 C2]]; [left; exact C|].
    right. exists s1, resp. split; [exact F1|]. split; [exact Rq|]. split; assumption.
  - exists (r :: rows), s1. split; [reflexivity|].
    split; [exact A1|]. split; [exact A2|]. split; [exact A3|].
    left. split; [discriminate|]. split; [exact A4|].
    destruct (requests_get w (ticks s) _) as [resp|e]; [|discriminate J].
    destruct J as [J|(J1 & data & J2 & J3)]; [discriminate J|].
    exists resp, data. repeat split; assumption.
Qed.

End SelectorAndClient.

(** Of a row without code and the row of E250 the selector returns the
    second, which is one of the two. *)
Lemma selector_returns_a_row_witness :
  _prefer_substance_match world_up [row_nameless; row_E250] "E250" = Some row_E250
  /\ In row_E250 [row_nameless; row_E250].
Proof.
  assert (E : _prefer_substance_match world_up [row_nameless; row_E250] "E250"
              = Some row_E250)
    by (vm_cast_no_check (eq_refl (Some row_E250))).
  split; [exact E|].
  exact (proj1 (selector_returns_a_row world_up [row_nameless; row_E250] "E250")
           row_E250 E).
Defined.

Lemma extract_rows_shapes_witness :
  _extract_rows_from_json (PDict {[ "value" := PList (PDict <$> [row_E250]) ]}) = [row_E250]
  /\ _extract_rows_from_json (PList (PNone :: (PDict <$> [row_E250]))) = [row_E250].
Proof.
  destruct (extract_rows_shapes [row_E250] "value" PNone) as (_ & H1 & _ & H2).
  split; [apply H1; left; reflexivity | apply H2; discriminate].
Defined.

(** ** The number of requests *)

Section RequestBudget.

Variable w : World.

Lemma within_ret {A} (a : A) : within 0 (mret a).
Proof. intros s. simpl. lia. Qed.

Lemma within_raise {A} e : within 0 (@raise A e).
Proof. intros s. simpl. lia. Qed.

Lemma within_mono {A} (a b : nat) (m : M A) : (a <= b)%nat -> within a m -> within b m.
Proof. intros H Hm s. specialize (Hm s). lia. Qed.

Lemma within_bind {A B} (a b n : nat) (m : M A) (f : A -> M B) :
  within a m -> (forall x, within b (f x)) -> (a + b <= n)%nat -> within n (m ≫= f).
Proof.
  intros Hm Hf Hn s. unfold mbind, M_bind. specialize (Hm s).
  destruct (m s) as [[x|e] s1]; simpl in *.
  - specialize (Hf x s1). lia.
  - lia.
Qed.

Lemma within_then {A B} (n : nat) (m : M A) (f : A -> M B) :
  within 0 m -> (forall x, within n (f x)) -> within n (m ≫= f).
Proof. intros Hm Hf. eapply within_bind; [exact Hm | exact Hf | lia]. Qed.

Lemma within_first {A B} (n : nat) (m : M A) (f : A -> M B) :
  within n m -> (forall x, within 0 (f x)) -> within n (m ≫= f).
Proof. intros Hm Hf. eapply within_bind; [exact Hm | exact Hf | lia]. Qed.

Lemma within_quiet {A} (m : M A) : respects quiet m -> within 0 m.
Proof. intros H s. destruct (H s) as (_ & _ & _ & T & _). rewrite T. lia. Qed.

Lemma within_silent_event e : is_http_b e = false -> within 0 (emit e).
Proof.
  intros H s. unfold emit, modify. simpl. rewrite http_calls_app.
  unfold http_calls at 2. simpl. rewrite H. simpl. lia.
Qed.

Lemma within_same_trace (f : state -> state) :
  (forall s, trace (f s) = trace s) -> within 0 (modify f).
Proof. intros H s. unfold modify. simpl. rewrite H. lia. Qed.

Lemma fetch_rows_within params timeout : within 2 (fetch_rows w params timeout).
Proof.
  intros s. destruct (fetch_rows_run w params timeout s)
    as (rows & s' & E & _ & _ & _ & [[_ T]|T]);
    rewrite E; simpl; rewrite T, http_calls_app; unfold http_calls at 2; simpl; lia.
Qed.

Lemma try_variants_within variants timeout chosen :
  within (2 * length variants) (try_variants w variants timeout chosen).
Proof.
  revert chosen. induction variants as [|v rest IH]; intros chosen; simpl try_variants.
  - apply within_ret.
  - apply (within_bind 2 (2 * length rest)); [apply fetch_rows_within | | simpl length; lia].
    intros rows. destruct rows; [apply IH|].
    destruct (row_truthy _); [|apply IH].
    eapply within_mono; [|apply within_ret]. lia.
Qed.

Lemma variants_at_most_three s : (length (normalize_e_code_query_variants s) <= 3)%nat.
Proof.
  unfold normalize_e_code_query_variants. cbv zeta.
  destruct (core_search _); [simpl; lia|].
  destruct (nonempty _); simpl; lia.
Qed.

Lemma query_api_within e_code name timeout :
  within (if option_nonempty e_code then 6 else 2)
    (_query_api_and_normalize w e_code name timeout).
Proof.
  unfold _query_api_and_normalize.
  apply within_first.
  - destruct (option_nonempty e_code).
    + eapply within_mono; [|apply try_variants_within].
      pose proof (variants_at_most_three (default EmptyString e_code)). lia.
    + destruct (option_nonempty name).
      * apply within_first; [apply fetch_rows_within|].
        intros rows. destruct rows; apply within_ret.
      * eapply within_mono; [|apply within_ret]. lia.
  - intros chosen. destruct (if_truthy chosen); [|apply within_ret].
    apply within_then; [apply within_quiet, utcnow_quiet | intros; apply within_ret].
Qed.

Lemma db_upsert_within eu : within 0 (db_upsert w eu).
Proof.
  intros s. destruct (db_upsert w eu s) as [[[]|e] s'] eqn:E.
  - apply db_upsert_ok in E as (? & ? & ? & ? & ? & ? & ? & _ & _ & _ & _ & _ & _ & _
                                 & _ & _ & T & _).
    simpl. rewrite T, http_calls_app. unfold http_calls at 2. simpl. lia.
  - (* a bind that raises stops before the event is recorded *)
    revert E. unfold db_upsert, init_db, _utcnow, datetime_utcnow, observe, emit, modify,
      lift_result, mbind, M_bind, mret, M_ret.
    repeat match goal with
           | |- context [sql_text ?v] => destruct (sql_text v)
           end;
      try (intros [= _ <-]; simpl; lia);
      match goal with |- context [match ?k with Some _ => _ | None => _ end] => destruct k end;
      discriminate.
Qed.

Lemma l1_put_within k v : within 0 (l1_put k v).
Proof.
  unfold l1_put.
  apply within_then; [apply within_silent_event; reflexivity|].
  intros _. apply within_same_trace. reflexivity.
Qed.

Lemma sleep_within : within 0 sleep.
Proof. apply within_silent_event. reflexivity. Qed.

Lemma live_by_code_within k timeout translate_sv :
  nonempty k = true -> within 6 (live_by_code w k timeout translate_sv).
Proof.
  intros Hk. unfold live_by_code.
  apply within_first.
  - pose proof (query_api_within (Some k) None timeout) as H.
    simpl option_nonempty in H. rewrite Hk in H. exact H.
  - intros eu. destruct (if_truthy eu); [|apply within_ret].
    apply within_then; [apply within_quiet, add_sv_quiet|]. intros eu'.
    apply within_then; [apply db_upsert_within|]. intros _.
    apply within_then; [apply l1_put_within|]. intros _.
    apply within_then; [apply sleep_within | intros; apply within_ret].
Qed.

Lemma query_within e_code name timeout translate_sv :
  within (if option_nonempty e_code then 6 else 2)
    (query_eu_additive w e_code name timeout translate_sv).
Proof.
  unfold query_eu_additive, init_db.
  apply within_then; [apply within_ret|]. intros _.
  destruct (option_nonempty e_code) eqn:He.
  - assert (Hk : nonempty (normalize_e_code_storage (default EmptyString e_code)) = true).
    { destruct e_code as [e|]; [|discriminate]. simpl in He. simpl default.
      assert (e <> EmptyString) as Hne by (destruct e; [discriminate|congruence]).
      pose proof (normalize_not_empty e Hne).
      destruct (normalize_e_code_storage e); [congruence|reflexivity]. }
    cbv zeta.
    apply within_then; [apply within_quiet, respects_get_state; exact _|]. intros s0.
    apply within_then; [apply within_quiet, is_fresh_quiet|]. intros fresh.
    destruct fresh; [eapply within_mono; [|apply within_ret]; lia|].
    apply within_then; [apply within_quiet, db_get_quiet|]. intros row.
    apply within_then; [apply within_quiet, is_fresh_quiet|]. intros fresh.
    destruct row as [r|]; [destruct fresh|]; try (apply live_by_code_within, Hk).
    eapply within_mono; [|apply within_then; [apply l1_put_within | intros; apply within_ret]].
    lia.
  - destruct (option_nonempty name); [|eapply within_mono; [|apply within_ret]; lia].
    apply within_first.
    + pose proof (query_api_within None name timeout) as H. exact H.
    + intros eu. destruct (if_truthy eu); [|apply within_ret].
      apply within_then; [apply within_quiet, add_sv_quiet|]. intros eu'.
      cbv zeta.
      apply within_then.
      * destruct (truthy _); [|apply within_ret].
        apply within_then; [apply db_upsert_within|]. intros _.
        destruct (py_or _ _); try apply within_raise. apply l1_put_within.
      * intros _.
        apply within_then; [apply sleep_within | intros; apply within_ret].
Qed.

(** X13. The request budget of a lookup: whatever the registry answers
    and however the run ends, [query_eu_additive] sends at most six
    requests when it is given a code (three spellings, JSON and CSV for
    each) and at most two when it is given a name only. *)
Theorem lookup_request_budget (e_code name : option string) (timeout : Z)
    (translate_sv : bool) (s : state) :
  let s' := snd (query_eu_additive w e_code name timeout translate_sv s) in
  (http_calls (trace s') <= http_calls (trace s) + 6)%nat
  /\ (option_nonempty e_code = false ->
      (http_calls (trace s') <= http_calls (trace s) + 2)%nat).
Proof.
  intros s'. subst s'.
  pose proof (query_within e_code name timeout translate_sv s) as H.
  destruct (option_nonempty e_code); split; try lia; discriminate.
Qed.

Lemma bulk_refresh_loop_within codes translate_sv timeout ok :
  within (6 * length codes) (bulk_refresh_loop w codes translate_sv timeout ok).
Proof.
  revert ok. induction codes as [|c rest IH]; intros ok; simpl bulk_refresh_loop.
  - apply within_ret.
  - apply (within_bind 6 (6 * length rest)); [| intros eu; apply IH | simpl length; lia].
    eapply within_mono; [|apply query_within].
    destruct (option_nonempty _); lia.
Qed.

Lemma bulk_refresh_loop_count codes translate_sv timeout ok s n s' :
  bulk_refresh_loop w codes translate_sv timeout ok s = (Ok n, s') ->
  ok <= n <= ok + Z.of_nat (length codes).
Proof.
  revert ok s. induction codes as [|c rest IH]; intros ok s; simpl bulk_refresh_loop.
  - intros [= <- _]. simpl. lia.
  - intros H. apply bind_ok_inv in H as (eu & s1 & _ & H).
    apply IH in H. simpl length. destruct (row_truthy eu); lia.
Qed.

(** X14. [bulk_refresh_eu_codes] sends at most six requests for each
    code, and the number it returns lies between zero and the number of
    codes.  Its argument [timeout] has no effect at all. *)
Theorem bulk_refresh_bounds (codes : list string) (translate_sv : bool)
    (timeout timeout' : Z) (s : state) :
  let run := bulk_refresh_eu_codes w codes translate_sv timeout s in
  (http_calls (trace (snd run)) <= http_calls (trace s) + 6 * length codes)%nat
  /\ (forall n, fst run = Ok n -> 0 <= n <= Z.of_nat (length codes))
  /\ run = bulk_refresh_eu_codes w codes translate_sv timeout' s.
Proof.
  intros run. subst run. unfold bulk_refresh_eu_codes, init_db.
  split; [|split].
  - apply (within_bind 0 (6 * length codes)); [apply within_ret | | lia].
    intros _. apply bulk_refresh_loop_within.
  - intros n H.
    destruct ((mret tt ≫= fun _ => bulk_refresh_loop w codes translate_sv timeout 0) s)
      as [r s'] eqn:E.
    simpl in H. subst r. apply bind_ok_inv in E as ([] & s0 & _ & E).
    apply bulk_refresh_loop_count in E. lia.
  - assert (L : forall ok s0, bulk_refresh_loop w codes translate_sv timeout ok s0
                             = bulk_refresh_loop w codes translate_sv timeout' ok s0).
    { induction codes as [|c rest IH]; intros ok s0; simpl; [reflexivity|].
      unfold mbind, M_bind.
      destruct (query_eu_additive w _ _ _ _ s0) as [[eu|e] s1]; [apply IH|reflexivity]. }
    unfold mbind, M_bind, mret, M_ret. apply L.
Qed.

End RequestBudget.

(** The lookup of the worked example sends no more than six requests,
    the lookup by name no more than two. *)
Lemma lookup_request_budget_witness :
  (http_calls (trace (snd (query_eu_additive world_up (Some "e-250") None 45 true
                             empty_state))) <= 6)%nat
  /\ (http_calls (trace (snd (query_eu_additive world_up None (Some "guar flour") 45 true
                                empty_state))) <= 2)%nat.
Proof.
  split.
  - exact (proj1 (lookup_request_budget world_up (Some "e-250") None 45 true empty_state)).
  - exact (proj2 (lookup_request_budget world_up None (Some "guar flour") 45 true
                    empty_state) eq_refl).
Defined.

(** Of a code that the registry knows and one that it does not, one is
    counted. *)
Lemma bulk_refresh_bounds_witness :
  fst (bulk_refresh_eu_codes world_up ["e-250"; "zzz"] false 45 empty_state) = Ok 1
  /\ 0 <= 1 <= 2.
Proof.
  assert (E : fst (bulk_refresh_eu_codes world_up ["e-250"; "zzz"] false 45 empty_state)
              = Ok 1) by (vm_cast_no_check (eq_refl (@Ok Z 1))).
  split; [exact E|].
  exact (proj1 (proj2 (bulk_refresh_bounds world_up ["e-250"; "zzz"] false 45 45
                         empty_state)) 1 E).
Defined.

(** ** The probe *)

Section Probe.

Variable w : World.

Lemma probe_loop_run variants timeout attempts s :
  exists out ok s',
    probe_loop w variants timeout attempts s = (Ok (out, ok), s')
    /\ fetching s s'
    /\ if ok : bool
       then exists tried v n rest,
              variants = (tried ++ v :: rest)%list
              /\ out = (attempts ++ (no_rows_attempt <$> tried) ++ [(v, S n)])%list
       else out = (attempts ++ (no_rows_attempt <$> variants))%list.
Proof.
  revert attempts s. induction variants as [|v rest IH]; intros attempts s; simpl probe_loop.
  - exists attempts, false, s. split; [reflexivity|]. split; [apply frame_refl|].
    simpl. rewrite app_nil_r. reflexivity.
  - destruct (fetch_rows_run w {[ "additive_e_code" := v ]} timeout s)
      as (rows & s1 & E & _).
    pose proof (respects_run _ _ _ _ _ (fetch_rows_fetching w _ _) E) as F1.
    rewrite (bind_run _ _ _ _ _ E). cbv zeta.
    destruct rows as [|r rows].
    + destruct (IH (attempts ++ [(v, length (@nil pydict))])%list s1)
        as (out & ok & s' & E' & F' & H).
      exists out, ok, s'. split; [exact E'|]. split; [eapply frame_trans; eassumption|].
      destruct ok.
      * destruct H as (tried & v' & n & rest' & -> & ->).
        exists (v :: tried), v', n, rest'. split; [reflexivity|].
        rewrite <- app_assoc. reflexivity.
      * rewrite H, <- app_assoc. reflexivity.
    + exists (attempts ++ [(v, length (r :: rows))])%list, true, s1.
      split; [reflexivity|]. split; [exact F1|].
      exists [], v, (length rows), rest. split; reflexivity.
Qed.

(** X15. The probe always returns a report, and writes nothing: both
    cache tiers and the items are as before, and the only events are
    requests.  The report names the code it was asked for.  When it says
    ok, the attempts are the first spellings of the code, all but the
    last with no rows and the last with at least one; when it does not,
    every spelling was tried and none gave a row. *)
Theorem eu_api_probe_report (e_code : string) (timeout : Z) (s : state) :
  exists rep s',
    eu_api_probe w e_code timeout s = (Ok rep, s')
    /\ fetching s s'
    /\ probe_ecode rep = e_code
    /\ if probe_ok rep
       then exists tried v n rest,
              normalize_e_code_query_variants e_code = (tried ++ v :: rest)%list
              /\ probe_attempts rep = ((no_rows_attempt <$> tried) ++ [(v, S n)])%list
       else probe_attempts rep
            = no_rows_attempt <$> normalize_e_code_query_variants e_code.
Proof.
  unfold eu_api_probe.
  destruct (probe_loop_run (normalize_e_code_query_variants e_code) timeout [] s)
    as (out & ok & s' & E & F & H).
  rewrite (bind_run _ _ _ _ _ E).
  eexists. exists s'. split; [reflexivity|]. split; [exact F|]. split; [reflexivity|].
  simpl. exact H.
Qed.

End Probe.

(** ** More on the Swedish fields *)

Section SwedishMore.

Variable w : World.

Lemma nonempty_false s : nonempty s = false -> s = EmptyString.
Proof. destruct s; [reflexivity|discriminate]. Qed.

Lemma is_placeholder_text s :
  _is_placeholder_sv (PStr s) = Ok (placeholder_text (lower (strip s))).
Proof.
  unfold _is_placeholder_sv, py_or. simpl truthy.
  destruct (nonempty s) eqn:E; [reflexivity|].
  apply nonempty_false in E. subst s. reflexivity.
Qed.

Lemma clear_placeholder_run key eu s :
  get_or eu key empty_str = PStr s ->
  clear_placeholder key eu =
    Ok (if placeholder_text (lower (strip s)) then <[key := empty_str]> eu else eu).
Proof.
  intros H. unfold clear_placeholder. rewrite H, is_placeholder_text. reflexivity.
Qed.

Lemma empty_is_placeholder : placeholder_text (lower (strip EmptyString)) = true.
Proof. reflexivity. Qed.

Lemma clear_placeholder_clean key eu s :
  get_or eu key empty_str = PStr s ->
  clean_at (if placeholder_text (lower (strip s)) then <[key := empty_str]> eu else eu) key.
Proof.
  intros H. destruct (placeholder_text (lower (strip s))) eqn:P.
  - exists EmptyString. split; [apply lookup_insert_eq | left; reflexivity].
  - exists s. split; [|right; exact P].
    unfold get_or in H. destruct (eu !! key) as [v|] eqn:L; simpl in H.
    + subst v. reflexivity.
    + injection H as <-. rewrite empty_is_placeholder in P. discriminate P.
Qed.

Lemma fill_gap_run key guard cand eu o :
  cand = Ok o ->
  fill_gap key guard cand eu =
    Ok (if negb (truthy (get eu key)) && guard
        then match o with Some v => <[key := PStr v]> eu | None => eu end
        else eu).
Proof.
  intros ->. unfold fill_gap. destruct (negb (truthy (get eu key)) && guard); reflexivity.
Qed.

Lemma fill_gap_other key guard cand eu eu' k :
  fill_gap key guard cand eu = Ok eu' -> k <> key -> eu' !! k = eu !! k.
Proof.
  unfold fill_gap. destruct (negb (truthy (get eu key)) && guard).
  - intros H Hk. apply result_bind_ok in H as ([v|] & _ & [= <-]); [|reflexivity].
    apply lookup_insert_ne. congruence.
  - intros [= <-] _. reflexivity.
Qed.

Lemma fill_gap_clean key guard cand eu eu' :
  clean_at eu key ->
  (forall v, cand = Ok (Some v) -> clean_text v) ->
  fill_gap key guard cand eu = Ok eu' -> clean_at eu' key.
Proof.
  intros C Hv. unfold fill_gap. destruct (negb (truthy (get eu key)) && guard).
  - intros H. apply result_bind_ok in H as ([v|] & Hc & [= <-]); [|exact C].
    exists v. split; [apply lookup_insert_eq | apply Hv, Hc].
  - intros [= <-]. exact C.
Qed.

(** A field that holds a text that is no placeholder is no gap. *)
Lemma real_text_truthy s : placeholder_text (lower (strip s)) = false -> nonempty s = true.
Proof.
  destruct s; [|reflexivity]. rewrite empty_is_placeholder. discriminate.
Qed.

Lemma fill_gap_keeps key guard cand eu eu' s :
  eu !! key = Some (PStr s) -> nonempty s = true ->
  fill_gap key guard cand eu = Ok eu' -> eu' = eu.
Proof.
  intros L N. unfold fill_gap, get. rewrite L. simpl. rewrite N. simpl. congruence.
Qed.

Lemma name_overrides_clean c v :
  assoc c SWEDISH_NAME_OVERRIDES = Some v -> clean_text v.
Proof.
  unfold SWEDISH_NAME_OVERRIDES. simpl.
  repeat (destruct (bool_decide _); [intros [= <-]; right; reflexivity|]).
  discriminate.
Qed.

Lemma function_overrides_clean c v :
  assoc c FUNCTION_OVERRIDES_BY_ECODE_SV = Some v -> clean_text v.
Proof.
  unfold FUNCTION_OVERRIDES_BY_ECODE_SV. simpl.
  repeat (destruct (bool_decide _); [intros [= <-]; right; reflexivity|]).
  discriminate.
Qed.

Lemma function_map_clean l v : function_sv_of l = Some v -> clean_text v.
Proof.
  unfold function_sv_of, FUNCTION_SV_MAP. simpl.
  repeat (destruct (contains _ l); [intros [= <-]; right; reflexivity|]).
  discriminate.
Qed.

Lemma py_or_text s : py_or (PStr s) empty_str = PStr s.
Proof.
  unfold py_or. simpl. destruct (nonempty s) eqn:E; [reflexivity|].
  apply nonempty_false in E. subst s. reflexivity.
Qed.

(** The five steps of [_sv_fallbacks], for a record whose code and
    English function are texts. *)
Lemma sv_fallbacks_steps eu c f n0 f0 :
  get_or eu "eu_e_code" empty_str = PStr c ->
  get_or eu "eu_function_en" empty_str = PStr f ->
  get_or eu "eu_official_name_sv" empty_str = PStr n0 ->
  get_or eu "eu_function_sv" empty_str = PStr f0 ->
  exists eu1 eu2 eu3 eu4 eu5,
    _sv_fallbacks eu = Ok eu5
    /\ eu1 = (if placeholder_text (lower (strip n0))
              then <["eu_official_name_sv" := empty_str]> eu else eu)
    /\ fill_gap "eu_official_name_sv" true (Ok (assoc c SWEDISH_NAME_OVERRIDES)) eu1 = Ok eu2
    /\ eu3 = (if placeholder_text (lower (strip f0))
              then <["eu_function_sv" := empty_str]> eu2 else eu2)
    /\ fill_gap "eu_function_sv" (nonempty f) (Ok (function_sv_of (lower f))) eu3 = Ok eu4
    /\ fill_gap "eu_function_sv" true (Ok (assoc c FUNCTION_OVERRIDES_BY_ECODE_SV)) eu4
       = Ok eu5.
Proof.
  intros Hc Hf Hn Hfs. unfold _sv_fallbacks. cbv zeta.
  rewrite Hc, Hf, py_or_text. simpl table_lookup. simpl lower_method. simpl truthy.
  rewrite (clear_placeholder_run _ _ _ Hn).
  set (eu1 := if placeholder_text (lower (strip n0))
              then <["eu_official_name_sv" := empty_str]> eu else eu).
  change (Ok eu1 ≫= ?k) with (k eu1). cbv beta.
  rewrite (fill_gap_run "eu_official_name_sv" true _ eu1 _ eq_refl).
  set (eu2 := if negb (truthy (get eu1 "eu_official_name_sv")) && true then _ else _).
  change (Ok eu2 ≫= ?k) with (k eu2). cbv beta.
  assert (Hfs2 : get_or eu2 "eu_function_sv" empty_str = PStr f0).
  { unfold get_or. replace (eu2 !! "eu_function_sv") with (eu !! "eu_function_sv");
      [exact Hfs|].
    subst eu2 eu1.
    repeat match goal with
           | |- context [if ?b then _ else _] => destruct b
           | |- context [match ?o with Some _ => _ | None => _ end] => destruct o
           end;
      rewrite ?lookup_insert_ne by discriminate; reflexivity. }
  rewrite (clear_placeholder_run _ _ _ Hfs2).
  set (eu3 := if placeholder_text (lower (strip f0))
              then <["eu_function_sv" := empty_str]> eu2 else eu2).
  change (Ok eu3 ≫= ?k) with (k eu3). cbv beta.
  change (Ok (lower f) ≫= _) with (@Ok (option string) (function_sv_of (lower f))).
  rewrite (fill_gap_run "eu_function_sv" (nonempty f) _ eu3 _ eq_refl).
  set (eu4 := if negb (truthy (get eu3 "eu_function_sv")) && nonempty f then _ else _).
  change (Ok eu4 ≫= ?k) with (k eu4). cbv beta.
  rewrite (fill_gap_run "eu_function_sv" true _ eu4 _ eq_refl).
  eexists eu1, eu2, eu3, eu4, _.
  split; [reflexivity|]. split; [reflexivity|].
  split; [apply fill_gap_run; reflexivity|]. split; [reflexivity|].
  split; apply fill_gap_run; reflexivity.
Qed.

Lemma function_map_nonempty l v : function_sv_of l = Some v -> nonempty v = true.
Proof.
  unfold function_sv_of, FUNCTION_SV_MAP. simpl.
  repeat (destruct (contains _ l); [intros [= <-]; reflexivity|]).
  discriminate.
Qed.

Lemma clean_at_other eu eu' key :
  eu' !! key = eu !! key -> clean_at eu key -> clean_at eu' key.
Proof. intros E (s & L & C). exists s. rewrite E. auto. Qed.

Lemma cleared_other (b : bool) key k (eu : pydict) :
  k <> key -> (if b then <[key := empty_str]> eu else eu) !! k = eu !! k.
Proof. intros H. destruct b; [apply lookup_insert_ne; congruence | reflexivity]. Qed.

(** X16. On a record whose code, English function and Swedish fields
    are strings (or missing), [_sv_fallbacks] does not raise and leaves
    no placeholder behind: each of the two Swedish fields ends up as a
    string that is empty or passes the placeholder test, and no other
    field is changed. *)
Theorem sv_fallbacks_leaves_no_placeholder (eu : pydict) :
  text_field eu "eu_e_code" -> text_field eu "eu_function_en" ->
  text_field eu "eu_official_name_sv" -> text_field eu "eu_function_sv" ->
  exists eu',
    _sv_fallbacks eu = Ok eu'
    /\ clean_at eu' "eu_official_name_sv"
    /\ clean_at eu' "eu_function_sv"
    /\ forall k, k <> "eu_official_name_sv" -> k <> "eu_function_sv" ->
                 eu' !! k = eu !! k.
Proof.
  intros [c Hc] [f Hf] [n0 Hn] [f0 Hfs].
  destruct (sv_fallbacks_steps eu c f n0 f0 Hc Hf Hn Hfs)
    as (eu1 & eu2 & eu3 & eu4 & eu5 & Hrun & E1 & G2 & E3 & G4 & G5).
  exists eu5. split; [exact Hrun|].
  assert (C1 : clean_at eu1 "eu_official_name_sv")
    by (rewrite E1; apply clear_placeholder_clean, Hn).
  assert (C2 : clean_at eu2 "eu_official_name_sv").
  { eapply fill_gap_clean; [exact C1 | | exact G2].
    intros v [= Hv]. eapply name_overrides_clean, Hv. }
  assert (Hfs2 : get_or eu2 "eu_function_sv" empty_str = PStr f0).
  { unfold get_or. rewrite (fill_gap_other _ _ _ _ _ "eu_function_sv" G2) by discriminate.
    rewrite E1, cleared_other by discriminate. exact Hfs. }
  assert (C3 : clean_at eu3 "eu_function_sv")
    by (rewrite E3; apply clear_placeholder_clean, Hfs2).
  assert (C4 : clean_at eu4 "eu_function_sv").
  { eapply fill_gap_clean; [exact C3 | | exact G4].
    intros v [= Hv]. eapply function_map_clean, Hv. }
  assert (C5 : clean_at eu5 "eu_function_sv").
  { eapply fill_gap_clean; [exact C4 | | exact G5].
    intros v [= Hv]. eapply function_overrides_clean, Hv. }
  split; [|split; [exact C5|]].
  - eapply clean_at_other; [|exact C2].
    rewrite (fill_gap_other _ _ _ _ _ "eu_official_name_sv" G5) by discriminate.
    rewrite (fill_gap_other _ _ _ _ _ "eu_official_name_sv" G4) by discriminate.
    rewrite E3. apply cleared_other. discriminate.
  - intros k K1 K2. destruct (sv_fallbacks_ext eu eu5 Hrun k) as [E|[[K|K] _]];
      [exact E | contradiction | contradiction].
Qed.

Lemma ok_inj {A} (a b : A) : Ok a = Ok b -> a = b.
Proof. congruence. Qed.

Lemma gap_not_truthy (b : bool) key (eu : pydict) :
  (b = false -> exists s, eu !! key = Some (PStr s) /\ nonempty s = false) ->
  truthy (get (if b then <[key := empty_str]> eu else eu) key) = false.
Proof.
  intros H. unfold get. destruct b.
  - rewrite lookup_insert_eq. reflexivity.
  - destruct (H eq_refl) as (s & -> & N). exact N.
Qed.

(** X17. The order of precedence in [_sv_fallbacks], for a record with
    the code [c] and the English function [f].  A Swedish text that is
    no placeholder is kept.  A name that is missing, empty or a
    placeholder becomes the override of the code, or empty when there
    is none.  A function that is missing, empty or a placeholder becomes
    the Swedish word for the English function when the table has one,
    else the override of the code, else empty. *)
Theorem sv_fallbacks_precedence (eu eu' : pydict) (c f : string) :
  get_or eu "eu_e_code" empty_str = PStr c ->
  get_or eu "eu_function_en" empty_str = PStr f ->
  text_field eu "eu_official_name_sv" -> text_field eu "eu_function_sv" ->
  _sv_fallbacks eu = Ok eu' ->
  (forall key s, key = "eu_official_name_sv" \/ key = "eu_function_sv" ->
                 eu !! key = Some (PStr s) ->
                 placeholder_text (lower (strip s)) = false ->
                 eu' !! key = Some (PStr s))
  /\ (gap_at eu "eu_official_name_sv" ->
      eu' !! "eu_official_name_sv"
      = Some (PStr (default EmptyString (assoc c SWEDISH_NAME_OVERRIDES))))
  /\ (gap_at eu "eu_function_sv" ->
      eu' !! "eu_function_sv"
      = Some (PStr match (if nonempty f then function_sv_of (lower f) else None) with
                   | Some v => v
                   | None => default EmptyString (assoc c FUNCTION_OVERRIDES_BY_ECODE_SV)
                   end)).
Proof.
  intros Hc Hf [n0 Hn] [f0 Hfs] Hrun'.
  destruct (sv_fallbacks_steps eu c f n0 f0 Hc Hf Hn Hfs)
    as (eu1 & eu2 & eu3 & eu4 & eu5 & Hrun & E1 & G2 & E3 & G4 & G5).
  rewrite Hrun in Hrun'. injection Hrun' as <-.
  assert (Hfs2 : eu2 !! "eu_function_sv" = eu !! "eu_function_sv").
  { rewrite (fill_gap_other _ _ _ _ _ "eu_function_sv" G2) by discriminate.
    rewrite E1. apply cleared_other. discriminate. }
  assert (Hn5 : eu5 !! "eu_official_name_sv" = eu2 !! "eu_official_name_sv").
  { rewrite (fill_gap_other _ _ _ _ _ "eu_official_name_sv" G5) by discriminate.
    rewrite (fill_gap_other _ _ _ _ _ "eu_official_name_sv" G4) by discriminate.
    rewrite E3. apply cleared_other. discriminate. }
  split; [|split].
  - intros key s [->| ->] L P.
    + assert (n0 = s) as -> by (unfold get_or in Hn; rewrite L in Hn; simpl in Hn; congruence).
      rewrite P in E1. subst eu1.
      rewrite (fill_gap_keeps _ _ _ _ _ s L (real_text_truthy s P) G2) in Hn5.
      rewrite Hn5. exact L.
    + assert (f0 = s) as -> by (unfold get_or in Hfs; rewrite L in Hfs; simpl in Hfs; congruence).
      rewrite P in E3. subst eu3. rewrite <- Hfs2 in L.
      rewrite (fill_gap_keeps _ _ _ _ _ s L (real_text_truthy s P) G4) in G5.
      rewrite (fill_gap_keeps _ _ _ _ _ s L (real_text_truthy s P) G5). exact L.
  - intros (n & Hn' & P). rewrite Hn in Hn'. injection Hn' as ->.
    rewrite P in E1. rewrite Hn5.
    assert (L1 : eu1 !! "eu_official_name_sv" = Some empty_str)
      by (rewrite E1; apply lookup_insert_eq).
    rewrite (fill_gap_run _ _ _ _ _ eq_refl) in G2.
    unfold get in G2. rewrite L1 in G2. apply ok_inj in G2. rewrite <- G2.
    change (negb (truthy (default PNone (Some empty_str))) && true) with true.
    cbv iota.
    destruct (assoc c SWEDISH_NAME_OVERRIDES) as [v|];
      [exact (lookup_insert_eq _ _ _) | exact L1].
  - intros (f1 & Hf1 & P). rewrite Hfs in Hf1. injection Hf1 as ->.
    rewrite P in E3.
    assert (L3 : eu3 !! "eu_function_sv" = Some empty_str)
      by (rewrite E3; apply lookup_insert_eq).
    rewrite (fill_gap_run _ _ _ _ _ eq_refl) in G4.
    unfold get in G4. rewrite L3 in G4.
    change (negb (truthy (default PNone (Some empty_str)))) with true in G4.
    destruct (nonempty f); cbn [andb] in G4; cbv iota in G4.
    + destruct (function_sv_of (lower f)) as [v|] eqn:Fm.
      * apply ok_inj in G4.
        assert (L4 : eu4 !! "eu_function_sv" = Some (PStr v))
          by (rewrite <- G4; apply lookup_insert_eq).
        rewrite (fill_gap_keeps _ _ _ _ _ v L4 (function_map_nonempty _ _ Fm) G5).
        exact L4.
      * apply ok_inj in G4. subst eu4.
        rewrite (fill_gap_run _ _ _ _ _ eq_refl) in G5.
        unfold get in G5. rewrite L3 in G5. apply ok_inj in G5. rewrite <- G5.
        change (negb (truthy (default PNone (Some empty_str))) && true) with true.
        cbv iota.
        destruct (assoc c FUNCTION_OVERRIDES_BY_ECODE_SV) as [v|];
          [exact (lookup_insert_eq _ _ _) | exact L3].
    + apply ok_inj in G4. subst eu4.
      rewrite (fill_gap_run _ _ _ _ _ eq_refl) in G5.
      unfold get in G5. rewrite L3 in G5. apply ok_inj in G5. rewrite <- G5.
      change (negb (truthy (default PNone (Some empty_str))) && true) with true.
      cbv iota.
      destruct (assoc c FUNCTION_OVERRIDES_BY_ECODE_SV) as [v|];
        [exact (lookup_insert_eq _ _ _) | exact L3].
Qed.

(** X18. What [_translate_to_sv] returns is never a placeholder: each
    of the two texts is empty or passes the placeholder test.  Without
    an API key it returns the empty translation and observes nothing;
    with nothing to translate it returns the empty translation too. *)
Theorem translate_returns_no_placeholder (name_en function_en : string) (s : state) :
  (forall sv s', _translate_to_sv w name_en function_en s = (Ok sv, s') ->
                 clean_text (tr_name_sv sv) /\ clean_text (tr_function_sv sv))
  /\ (GOOGLE_API_KEY w = EmptyString ->
      _translate_to_sv w name_en function_en s = (Ok no_translation, s))
  /\ (name_en = EmptyString -> function_en = EmptyString ->
      fst (_translate_to_sv w name_en function_en s) = Ok no_translation).
Proof.
  split; [|split].
  - intros sv s' H. unfold _translate_to_sv in H.
    apply bind_ok_inv in H as (llm & s1 & _ & H).
    destruct (negb llm || _).
    { injection H as <- _. split; left; reflexivity. }
    apply bind_ok_inv in H as (n & s2 & _ & H).
    apply bind_ok_inv in H as (raw & s3 & _ & H).
    destruct (parse_json_strict w raw) as [data|e].
    2: { injection H as <- _. split; left; reflexivity. }
    apply bind_ok_inv in H as (a & s4 & _ & H).
    apply bind_ok_inv in H as (b & s5 & _ & H).
    rewrite !is_placeholder_text in H.
    apply bind_ok_inv in H as (pa & s6 & [= <- _] & H).
    apply bind_ok_inv in H as (pb & s7 & [= <- _] & H).
    injection H as <- _. simpl.
    split.
    + destruct (placeholder_text (lower (strip a))) eqn:P; [left; reflexivity|right; exact P].
    + destruct (placeholder_text (lower (strip b))) eqn:P; [left; reflexivity|right; exact P].
  - intros K. unfold _translate_to_sv, _get_llm. rewrite K. reflexivity.
  - intros -> ->. unfold _translate_to_sv, mbind, M_bind.
    destruct (_get_llm w s) as [[llm|e] s1] eqn:G.
    + destruct llm; reflexivity.
    + exfalso. revert G. unfold _get_llm.
      destruct (negb _); [discriminate|].
      unfold try_except, observe, lift_result, mbind, M_bind, mret, M_ret.
      destruct (ChatGoogleGenerativeAI w _); discriminate.
Qed.

End SwedishMore.

(** A record for E300 whose Swedish fields came back as placeholders:
    the fallbacks replace both. *)
Lemma sv_fallbacks_leaves_no_placeholder_witness :
  let eu : pydict :=
    list_to_map [ ("eu_e_code", PStr "E300"); ("eu_function_en", PStr "Antioxidant");
                  ("eu_official_name_sv", PStr "<namn>");
                  ("eu_function_sv", PStr "funktion") ] in
  exists eu', _sv_fallbacks eu = Ok eu'
              /\ clean_at eu' "eu_official_name_sv"
              /\ eu' !! "eu_e_code" = Some (PStr "E300").
Proof.
  intros eu.
  destruct (sv_fallbacks_leaves_no_placeholder eu) as (eu' & Hrun & Hn & _ & Hk).
  - eexists. reflexivity.
  - eexists. reflexivity.
  - eexists. reflexivity.
  - eexists. reflexivity.
  - exists eu'. split; [exact Hrun|]. split; [exact Hn|].
    rewrite Hk by discriminate. reflexivity.
Defined.

Lemma sv_fallbacks_precedence_witness :
  let eu : pydict :=
    list_to_map [ ("eu_e_code", PStr "E300"); ("eu_function_en", PStr "Colour");
                  ("eu_official_name_sv", PStr "<namn>");
                  ("eu_function_sv", PStr "funktion") ] in
  let eu' : pydict :=
    <["eu_function_sv" := PStr "Färgämne"]>
      (<["eu_official_name_sv" := PStr "Askorbinsyra"]> eu) in
  _sv_fallbacks eu = Ok eu'
  /\ eu' !! "eu_official_name_sv" = Some (PStr "Askorbinsyra")
  /\ eu' !! "eu_function_sv" = Some (PStr "Färgämne").
Proof.
  intros eu eu'.
  assert (Hrun : _sv_fallbacks eu = Ok eu')
    by (vm_cast_no_check (eq_refl (@Ok pydict eu'))).
  split; [exact Hrun|].
  destruct (sv_fallbacks_precedence eu eu' "E300" "Colour") as (_ & Hn & Hf).
  - reflexivity.
  - reflexivity.
  - eexists. reflexivity.
  - eexists. reflexivity.
  - exact Hrun.
  - split; [apply Hn | apply Hf]; eexists; split; reflexivity.
Defined.

(** In the worked world there is no key: nothing is translated and
    nothing is observed. *)
Lemma translate_returns_no_placeholder_witness :
  _translate_to_sv world_up "Sodium nitrite" "Preservative" empty_state
  = (Ok no_translation, empty_state).
Proof.
  apply (translate_returns_no_placeholder world_up "Sodium nitrite" "Preservative"
           empty_state).
  reflexivity.
Defined.

(** ** More on the lookup *)

Section LookupMore.

Variable w : World.

(** The branch by code, without its preamble. *)
Lemma by_code_unfold e name timeout translate_sv s :
  nonempty e = true ->
  let k := normalize_e_code_storage e in
  query_eu_additive w (Some e) name timeout translate_sv s =
    (fresh ← is_fresh w (L1_CACHE s !! k);
     if fresh : bool then mret (L1_CACHE s !! k)
     else
       row ← db_get_by_e_code k;
       fresh ← is_fresh w row;
       match row with
       | Some r =>
           if fresh : bool then l1_put k r;; mret (Some r)
           else live_by_code w k timeout translate_sv
       | None => live_by_code w k timeout translate_sv
       end) s.
Proof.
  intros He k. unfold query_eu_additive. simpl option_nonempty. rewrite He. reflexivity.
Qed.

Lemma is_fresh_ticks r s : (ticks (snd (is_fresh w r s)) <= S (ticks s))%nat.
Proof.
  unfold is_fresh. destruct r as [d|]; [|simpl; lia].
  destruct (dict_truthy d); [|simpl; lia].
  unfold _is_expired, mbind, M_bind.
  destruct (negb (truthy (get d "updated_at"))); [simpl; lia|].
  unfold try_except, datetime_utcnow, observe, lift_result, mbind, M_bind, mret, M_ret.
  simpl. destruct (older_than w _ _ _); simpl; lia.
Qed.

Lemma is_fresh_some r s s1 :
  is_fresh w r s = (Ok true, s1) -> exists d, r = Some d /\ dict_truthy d = true.
Proof.
  destruct (is_fresh_run w r s) as (s1' & E & _). rewrite E. intros [= H _].
  destruct r as [d|]; [|discriminate]. simpl in H.
  exists d. split; [reflexivity|]. destruct (dict_truthy d); [reflexivity|discriminate].
Qed.

Lemma db_get_run k s :
  db_get_by_e_code k s = (Ok (_row_to_dict (pair k <$> eu_additives s !! k)), s).
Proof. reflexivity. Qed.

(** X19. A fresh record in L1 is the answer, and costs nothing: the
    lookup returns the very record that L1 holds under the normalised
    code, sends no request, writes to neither tier and records no
    event. *)
Theorem l1_hit_is_served (e : string) (name : option string) (timeout : Z)
    (translate_sv : bool) (s : state) (hit : pydict) :
  nonempty e = true ->
  L1_CACHE s !! normalize_e_code_storage e = Some hit ->
  fresh_at w (utcnow w (ticks s)) (Some hit) = true ->
  exists s',
    query_eu_additive w (Some e) name timeout translate_sv s = (Ok (Some hit), s')
    /\ L1_CACHE s' = L1_CACHE s /\ eu_additives s' = eu_additives s
    /\ objects s' = objects s /\ trace s' = trace s.
Proof.
  intros He Hhit Hfresh. rewrite (by_code_unfold e name timeout translate_sv s He).
  cbv zeta. rewrite Hhit.
  destruct (is_fresh_run w (Some hit) s) as (s1 & E1 & (A1 & A2 & A3 & A4 & _)).
  rewrite Hfresh in E1. rewrite (bind_run _ _ _ _ _ E1).
  exists s1. repeat split; assumption.
Qed.

(** X20. A fresh row of the durable tier is the answer when L1 has
    nothing fresh: the lookup returns the row as a record, puts that
    record into L1 under the normalised code, leaves the table as it is
    and sends no request. *)
Theorem durable_hit_fills_l1 (e : string) (name : option string) (timeout : Z)
    (translate_sv : bool) (s : state) (row : db_row) (r : pydict) :
  let k := normalize_e_code_storage e in
  nonempty e = true ->
  fresh_at w (utcnow w (ticks s)) (L1_CACHE s !! k) = false ->
  eu_additives s !! k = Some row ->
  _row_to_dict (Some (k, row)) = Some r ->
  (forall n, (ticks s <= n <= S (ticks s))%nat -> fresh_at w (utcnow w n) (Some r) = true) ->
  exists s',
    query_eu_additive w (Some e) name timeout translate_sv s = (Ok (Some r), s')
    /\ L1_CACHE s' = <[k := r]> (L1_CACHE s)
    /\ eu_additives s' = eu_additives s
    /\ objects s' = objects s
    /\ trace s' = (trace s ++ [EvL1Put k r])%list.
Proof.
  intros k He Hl1 Hrow Hr Hfresh.
  rewrite (by_code_unfold e name timeout translate_sv s He). cbv zeta. fold k.
  destruct (is_fresh_run w (L1_CACHE s !! k) s) as (s1 & E1 & (A1 & A2 & A3 & A4 & A5)).
  pose proof (is_fresh_ticks (L1_CACHE s !! k) s) as T1. rewrite E1 in T1. simpl in T1.
  rewrite Hl1 in E1. rewrite (bind_run _ _ _ _ _ E1). cbv iota.
  rewrite (bind_run _ _ _ _ _ (db_get_run k s1)). rewrite A2, Hrow. simpl fmap. rewrite Hr.
  destruct (is_fresh_run w (Some r) s1) as (s2 & E2 & (B1 & B2 & B3 & B4 & _)).
  rewrite (Hfresh (ticks s1)) in E2 by lia.
  rewrite (bind_run _ _ _ _ _ E2). cbv iota.
  eexists. split; [reflexivity|]. simpl.
  rewrite B1, A1, B2, A2, B3, A3, B4, A4. repeat split; reflexivity.
Qed.

(** Where the record of a lookup by code came from. *)
Lemma by_code_inv e name timeout translate_sv s eu s' :
  nonempty e = true ->
  query_eu_additive w (Some e) name timeout translate_sv s = (Ok (Some eu), s') ->
  let k := normalize_e_code_storage e in
  (L1_CACHE s !! k = Some eu /\ quiet s s')
  \/ (_row_to_dict (pair k <$> eu_additives s !! k) = Some eu
      /\ L1_CACHE s' = <[k := eu]> (L1_CACHE s)
      /\ eu_additives s' = eu_additives s
      /\ trace s' = (trace s ++ [EvL1Put k eu])%list)
  \/ written_through w s s' k eu.
Proof.
  intros He H k. rewrite (by_code_unfold e name timeout translate_sv s He) in H.
  cbv zeta in H. fold k in H.
  apply bind_ok_inv in H as (fresh & s1 & H1 & H).
  pose proof (respects_run _ _ _ _ _ (is_fresh_quiet w _) H1) as Q1.
  destruct fresh.
  { injection H as H <-. left. split; [exact H | exact Q1]. }
  apply bind_ok_inv in H as (row & s2 & H2 & H).
  rewrite db_get_run in H2. injection H2 as <- <-.
  apply bind_ok_inv in H as (fresh & s3 & H3 & H).
  pose proof (respects_run _ _ _ _ _ (is_fresh_quiet w _) H3) as Q3.
  pose proof (frame_trans _ _ _ Q1 Q3) as (C1 & C2 & C3 & C4 & _).
  destruct Q1 as (A1 & A2 & _).
  assert (Live : live_by_code w k timeout translate_sv s3 = (Ok (Some eu), s') ->
                 written_through w s s' k eu).
  { intros HL. apply live_by_code_some in HL.
    destruct HL as (row' & now & a & b & fetches & E1 & E2 & E3 & E4 & E5 & E6).
    exists row', now, a, b, fetches.
    rewrite <- C1, <- C2, <- C3, <- C4. repeat split; assumption. }
  rewrite A2 in H.
  destruct (_row_to_dict (pair k <$> eu_additives s !! k)) as [r|] eqn:R;
    [destruct fresh|].
  - unfold l1_put, emit, modify, mbind, M_bind, mret, M_ret in H.
    injection H as <- <-. right; left. simpl. rewrite C1, C2, C4.
    repeat split; reflexivity.
  - right; right. apply Live, H.
  - right; right. apply Live, H.
Qed.

(** X21. Whatever tier answered, a lookup by code that returns a record
    leaves that very record in L1 under the normalised code. *)
Theorem lookup_by_code_fills_l1 (e : string) (name : option string) (timeout : Z)
    (translate_sv : bool) (s s' : state) (eu : pydict) :
  nonempty e = true ->
  query_eu_additive w (Some e) name timeout translate_sv s = (Ok (Some eu), s') ->
  L1_CACHE s' !! normalize_e_code_storage e = Some eu.
Proof.
  intros He H. apply by_code_inv in H; [|exact He].
  destruct H as [[H (A1 & _)]|[(_ & H & _)|H]].
  - rewrite A1. exact H.
  - rewrite H. apply lookup_insert_eq.
  - destruct H as (row & now & a & b & fetches & _ & _ & _ & H & _).
    rewrite H. apply lookup_insert_eq.
Qed.

(** X22. A lookup repeated while the record is fresh is served from L1:
    after a lookup by code has returned a record, a second lookup under
    any spelling of the same code returns the same record without any
    request or write, as long as the record is fresh at the clock
    reading of the second lookup. *)
Theorem repeated_lookup_is_served_from_l1 (e e' : string) (name name' : option string)
    (timeout timeout' : Z) (translate_sv translate_sv' : bool) (s s' : state)
    (eu : pydict) :
  nonempty e = true -> nonempty e' = true ->
  normalize_e_code_storage e' = normalize_e_code_storage e ->
  query_eu_additive w (Some e) name timeout translate_sv s = (Ok (Some eu), s') ->
  fresh_at w (utcnow w (ticks s')) (Some eu) = true ->
  exists s'',
    query_eu_additive w (Some e') name' timeout' translate_sv' s' = (Ok (Some eu), s'')
    /\ L1_CACHE s'' = L1_CACHE s' /\ eu_additives s'' = eu_additives s'
    /\ trace s'' = trace s'.
Proof.
  intros He He' Hk H Hfresh.
  assert (Hhit : L1_CACHE s' !! normalize_e_code_storage e' = Some eu).
  { rewrite Hk. apply by_code_inv in H; [|exact He].
    destruct H as [[H (A1 & _)]|[(_ & H & _)|H]].
    - rewrite A1. exact H.
    - rewrite H. apply lookup_insert_eq.
    - destruct H as (row & now & a & b & fetches & _ & _ & _ & H & _).
      rewrite H. apply lookup_insert_eq. }
  rewrite (by_code_unfold e' name' timeout' translate_sv' s' He').
  cbv zeta. rewrite Hhit.
  destruct (is_fresh_run w (Some eu) s') as (s1 & E1 & (A1 & A2 & A3 & A4 & _)).
  rewrite Hfresh in E1. rewrite (bind_run _ _ _ _ _ E1).
  exists s1. repeat split; assumption.
Qed.

Lemma try_variants_ok variants timeout chosen s :
  exists r s', try_variants w variants timeout chosen s = (Ok r, s').
Proof.
  revert chosen s. induction variants as [|v rest IH]; intros chosen s; simpl try_variants.
  - eexists; eexists; reflexivity.
  - destruct (fetch_rows_run w {[ "additive_e_code" := v ]} timeout s)
      as (rows & s1 & E & _).
    rewrite (bind_run _ _ _ _ _ E).
    destruct rows; [apply IH|].
    destruct (row_truthy _); [eexists; eexists; reflexivity | apply IH].
Qed.

Lemma query_api_ok e_code name timeout s :
  exists r s',
    _query_api_and_normalize w e_code name timeout s = (Ok r, s')
    /\ fetching s s'
    /\ forall eu, r = Some eu -> exists row now, eu = build_record w row now.
Proof.
  assert (Hok : exists r s', _query_api_and_normalize w e_code name timeout s = (Ok r, s')).
  { unfold _query_api_and_normalize.
    assert (exists c s1,
      (if option_nonempty e_code
       then try_variants w (normalize_e_code_query_variants (default EmptyString e_code))
              timeout None
       else if option_nonempty name
       then rows ← fetch_rows w {[ "additive_name" := default EmptyString name ]} timeout;
            match rows with [] => mret None | _ => mret (choose_by_name w rows) end
       else mret None) s = (Ok c, s1)) as (c & s1 & E).
    { destruct (option_nonempty e_code); [apply try_variants_ok|].
      destruct (option_nonempty name); [|eexists; eexists; reflexivity].
      destruct (fetch_rows_run w {[ "additive_name" := default EmptyString name ]} timeout s)
        as (rows & s1 & E & _).
      rewrite (bind_run _ _ _ _ _ E). destruct rows; eexists; eexists; reflexivity. }
    rewrite (bind_run _ _ _ _ _ E).
    destruct (if_truthy c); eexists; eexists; reflexivity. }
  destruct Hok as (r & s' & E). exists r, s'. split; [exact E|].
  split; [eapply respects_run; [apply query_api_fetching | exact E]|].
  intros eu ->. apply query_api_some in E. apply E.
Qed.

Lemma add_sv_untranslated_ok row now s :
  exists eu s', add_sv_and_aliases w (build_record w row now) false s = (Ok eu, s').
Proof.
  unfold add_sv_and_aliases.
  set (eu0 := <["eu_function_sv" := empty_str]>
                (<["eu_official_name_sv" := empty_str]> (build_record w row now))).
  destruct (sv_fallbacks_steps eu0
              (normalize_e_code_storage
                 (pick w row ["additive_e_code"; "e_code"; "E_number"; "e_number"; "code"]))
              (pick w row ["functional_class"; "function"; "category"])
              EmptyString EmptyString)
    as (_ & _ & _ & _ & eu5 & Hrun & _); try reflexivity.
  unfold mbind, M_bind, mret, M_ret, lift_result. fold eu0. rewrite Hrun.
  eexists; eexists; reflexivity.
Qed.

(** The three ways in which the live stage of a lookup by code ends. *)
Lemma live_by_code_run k timeout translate_sv s :
  (exists eu s', live_by_code w k timeout translate_sv s = (Ok (Some eu), s'))
  \/ (exists s', live_by_code w k timeout translate_sv s = (Ok None, s') /\ fetching s s')
  \/ (translate_sv = true
      /\ exists e s', live_by_code w k timeout translate_sv s = (Raise e, s')
                      /\ fetching s s').
Proof.
  unfold live_by_code.
  destruct (query_api_ok (Some k) None timeout s) as (r & s1 & E1 & F1 & Hshape).
  rewrite (bind_run _ _ _ _ _ E1).
  destruct (if_truthy r) as [eu0|] eqn:T.
  - apply if_truthy_some in T. destruct (Hshape eu0 T) as (row & now & ->).
    destruct (add_sv_and_aliases w (build_record w row now) translate_sv s1)
      as [[eu1|e] s2] eqn:E2.
    + left. pose proof E2 as E2'. apply add_sv_and_aliases_live in E2' as (a & b & ->).
      rewrite (bind_run _ _ _ _ _ E2), (bind_run _ _ _ _ _ (db_upsert_live w row now a b s2)).
      eexists; eexists; reflexivity.
    + right; right.
      pose proof (respects_run _ _ _ _ _ (add_sv_quiet w _ _) E2) as Q2.
      destruct translate_sv.
      * split; [reflexivity|]. exists e, s2. split.
        -- unfold mbind, M_bind. rewrite E2. reflexivity.
        -- eapply frame_trans; [exact F1 | apply quiet_fetching, Q2].
      * destruct (add_sv_untranslated_ok row now s1) as (eu & s' & E). congruence.
  - right; left. exists s1. split; [reflexivity | exact F1].
Qed.

Lemma by_name_unfold e_code name timeout translate_sv s :
  option_nonempty e_code = false -> option_nonempty name = true ->
  query_eu_additive w e_code name timeout translate_sv s =
    (eu ← _query_api_and_normalize w None name timeout;
     match if_truthy eu with
     | Some eu =>
         eu ← add_sv_and_aliases w eu translate_sv;
         let e_store := py_or (get eu "eu_e_code") empty_str in
         (if truthy e_store then
            db_upsert w eu;;
            match e_store with
            | PStr key => l1_put key eu
            | _ => raise (Exception "TypeError")
            end
          else mret tt);;
         sleep;;
         mret (Some eu)
     | None => mret None
     end) s.
Proof.
  intros He Hn. unfold query_eu_additive. rewrite He, Hn. reflexivity.
Qed.

Lemma by_name_run e_code name timeout translate_sv s :
  option_nonempty e_code = false -> option_nonempty name = true ->
  let run := query_eu_additive w e_code name timeout translate_sv s in
  (exists eu, fst run = Ok (Some eu))
  \/ (fst run = Ok None /\ fetching s (snd run))
  \/ (translate_sv = true /\ (exists e, fst run = Raise e) /\ fetching s (snd run)).
Proof.
  intros He Hn run. subst run. rewrite (by_name_unfold _ _ _ _ _ He Hn).
  destruct (query_api_ok None name timeout s) as (r & s1 & E1 & F1 & Hshape).
  rewrite (bind_run _ _ _ _ _ E1).
  destruct (if_truthy r) as [eu0|] eqn:T.
  - apply if_truthy_some in T. destruct (Hshape eu0 T) as (row & now & ->).
    destruct (add_sv_and_aliases w (build_record w row now) translate_sv s1)
      as [[eu1|e] s2] eqn:E2.
    + left. pose proof E2 as E2'. apply add_sv_and_aliases_live in E2' as (a & b & ->).
      rewrite (bind_run _ _ _ _ _ E2). cbv zeta.
      assert (G : get (live_record w row now a b) "eu_e_code" = PStr (record_code w row))
        by reflexivity.
      rewrite G. unfold py_or, empty_str. simpl truthy.
      destruct (nonempty (record_code w row)) eqn:Ne.
      * simpl truthy. rewrite Ne.
        unfold mbind at 1. unfold M_bind.
        unfold mbind at 1. unfold M_bind. rewrite db_upsert_live.
        eexists. reflexivity.
      * eexists. reflexivity.
    + right; right.
      pose proof (respects_run _ _ _ _ _ (add_sv_quiet w _ _) E2) as Q2.
      destruct translate_sv.
      * split; [reflexivity|]. unfold mbind, M_bind. rewrite E2. simpl. split; [eauto|].
        eapply frame_trans; [exact F1 | apply quiet_fetching, Q2].
      * destruct (add_sv_untranslated_ok row now s1) as (eu & s' & E). congruence.
  - right; left. simpl. split; [reflexivity | exact F1].
Qed.

(** The three ways in which a lookup ends. *)
Lemma query_outcome e_code name timeout translate_sv s :
  let run := query_eu_additive w e_code name timeout translate_sv s in
  (exists eu, fst run = Ok (Some eu))
  \/ (fst run = Ok None /\ fetching s (snd run))
  \/ (translate_sv = true /\ (exists e, fst run = Raise e) /\ fetching s (snd run)).
Proof.
  intros run. subst run.
  destruct (option_nonempty e_code) eqn:He.
  - destruct e_code as [e|]; [|discriminate]. simpl in He.
    rewrite (by_code_unfold e name timeout translate_sv s He). cbv zeta.
    set (k := normalize_e_code_storage e).
    destruct (is_fresh_run w (L1_CACHE s !! k) s) as (s1 & E1 & Q1).
    rewrite (bind_run _ _ _ _ _ E1).
    destruct (fresh_at w (utcnow w (ticks s)) (L1_CACHE s !! k)) eqn:Fr.
    { left. destruct (L1_CACHE s !! k) as [d|]; [|discriminate]. eexists. reflexivity. }
    rewrite (bind_run _ _ _ _ _ (db_get_run k s1)).
    set (row := _row_to_dict (pair k <$> eu_additives s1 !! k)).
    destruct (is_fresh_run w row s1) as (s2 & E2 & Q2).
    rewrite (bind_run _ _ _ _ _ E2).
    pose proof (quiet_fetching _ _ (frame_trans _ _ _ Q1 Q2)) as F.
    assert (Live :
      let run := live_by_code w k timeout translate_sv s2 in
      (exists eu, fst run = Ok (Some eu))
      \/ (fst run = Ok None /\ fetching s (snd run))
      \/ (translate_sv = true /\ (exists e, fst run = Raise e) /\ fetching s (snd run))).
    { destruct (live_by_code_run k timeout translate_sv s2)
        as [(eu & s' & E)|[(s' & E & F')|(Ht & exc & s' & E & F')]]; rewrite E; simpl.
      - left. eauto.
      - right; left. split; [reflexivity | eapply frame_trans; eassumption].
      - right; right. split; [exact Ht|]. split; [eauto|].
        eapply frame_trans; eassumption. }
    destruct row as [r|]; [|exact Live].
    destruct (fresh_at w (utcnow w (ticks s1)) (Some r)); [|exact Live].
    left. eexists. reflexivity.
  - destruct (option_nonempty name) eqn:Hn.
    + apply by_name_run; assumption.
    + right; left. unfold query_eu_additive. rewrite He, Hn. simpl.
      split; [reflexivity | apply frame_refl].
Qed.

(** X23. A lookup that does not return a record has written nothing:
    when it returns none or raises, L1, the durable tier and the items
    are as before, and the only events recorded are requests to the
    registry. *)
Theorem lookup_without_record_writes_nothing (e_code name : option string) (timeout : Z)
    (translate_sv : bool) (s : state) :
  let run := query_eu_additive w e_code name timeout translate_sv s in
  (forall eu, fst run <> Ok (Some eu)) ->
  L1_CACHE (snd run) = L1_CACHE s
  /\ eu_additives (snd run) = eu_additives s
  /\ objects (snd run) = objects s
  /\ exists evs, trace (snd run) = (trace s ++ evs)%list /\ Forall is_http evs.
Proof.
  intros run Hnone. subst run.
  destruct (query_outcome e_code name timeout translate_sv s)
    as [[eu E]|[[_ F]|(_ & _ & F)]].
  - exfalso. exact (Hnone eu E).
  - destruct F as (A1 & A2 & A3 & _ & A5). auto.
  - destruct F as (A1 & A2 & A3 & _ & A5). auto.
Qed.


End LookupMore.

(** After the lookup of the worked example L1 holds the record; the
    same code, spelled with a space, is then answered from L1. *)
Lemma l1_hit_is_served_witness :
  exists s',
    query_eu_additive world_up (Some "E 250") None 45 true after_E250
    = (Ok (Some record_E250), s')
    /\ trace s' = trace after_E250.
Proof.
  destruct (l1_hit_is_served world_up "E 250" None 45 true after_E250 record_E250)
    as (s' & E & _ & _ & _ & T).
  - reflexivity.
  - reflexivity.
  - vm_compute. reflexivity.
  - exists s'. split; [exact E | exact T].
Defined.

(** The same state with L1 emptied, as after a restart of the process:
    the durable row answers and L1 is filled again. *)
Lemma durable_hit_fills_l1_witness :
  let s := set_L1_CACHE (fun _ => ∅) after_E250 in
  let r := delete "eu_fip_url" record_E250 in
  exists s',
    query_eu_additive world_up (Some "e250") None 45 true s = (Ok (Some r), s')
    /\ L1_CACHE s' = {[ "E250" := r ]}
    /\ trace s' = (trace s ++ [EvL1Put "E250" r])%list.
Proof.
  intros s r.
  destruct (durable_hit_fills_l1 world_up "e250" None 45 true s
              (durable_row "Sodium nitrite" "Preservative" "1234" row_E250
                 "2026-11-03T00:00:02" EmptyString "Konserveringsmedel") r)
    as (s' & E & L & _ & _ & T).
  - reflexivity.
  - reflexivity.
  - reflexivity.
  - reflexivity.
  - intros n Hn. assert (n = 4 \/ n = 5)%nat as [-> | ->] by (simpl in Hn; lia);
      vm_compute; reflexivity.
  - exists s'. split; [exact E|]. split; [exact L | exact T].
Defined.

Lemma lookup_by_code_fills_l1_witness :
  L1_CACHE after_E250 !! normalize_e_code_storage "e-250" = Some record_E250.
Proof.
  apply (lookup_by_code_fills_l1 world_up "e-250" None 45 true empty_state after_E250
           record_E250); [reflexivity | exact run_E250].
Defined.

Lemma repeated_lookup_is_served_from_l1_witness :
  exists s'',
    query_eu_additive world_up (Some "E 250") None 30 false after_E250
    = (Ok (Some record_E250), s'')
    /\ trace s'' = trace after_E250.
Proof.
  destruct (repeated_lookup_is_served_from_l1 world_up "e-250" "E 250" None None 45 30
              true false empty_state after_E250 record_E250)
    as (s'' & E & _ & _ & T).
  - reflexivity.
  - reflexivity.
  - reflexivity.
  - exact run_E250.
  - vm_compute. reflexivity.
  - exists s''. split; [exact E | exact T].
Defined.

(** With the network down and a stale row the lookup returns none and
    the row is still there. *)
Lemma lookup_without_record_writes_nothing_witness :
  let run := query_eu_additive world_down (Some "e 250") None 45 true stale_state in
  fst run = Ok None
  /\ L1_CACHE (snd run) = ∅
  /\ eu_additives (snd run) = {[ "E250" := old_row ]}.
Proof.
  intros run.
  assert (E : fst run = Ok None) by (vm_cast_no_check (eq_refl (@Ok (option pydict) None))).
  split; [exact E|].
  destruct (lookup_without_record_writes_nothing world_down (Some "e 250") None 45 true
              stale_state) as (L & D & _).
  - intros eu. fold run. rewrite E. discriminate.
  - split; [exact L | exact D].
Defined.

(** ** More on the orchestrator *)

Section OrchestratorMore.

Variable w : World.

#[local] Instance keeps_field_frame key : Frame (keeps_field key).
Proof.
  split; unfold keeps_field.
  - reflexivity.
  - intros s1 s2 s3 H1 H2 it. rewrite H2. apply H1.
Qed.

Lemma same_objects_keeps_field key s s' : same_objects s s' -> keeps_field key s s'.
Proof. unfold same_objects, keeps_field, object_dict. intros -> it. reflexivity. Qed.

Lemma object_dict_set it d s : object_dict (set_objects (insert it d) s) it = d.
Proof. unfold object_dict. simpl. rewrite lookup_insert_eq. reflexivity. Qed.

Lemma object_dict_set_ne it j d s :
  j <> it -> object_dict (set_objects (insert it d) s) j = object_dict s j.
Proof. intros H. unfold object_dict. simpl. rewrite lookup_insert_ne by congruence. reflexivity. Qed.

Lemma set_item_field key it k v : k <> key -> respects (keeps_field key) (set_item it k v).
Proof.
  intros Hk s j. unfold set_item, modify. simpl snd.
  destruct (decide (j = it)) as [->|Hne].
  - rewrite object_dict_set. apply lookup_insert_ne, Hk.
  - rewrite object_dict_set_ne by exact Hne. reflexivity.
Qed.

Lemma set_item_sets it k v s : object_dict (snd (set_item it k v s)) it !! k = Some v.
Proof. unfold set_item, modify. simpl snd. rewrite object_dict_set. apply lookup_insert_eq. Qed.

Lemma copy_fields_field key it eu keys :
  ~ In key keys -> respects (keeps_field key) (copy_fields it eu keys).
Proof.
  induction keys as [|k rest IH]; intros Hk; simpl copy_fields.
  - apply respects_ret; exact _.
  - apply respects_bind; [exact _ | |].
    + apply set_item_field. intros ->. apply Hk. left. reflexivity.
    + intros _. apply IH. intros H. apply Hk. right. exact H.
Qed.

Lemma enrich_one_field key it translate_sv :
  ~ In key enrichment_keys -> respects (keeps_field key) (enrich_one w it translate_sv).
Proof.
  intros Hk.
  assert (K : forall k, In k enrichment_keys -> k <> key) by (intros k Hin ->; exact (Hk Hin)).
  assert (Hm : ~ In key mirrored_keys).
  { intros H. apply Hk. unfold enrichment_keys. apply in_or_app. right. exact H. }
  unfold enrich_one.
  apply respects_bind; [exact _ | apply respects_get_state; exact _ |]. intros s0.
  destruct (eq_str _ _); [apply respects_ret; exact _|].
  apply respects_bind; [exact _ | apply respects_lift; exact _ |]. intros name.
  apply respects_bind; [exact _ | apply respects_lift; exact _ |]. intros e_code.
  apply respects_bind; [exact _ | |].
  - eapply respects_weaken; [apply same_objects_keeps_field | apply query_same_objects].
  - intros eu. destruct (if_truthy eu).
    + apply respects_bind; [exact _ | apply set_item_field, K; simpl; auto |]. intros _.
      apply respects_bind; [exact _ | apply set_item_field, K; simpl; auto |]. intros _.
      apply respects_bind; [exact _ | apply copy_fields_field, Hm |]. intros _.
      destruct (truthy _); [apply set_item_field, K; simpl; auto | apply respects_ret; exact _].
    + apply respects_bind; [exact _ | apply set_item_field, K; simpl; auto |]. intros _.
      apply set_item_field, K; simpl; auto.
Qed.

Lemma enrich_loop_field key items translate_sv out :
  ~ In key enrichment_keys ->
  respects (keeps_field key) (enrich_loop w items translate_sv out).
Proof.
  intros Hk. revert out. induction items as [|x rest IH]; intros out; simpl.
  - apply respects_ret; exact _.
  - apply respects_bind; [exact _ | apply enrich_one_field, Hk | intros _; apply IH].
Qed.

(** X25. Enrichment only adds its own fields: whatever the list holds
    and however the run ends, every field of every item other than the
    eleven enrichment fields is exactly as before. *)
Theorem enrich_writes_only_eu_fields (items : list nat) (translate_sv : bool)
    (s : state) (it : nat) (key : string) :
  ~ In key enrichment_keys ->
  object_dict (snd (enrich_items_with_eu w items translate_sv s)) it !! key
  = object_dict s it !! key.
Proof.
  intros Hk. unfold enrich_items_with_eu.
  apply (enrich_loop_field key items translate_sv [] Hk s it).
Qed.

(** One item that is not of source PDF, processed to the end, carries
    one of the two marks. *)
Lemma enrich_one_marks it translate_sv s s' :
  enrich_one w it translate_sv s = (Ok tt, s') ->
  eq_str (get (object_dict s it) "source") "PDF" = false ->
  marked (object_dict s' it).
Proof.
  unfold enrich_one. intros H Hsrc.
  apply bind_ok_inv in H as (s0 & s0' & [= <- <-] & H).
  rewrite Hsrc in H.
  apply bind_ok_inv in H as (name & sa & [= _ <-] & H).
  apply bind_ok_inv in H as (e_code & sa & [= _ <-] & H).
  apply bind_ok_inv in H as (eu & s1 & _ & H).
  destruct (if_truthy eu) as [rec|].
  - apply bind_ok_inv in H as ([] & s2 & H2 & H).
    apply bind_ok_inv in H as ([] & s3 & H3 & H).
    apply bind_ok_inv in H as ([] & s4 & H4 & H).
    left.
    pose proof (set_item_sets it "eu_enriched" (PBool true) s1) as A. rewrite H2 in A.
    pose proof (set_item_sets it "eu_source" (PStr "EU_API") s2) as B. rewrite H3 in B.
    simpl snd in A, B.
    assert (Hm : forall key, key = "eu_enriched" \/ key = "eu_source" ->
                             ~ In key mirrored_keys).
    { intros key [-> | ->] Hin; simpl in Hin;
        repeat (destruct Hin as [Hin|Hin]; [discriminate Hin|]); exact Hin. }
    assert (Last : forall key, key = "eu_enriched" \/ key = "eu_source" ->
                               object_dict s' it !! key = object_dict s4 it !! key).
    { intros key Hkey. destruct (truthy _).
      - apply (respects_run _ _ _ _ _
                 (set_item_field key it "eu_fip_url" _
                    ltac:(destruct Hkey as [-> | ->]; discriminate)) H).
      - injection H as <-. reflexivity. }
    split.
    + rewrite (Last _ (or_introl eq_refl)).
      rewrite (respects_run _ _ _ _ _
                 (copy_fields_field "eu_enriched" it rec mirrored_keys
                    (Hm _ (or_introl eq_refl))) H4 it).
      rewrite (respects_run _ _ _ _ _
                 (set_item_field "eu_enriched" it "eu_source" _ ltac:(discriminate)) H3 it).
      exact A.
    + rewrite (Last _ (or_intror eq_refl)).
      rewrite (respects_run _ _ _ _ _
                 (copy_fields_field "eu_source" it rec mirrored_keys
                    (Hm _ (or_intror eq_refl))) H4 it).
      exact B.
  - apply bind_ok_inv in H as ([] & s2 & H2 & H3).
    right.
    pose proof (set_item_sets it "eu_enriched" (PBool false) s1) as A. rewrite H2 in A.
    pose proof (set_item_sets it "eu_source" (PStr "None") s2) as B. rewrite H3 in B.
    simpl snd in A, B. split; [|exact B].
    rewrite (respects_run _ _ _ _ _
               (set_item_field "eu_enriched" it "eu_source" _ ltac:(discriminate)) H3 it).
    exact A.
Qed.

Lemma source_not_written : ~ In "source" enrichment_keys.
Proof.
  intros H. unfold enrichment_keys, mirrored_keys in H. simpl in H.
  repeat (destruct H as [H|H]; [discriminate H|]). exact H.
Qed.

Lemma enrich_loop_marks items translate_sv out s r s' it :
  enrich_loop w items translate_sv out s = (Ok r, s') ->
  In it items \/ marked (object_dict s it) ->
  eq_str (get (object_dict s it) "source") "PDF" = false ->
  marked (object_dict s' it).
Proof.
  revert out s. induction items as [|x rest IH]; intros out s; simpl enrich_loop.
  - intros [= _ <-] [[]|H] _. exact H.
  - intros H Hit Hsrc. apply bind_ok_inv in H as ([] & s1 & H1 & H).
    pose proof (respects_run _ _ _ _ _ (enrich_one_field "source" x translate_sv
                                          source_not_written) H1 it) as Hkeep.
    apply (IH _ _ H).
    + destruct (decide (it = x)) as [->|Hne].
      * right. apply (enrich_one_marks x translate_sv s s1 H1 Hsrc).
      * assert (Same : object_dict s1 it = object_dict s it).
        { unfold object_dict.
          rewrite (respects_run _ _ _ _ _ (enrich_one_other w x translate_sv) H1 it Hne).
          reflexivity. }
        rewrite Same. destruct Hit as [[E|Hin]|Hm]; [congruence | left; exact Hin | right; exact Hm].
    + unfold get in *. rewrite Hkeep. exact Hsrc.
Qed.

(** X26. When [enrich_items_with_eu] returns, every item of the list
    that is not of source PDF carries one of two marks, whatever else
    the list holds (the same object twice included): enriched from
    EU_API, or not enriched with the source None. *)
Theorem enrich_marks_every_item (items : list nat) (translate_sv : bool)
    (s s' : state) (out : list nat) (it : nat) :
  enrich_items_with_eu w items translate_sv s = (Ok out, s') ->
  In it items ->
  eq_str (get (object_dict s it) "source") "PDF" = false ->
  marked (object_dict s' it).
Proof.
  intros H Hin Hsrc. unfold enrich_items_with_eu in H.
  eapply enrich_loop_marks; [exact H | left; exact Hin | exact Hsrc].
Qed.





End OrchestratorMore.

(** The item of the worked example keeps its ingredient and gains its
    marks. *)
Lemma enrich_writes_only_eu_fields_witness :
  object_dict (snd (enrich_items_with_eu world_up [1; 2]%nat true item_state)) 1%nat
    !! "ingredient"
  = Some (PStr "sodium nitrite (E250)").
Proof.
  rewrite (enrich_writes_only_eu_fields world_up [1; 2]%nat true item_state 1%nat
             "ingredient").
  - reflexivity.
  - intros H. unfold enrichment_keys, mirrored_keys in H. simpl in H.
    repeat (destruct H as [H|H]; [discriminate H|]). exact H.
Defined.

Lemma enrich_marks_every_item_witness :
  marked (object_dict (snd (enrich_items_with_eu world_up [1; 2; 1]%nat true item_state))
            1%nat).
Proof.
  apply (enrich_marks_every_item world_up [1; 2; 1]%nat true item_state
           (snd (enrich_items_with_eu world_up [1; 2; 1]%nat true item_state))
           [1; 2; 1]%nat 1%nat).
  - assert (E : fst (enrich_items_with_eu world_up [1; 2; 1]%nat true item_state)
                = Ok [1; 2; 1]%nat)
      by (vm_cast_no_check (eq_refl (@Ok (list nat) [1; 2; 1]%nat))).
    pose proof (run_eta (enrich_items_with_eu world_up [1; 2; 1]%nat true) item_state) as R.
    rewrite E in R. exact R.
  - left. reflexivity.
  - reflexivity.
Defined.


(** ** Grouping for the report *)

Section Grouping.

Lemma category_of_ext (g g' : gmap string (list pydict)) it :
  (forall c, is_Some (g !! c) <-> is_Some (g' !! c)) ->
  Utils.category_of g it = Utils.category_of g' it.
Proof.
  intros H. unfold Utils.category_of. destruct (py_or _ _); try reflexivity.
  f_equal. rewrite (bool_decide_ext _ _ (H s)). reflexivity.
Qed.

Lemma category_of_key (g : gmap string (list pydict)) it c :
  is_Some (g !! "None") -> Utils.category_of g it = Ok c -> is_Some (g !! c).
Proof.
  intros Hn. unfold Utils.category_of. destruct (py_or _ _); try discriminate;
    try (intros [= <-]; exact Hn).
  destruct (bool_decide (is_Some (g !! s))) eqn:B; intros [= <-]; [|exact Hn].
  apply bool_decide_eq_true in B. exact B.
Qed.

Lemma group_loop_spec items (g g' : gmap string (list pydict)) :
  is_Some (g !! "None") ->
  Utils.group_loop items g = Ok g' ->
  forall c, g' !! c = (fun l => (l ++ List.filter (files_under g c) items)%list) <$> (g !! c).
Proof.
  revert g. induction items as [|it rest IH]; intros g Hn; simpl Utils.group_loop.
  - intros [= <-] c. simpl. destruct (g !! c); simpl; [rewrite app_nil_r|]; reflexivity.
  - intros H c. apply result_bind_ok in H as (cat & Hcat & H).
    pose proof (category_of_key g it cat Hn Hcat) as [l0 Hl0].
    set (g1 := <[cat := (default [] (g !! cat) ++ [it])%list]> g) in *.
    assert (Hdom : forall c', is_Some (g1 !! c') <-> is_Some (g !! c')).
    { intros c'. unfold g1. destruct (decide (cat = c')) as [<-|Hne].
      - rewrite lookup_insert_eq, Hl0. split; eauto.
      - rewrite lookup_insert_ne by exact Hne. reflexivity. }
    assert (Hsame : forall x, files_under g1 c x = files_under g c x).
    { intros x. unfold files_under. rewrite (category_of_ext g1 g x Hdom). reflexivity. }
    rewrite (IH g1 (proj2 (Hdom "None") Hn) H c).
    rewrite (List.filter_ext _ _ Hsame). simpl List.filter.
    unfold files_under at 2. rewrite Hcat.
    unfold g1. destruct (decide (cat = c)) as [<-|Hne].
    + rewrite lookup_insert_eq, Hl0, bool_decide_true by reflexivity. simpl.
      rewrite <- app_assoc. reflexivity.
    + rewrite lookup_insert_ne by exact Hne.
      rewrite bool_decide_false by exact Hne. reflexivity.
Qed.

Lemma empty_groups_lookup categories c :
  Utils.empty_groups categories !! c
  = if bool_decide (c ∈ "None" :: categories) then Some [] else None.
Proof.
  unfold Utils.empty_groups.
  destruct (decide ("None" = c)) as [<-|Hne].
  { rewrite lookup_insert_eq, bool_decide_true by (left). reflexivity. }
  rewrite lookup_insert_ne by exact Hne.
  rewrite (bool_decide_ext (c ∈ "None" :: categories) (c ∈ categories))
    by (rewrite elem_of_cons; intuition congruence).
  induction categories as [|x cats IH].
  - rewrite fmap_nil, list_to_map_nil, lookup_empty. reflexivity.
  - rewrite fmap_cons, list_to_map_cons. cbn [fst snd].
    destruct (decide (x = c)) as [->|Hx].
    + rewrite lookup_insert_eq, bool_decide_true by (left). reflexivity.
    + rewrite lookup_insert_ne by exact Hx. rewrite IH.
      apply (f_equal (fun b : bool => if b then Some [] else None)).
      apply bool_decide_ext. rewrite elem_of_cons. intuition congruence.
Qed.

(** X28. [group_by_category] sorts the items without losing, repeating
    or reordering any: the groups are the given categories and None,
    and each group holds, in their order, exactly the items filed under
    it, an item being filed under its category when that is one of the
    groups and under None otherwise. *)
Theorem group_by_category_partition (items : list pydict) (categories : list string)
    (g : gmap string (list pydict)) :
  Utils.group_by_category items categories = Ok g ->
  forall c,
    g !! c = if bool_decide (c ∈ "None" :: categories)
             then Some (List.filter (files_under (Utils.empty_groups categories) c) items)
             else None.
Proof.
  intros H c. unfold Utils.group_by_category in H.
  assert (Hn : is_Some (Utils.empty_groups categories !! "None"))
    by (rewrite empty_groups_lookup, bool_decide_true by (left); eauto).
  rewrite (group_loop_spec items (Utils.empty_groups categories) g Hn H c).
  rewrite empty_groups_lookup. destruct (bool_decide _); reflexivity.
Qed.

End Grouping.

(** Three items and the one category Dairy: the item of an unknown
    category and the item without category are filed under None, in
    their order. *)
Lemma group_by_category_partition_witness :
  let i1 : pydict := {[ "ingredient" := PStr "milk"; "category" := PStr "Dairy" ]} in
  let i2 : pydict := {[ "ingredient" := PStr "salt"; "category" := PStr "Mineral" ]} in
  let i3 : pydict := {[ "ingredient" := PStr "water" ]} in
  let g : gmap string (list pydict) := {[ "Dairy" := [i1]; "None" := [i2; i3] ]} in
  Utils.group_by_category [i1; i2; i3] ["Dairy"] = Ok g
  /\ g !! "None"
     = Some (List.filter (files_under (Utils.empty_groups ["Dairy"]) "None") [i1; i2; i3]).
Proof.
  intros i1 i2 i3 g.
  assert (E : Utils.group_by_category [i1; i2; i3] ["Dairy"] = Ok g)
    by (vm_cast_no_check (eq_refl (@Ok (gmap string (list pydict)) g))).
  split; [exact E|].
  exact (group_by_category_partition [i1; i2; i3] ["Dairy"] g E "None").
Defined.
